(** * M&A news extractor: normalizer, retry loops and backend fallback

    A shallow embedding of the parts of the extractor that combine and
    deliver records:

    - [Normalizer]: [standardize_date] and [clean_and_structure_data]
      of [ma_extractor_optimized.py] ([ma_extractor.py] has the same
      body without the extraction date);
    - [Orchestrator]: [run_all_sequential], [run_all_parallel] and
      [run_extraction] of [ma_extractor_optimized.py];
    - [Retry]: [_make_request] of [valor_economico_optimized.py] and
      [fusoes_aquisicoes_optimized.py] (the two bodies are the same);
    - [Valor]: the Selenium/requests switch of [ValorEconomicoScraper].

    Conventions.  A Python [str] is a [string] whose characters are code
    points of the Latin-1 repertoire (U+0000 to U+00FF), one [ascii] per
    code point, so the cedilla of the month name is the single character
    231.  A DataFrame is the list of its rows in positional order; the
    index labels are not modelled.  Wall-clock readings, random draws and
    replies of the network are inputs of the functions that consume
    them, and the [time.sleep] calls are recorded in a trace.  So are
    the two things the libraries leave open: how the default sort of
    pandas, which is not stable, arranges rows with equal keys, and
    what the [pow] of the C library returns on doubles.  Numbers are
    Python's: an [int] is an integer without bound, a [float] an IEEE
    754 double with the arithmetic of the machine.  Paths are joined
    as [posixpath] joins them. *)

From Stdlib Require Import List String Ascii Bool Arith ZArith Floats Lia.
From Stdlib Require Import Permutation.
Import ListNotations.

Close Scope Z_scope.

(* ================================================================= *)
(** ** Characters and the string methods the normalizer calls *)

Module Latin1.

Local Open Scope nat_scope.

Definition code (c : ascii) : nat := nat_of_ascii c.

Definition between (lo hi : nat) (c : ascii) : bool :=
  (lo <=? code c) && (code c <=? hi).

(** [\d] on a [str] pattern: the decimal digits; in Latin-1 these are
    0 to 9 only. *)
Definition is_digit (c : ascii) : bool := between 48 57 c.

(** [\w] on a [str] pattern: alphanumeric code points and the
    underscore.  In Latin-1 the alphanumerics beyond ASCII are the
    ordinal indicators, the micro sign, the superscript digits, the
    vulgar fractions and the accented letters. *)
Definition is_word (c : ascii) : bool :=
  between 48 57 c || between 65 90 c || (code c =? 95) || between 97 122 c
  || (code c =? 170) || between 178 179 c || (code c =? 181)
  || between 185 186 c || between 188 190 c
  || between 192 214 c || between 216 246 c || between 248 255 c.

(** The class [[/\-\.]]. *)
Definition is_sep (c : ascii) : bool :=
  (code c =? 47) || (code c =? 45) || (code c =? 46).

(** [str.lower] on one code point. *)
Definition lower_char (c : ascii) : ascii :=
  if between 65 90 c || between 192 214 c || between 216 222 c
  then ascii_of_nat (code c + 32) else c.

Fixpoint lower (s : string) : string :=
  match s with
  | EmptyString => EmptyString
  | String c s' => String (lower_char c) (lower s')
  end.

Fixpoint zeros (n : nat) : string :=
  match n with
  | O => EmptyString
  | S n' => String "0" (zeros n')
  end.

(** [str.zfill]: pad with zeros on the left, after a leading sign. *)
Definition zfill (width : nat) (s : string) : string :=
  let pad := zeros (width - String.length s) in
  match s with
  | String c s' =>
      if (code c =? 43) || (code c =? 45)
      then String c (pad ++ s')
      else (pad ++ s)%string
  | EmptyString => pad
  end.

(** Every character of [s] is in the class [p]. *)
Fixpoint all (p : ascii -> bool) (s : string) : bool :=
  match s with
  | EmptyString => true
  | String c s' => p c && all p s'
  end.

(** No character of [s] is in the class [p]. *)
Definition none (p : ascii -> bool) (s : string) : bool :=
  all (fun c => negb (p c)) s.

Definition a_tilde : ascii := "227"%char.
Definition c_cedilla : ascii := "231"%char.
Definition o_circumflex : ascii := "244"%char.
Definition o_tilde : ascii := "245"%char.

End Latin1.

(* ================================================================= *)
(** ** The fragment of [re] the date patterns use

    A backtracking matcher in continuation-passing style: the
    continuation receives the rest of the subject and answers with the
    groups captured after this point.  Repetition is greedy and only
    over character classes, and groups are not nested: that is all the
    two date patterns need. *)

Module Regex.

Import Latin1.
Local Open Scope string_scope.

Inductive regex : Type :=
| Str (lit : string)                                 (* literal text *)
| Cls (p : ascii -> bool)                            (* one character of a class *)
| Rep (p : ascii -> bool) (lo : nat) (hi : option nat) (* greedy p{lo,hi}; no hi: unbounded *)
| Cat (r1 r2 : regex)
| Grp (r : regex).                                   (* capturing group *)

Definition groups : Type := list string.
Definition cont : Type := string -> option groups.

(** [lit] is a prefix of [s]: the rest of [s]. *)
Fixpoint strip (lit s : string) : option string :=
  match lit, s with
  | EmptyString, _ => Some s
  | String a lit', String b s' => if Ascii.eqb a b then strip lit' s' else None
  | String _ _, EmptyString => None
  end.

Definition may_take (hi : option nat) : bool :=
  match hi with Some O => false | _ => true end.

(** Greedy repetition: take one more character while the class and
    the upper bound allow and the rest of the pattern then matches;
    otherwise stop here, if the lower bound is reached. *)
Fixpoint rep (p : ascii -> bool) (lo : nat) (hi : option nat)
         (s : string) (k : cont) : option groups :=
  let stop := if Nat.eqb lo 0 then k s else None in
  match s with
  | String c s' =>
      if p c && may_take hi then
        match rep p (Nat.pred lo) (option_map Nat.pred hi) s' k with
        | Some g => Some g
        | None => stop
        end
      else stop
  | EmptyString => stop
  end.

(** The text between the start [s] of a group and the rest [s'] left
    when the group closes. *)
Definition consumed (s s' : string) : string :=
  substring 0 (String.length s - String.length s') s.

Fixpoint matches (r : regex) (s : string) (k : cont) : option groups :=
  match r with
  | Str lit => match strip lit s with Some s' => k s' | None => None end
  | Cls p =>
      match s with
      | String c s' => if p c then k s' else None
      | EmptyString => None
      end
  | Rep p lo hi => rep p lo hi s k
  | Cat r1 r2 => matches r1 s (fun s' => matches r2 s' k)
  | Grp r1 =>
      matches r1 s (fun s' => option_map (cons (consumed s s')) (k s'))
  end.

(** [re.search(r, s).groups()]: the groups of the leftmost match. *)
Fixpoint search (r : regex) (s : string) : option groups :=
  match matches r s (fun _ => Some []) with
  | Some g => Some g
  | None =>
      match s with
      | String _ s' => search r s'
      | EmptyString => None
      end
  end.

(** [re.findall(r, s)[0]] when the list is not empty: the groups of
    the first match, which is the match [re.search] finds. *)
Definition findall_first (r : regex) (s : string) : option groups :=
  search r s.

(** *** Shapes of subjects, for the statements about the matcher *)

(** The continuation [k] rejects [s] and every suffix of [s]. *)
Fixpoint rejects (k : cont) (s : string) : Prop :=
  k s = None /\
  match s with
  | String _ s' => rejects k s'
  | EmptyString => True
  end.

(** [s] does not start with a character of the class [p]. *)
Definition stops (p : ascii -> bool) (s : string) : bool :=
  match s with
  | String c _ => negb (p c)
  | EmptyString => true
  end.

(** A greedy repetition bounded by [hi] that has taken the run [d]
    cannot go on into [rest]. *)
Definition halts (p : ascii -> bool) (hi : option nat) (d rest : string) : Prop :=
  match hi with
  | None => stops p rest = true
  | Some h => String.length d <= h /\ (String.length d = h \/ stops p rest = true)
  end.

Declare Scope regex_scope.
Delimit Scope regex_scope with re.
Infix ">>" := Cat (at level 61, right associativity) : regex_scope.

End Regex.

(* ================================================================= *)
(** ** The normalizer *)

Module Normalizer.

Import Latin1 Regex.
Local Open Scope string_scope.

(** The placeholder the scrapers write when a page shows no date. *)
Definition date_not_found : string :=
  "Data n" ++ String a_tilde "o encontrada".

(** The value [fillna] writes. *)
Definition not_informed : string :=
  "N" ++ String a_tilde "o informado".

(** [(\d{1,2})[/\-\.](\d{1,2})[/\-\.](\d{2,4})] *)
Definition numeric_date : regex :=
  (Grp (Rep is_digit 1 (Some 2)) >> Cls is_sep >>
   Grp (Rep is_digit 1 (Some 2)) >> Cls is_sep >>
   Grp (Rep is_digit 2 (Some 4)))%re.

(** [(\d+) de (\w+) de (\d{4})] *)
Definition long_date : regex :=
  (Grp (Rep is_digit 1 None) >> Str " de " >>
   Grp (Rep is_word 1 None) >> Str " de " >>
   Grp (Rep is_digit 4 (Some 4)))%re.

Definition month_map : list (string * string) :=
  [ ("janeiro", "01"); ("fevereiro", "02");
    ("mar" ++ String c_cedilla "o", "03"); ("abril", "04");
    ("maio", "05"); ("junho", "06"); ("julho", "07"); ("agosto", "08");
    ("setembro", "09"); ("outubro", "10"); ("novembro", "11");
    ("dezembro", "12") ].

(** [dict.get(key, default)] *)
Fixpoint dict_get (m : list (string * string)) (key default : string) : string :=
  match m with
  | [] => default
  | (k, v) :: m' => if String.eqb k key then v else dict_get m' key default
  end.

(** [standardize_date], the local function of
    [clean_and_structure_data].  Its argument is a [str]; [None] is
    Python's [None]. *)
Definition standardize_date (date_str : string) : option string :=
  if String.eqb date_str "" || String.eqb date_str date_not_found then None
  else
    match search numeric_date date_str with
    | Some [day; month; year] =>
        let year := if Nat.eqb (String.length year) 2 then "20" ++ year else year in
        Some (zfill 2 day ++ "/" ++ zfill 2 month ++ "/" ++ year)
    | Some _ => Some date_str
    | None =>
        match findall_first long_date date_str with
        | Some [day; month_name; year] =>
            let month := dict_get month_map (lower month_name) "01" in
            Some (zfill 2 day ++ "/" ++ month ++ "/" ++ year)
        | _ => Some date_str
        end
    end.

(** One row of the DataFrame.  The columns [url], [title], [date],
    [buyer], [acquired], [value] and [multiple] come from the scrapers
    (the last four are [None] when the text shows no match), [source]
    from the orchestrator, and [date_standardized] and
    [extraction_date] from the normalizer; a column that is not there
    yet reads [None], as a missing value does. *)
Record Row : Type := mkRow {
  url : string;
  title : string;
  date : string;
  buyer : option string;
  acquired : option string;
  value : option string;
  multiple : option string;
  source : option string;
  date_standardized : option string;
  extraction_date : option string
}.

Definition DataFrame : Type := list Row.

(** The [transaction_data] dictionary a scraper starts from: the
    three texts of the page, and nothing found yet. *)
Definition scraped (url title date : string) : Row :=
  mkRow url title date None None None None None None None.

(** [df.empty] *)
Definition empty (df : DataFrame) : bool :=
  match df with [] => true | _ :: _ => false end.

Definition has_url (u : string) (r : Row) : bool := String.eqb (url r) u.

(** [drop_duplicates(subset=['url'])] with the default [keep='first']:
    a row is dropped when its url was seen on an earlier row. *)
Fixpoint drop_from (seen : list string) (df : DataFrame) : DataFrame :=
  match df with
  | [] => []
  | r :: rest =>
      if existsb (String.eqb (url r)) seen then drop_from seen rest
      else r :: drop_from (url r :: seen) rest
  end.

Definition drop_duplicates (df : DataFrame) : DataFrame := drop_from [] df.

(** [clean_df['date_standardized'] = clean_df['date'].apply(standardize_date)] *)
Definition set_date_standardized (r : Row) : Row :=
  mkRow (url r) (title r) (date r) (buyer r) (acquired r) (value r)
        (multiple r) (source r) (standardize_date (date r)) (extraction_date r).

Definition fill (x : option string) : option string :=
  match x with Some v => Some v | None => Some not_informed end.

(** [fillna] on the four optional columns. *)
Definition fillna (r : Row) : Row :=
  mkRow (url r) (title r) (date r) (fill (buyer r)) (fill (acquired r))
        (fill (value r)) (fill (multiple r)) (source r)
        (date_standardized r) (extraction_date r).

(** [clean_df['extraction_date'] = datetime.now().strftime(...)]: one
    clock reading [now] for the whole frame. *)
Definition set_extraction_date (now : string) (r : Row) : Row :=
  mkRow (url r) (title r) (date r) (buyer r) (acquired r) (value r)
        (multiple r) (source r) (date_standardized r) (Some now).

Definition notna (r : Row) : bool :=
  match date_standardized r with Some _ => true | None => false end.

Definition isna (r : Row) : bool := negb (notna r).

(** The sort key of a row whose [date_standardized] is not missing. *)
Definition key (r : Row) : string :=
  match date_standardized r with Some d => d | None => "" end.

(** [a] may stay in front of [b] in descending order: the key of [b]
    is at most the key of [a] as Python compares [str], code point by
    code point. *)
Definition ge_key (a b : Row) : bool := String.leb (key b) (key a).

Fixpoint insert_desc (r : Row) (l : DataFrame) : DataFrame :=
  match l with
  | [] => [r]
  | h :: t => if ge_key r h then r :: l else h :: insert_desc r t
  end.

(** Descending sort of the rows that have a key; rows with equal keys
    keep their order. *)
Definition sort_desc (l : DataFrame) : DataFrame := fold_right insert_desc [] l.

(** [insert_at n r l]: [r] put before the element number [n] of [l],
    at the end when [l] is shorter. *)
Fixpoint insert_at (n : nat) (r : Row) (l : DataFrame) {struct l} : DataFrame :=
  match l with
  | [] => [r]
  | h :: t =>
      match n with
      | O => r :: l
      | S n' => h :: insert_at n' r t
      end
  end.

(** The rows of [l] rearranged as [code] says: the first row goes to
    the place [hd 0 code] among the others, rearranged by the rest of
    the code.  Every code gives a rearrangement and every
    rearrangement has a code; the empty code leaves [l] as it is. *)
Fixpoint rearrange (code : list nat) (l : DataFrame) : DataFrame :=
  match l with
  | [] => []
  | r :: rest => insert_at (hd 0 code) r (rearrange (tl code) rest)
  end.

(** How the sorting algorithm arranges rows whose keys are equal, as
    a function of the column of keys it is given. *)
Definition tie_break : Type := list string -> list nat.


(** A tie break that is not stable: the rows are taken in reverse, so
    rows with equal keys come out in the reverse of their order. *)
Definition reversing : tie_break :=
  fun keys => repeat (List.length keys) (List.length keys).

(** [sort_values(by='date_standardized', ascending=False)] with the
    defaults [kind='quicksort'] and [na_position='last']: pandas
    orders the rows that have a key and appends the rows whose key is
    missing in their original order.  Quicksort is not stable: the
    keyed rows come out in descending order of their keys, and rows
    with equal keys in an order that is the algorithm's business, the
    input [ties] here.  The keyed rows are rearranged as [ties] says
    and then put in descending order with equal keys left as they
    stand, so that every descending arrangement can come out, and only
    these. *)
Definition sort_values (ties : tie_break) (df : DataFrame) : DataFrame :=
  let keyed := filter notna df in
  (sort_desc (rearrange (ties (map key keyed)) keyed) ++ filter isna df)%list.

(** [clean_and_structure_data].  [now] is the reading of the clock
    when the extraction date is written.  The rows carry every column
    the body touches, so the [except] branch, which returns [df] as it
    came, is not reached. *)
Definition clean_and_structure_data (ties : tie_break) (now : string)
           (df : DataFrame) : DataFrame :=
  if empty df then df
  else
    let clean_df := drop_duplicates df in
    let clean_df := map set_date_standardized clean_df in
    let clean_df := map fillna clean_df in
    let clean_df := sort_values ties clean_df in
    map (set_extraction_date now) clean_df.

(** The rows are in descending order of their keys. *)
Fixpoint descending (l : DataFrame) : bool :=
  match l with
  | a :: ((b :: _) as t) => ge_key a b && descending t
  | _ => true
  end.

(** The per-row part of [clean_and_structure_data] before the stamp. *)
Definition tidy (r : Row) : Row := fillna (set_date_standardized r).

(** A row with its [extraction_date] left out. *)
Definition without_stamp (r : Row) : Row :=
  mkRow (url r) (title r) (date r) (buyer r) (acquired r) (value r)
        (multiple r) (source r) (date_standardized r) None.

(** *** Reading a [date_standardized] as a calendar date

    Used to state the order of the output in calendar terms:
    ["DD/MM/YYYY"] read as the number [YYYYMMDD]. *)

Definition digit_val (c : ascii) : option N :=
  if is_digit c then Some (N.of_nat (code c - 48)) else None.

Fixpoint number_from (acc : N) (s : string) : option N :=
  match s with
  | EmptyString => Some acc
  | String c s' =>
      match digit_val c with
      | Some d => number_from (10 * acc + d)%N s'
      | None => None
      end
  end.

Definition number (s : string) : option N :=
  match s with EmptyString => None | _ => number_from 0%N s end.

Definition sep_at (i : nat) (d : string) : bool :=
  match String.get i d with Some c => is_sep c | None => false end.

Definition calendar (d : string) : option N :=
  match number (substring 0 2 d), number (substring 3 2 d),
        number (substring 6 4 d) with
  | Some dd, Some mm, Some yyyy =>
      if Nat.eqb (String.length d) 10 && sep_at 2 d && sep_at 5 d
      then Some (yyyy * 10000 + mm * 100 + dd)%N else None
  | _, _, _ => None
  end.

(** The calendar dates of the rows, in row order, skipping the rows
    that have none. *)
Fixpoint calendar_dates (df : DataFrame) : list N :=
  match df with
  | [] => []
  | r :: rest =>
      match date_standardized r with
      | Some d =>
          match calendar d with
          | Some n => n :: calendar_dates rest
          | None => calendar_dates rest
          end
      | None => calendar_dates rest
      end
  end.

Fixpoint non_increasing (l : list N) : bool :=
  match l with
  | a :: ((b :: _) as t) => (b <=? a)%N && non_increasing t
  | _ => true
  end.

(** *** What a user of the output relies on *)

(** The four optional columns all hold a value. *)
Definition complete (r : Row) : bool :=
  match buyer r, acquired r, value r, multiple r with
  | Some _, Some _, Some _, Some _ => true
  | _, _, _, _ => false
  end.

(** A text of the shape DD/MM/Y: two digits, two digits and a year of
    three or four digits, with slashes between. *)
Definition day_month_year (t : string) : Prop :=
  exists dd mm yy,
    t = dd ++ "/" ++ mm ++ "/" ++ yy /\
    all is_digit dd = true /\ String.length dd = 2 /\
    all is_digit mm = true /\ String.length mm = 2 /\
    all is_digit yy = true /\ 3 <= String.length yy <= 4.

End Normalizer.

(* ================================================================= *)
(** ** Traces of effects

    A writer monad: a computation yields its result together with the
    effects it performed ([time.sleep], scraping cycles, requests,
    files written), in order. *)

Module Trace.

Definition M (E A : Type) : Type := (list E * A)%type.

Definition ret {E A : Type} (a : A) : M E A := ([], a).

Definition bind {E A B : Type} (m : M E A) (f : A -> M E B) : M E B :=
  let (t1, a) := m in
  let (t2, b) := f a in
  ((t1 ++ t2)%list, b).

Definition emit {E : Type} (e : E) : M E unit := ([e], tt).

Definition when {E : Type} (b : bool) (m : M E unit) : M E unit :=
  if b then m else ret tt.

Definition trace {E A : Type} (m : M E A) : list E := fst m.
Definition result {E A : Type} (m : M E A) : A := snd m.

(** What a call that may raise did. *)
Inductive outcome (A : Type) : Type :=
| Returned (a : A)
| Raised.
Arguments Returned {A} a.
Arguments Raised {A}.

Declare Scope trace_scope.
Delimit Scope trace_scope with trace.
Notation "x <- m ;; k" := (bind m (fun x => k))
  (at level 100, m at next level, right associativity) : trace_scope.
Notation "m ;; k" := (bind m (fun _ => k))
  (at level 100, right associativity) : trace_scope.

End Trace.

(* ================================================================= *)
(** ** The orchestrator *)

Module Orchestrator.

Import Latin1 Normalizer Trace.
Local Open Scope string_scope.

(** [df['source'] = name] *)
Definition set_source (name : string) (r : Row) : Row :=
  mkRow (url r) (title r) (date r) (buyer r) (acquired r) (value r)
        (multiple r) (Some name) (date_standardized r) (extraction_date r).

Definition pipeline_valor_name : string := "Pipeline Valor".
Definition valor_economico_name : string :=
  "Valor Econ" ++ String o_circumflex "mico".
Definition fusoes_aquisicoes_name : string :=
  "Fus" ++ String o_tilde "es e Aquisi" ++ String c_cedilla (String o_tilde "es").

(** One multi-source cycle as the environment decides it: for each
    source, what constructing the scraper and calling [run_scraper]
    did, and whether VALOR_EMAIL and VALOR_PASSWORD are both set. *)
Record cycle : Type := mkCycle {
  pipeline_scraper : outcome DataFrame;
  valor_scraper : outcome DataFrame;
  fusoes_scraper : outcome DataFrame;
  valor_credentials : bool
}.

(** The body shared by the three [run_<source>] methods: the frame is
    tagged when it is not empty, and an exception yields an empty
    frame. *)
Definition tagged (name : string) (o : outcome DataFrame) : DataFrame :=
  match o with
  | Returned df => if negb (empty df) then map (set_source name) df else df
  | Raised => []
  end.

Definition run_pipeline_valor (c : cycle) : DataFrame :=
  tagged pipeline_valor_name (pipeline_scraper c).

Definition run_valor_economico (c : cycle) : DataFrame :=
  if negb (valor_credentials c) then []
  else tagged valor_economico_name (valor_scraper c).

Definition run_fusoes_aquisicoes (c : cycle) : DataFrame :=
  tagged fusoes_aquisicoes_name (fusoes_scraper c).

(** [pd.concat(dfs, ignore_index=True)] when [dfs] is not empty, else
    [pd.DataFrame()]. *)
Definition combine (dfs : list DataFrame) : DataFrame :=
  match dfs with
  | [] => []
  | _ :: _ => List.concat dfs
  end.

Definition non_empty (df : DataFrame) : bool := negb (empty df).

Definition run_all_sequential (c : cycle) : DataFrame :=
  let df_pipeline := run_pipeline_valor c in
  let df_valor := run_valor_economico c in
  let df_fusoes := run_fusoes_aquisicoes c in
  let dfs := filter non_empty [df_pipeline; df_valor; df_fusoes] in
  combine dfs.

(** The three futures of [run_all_parallel]. *)
Inductive worker : Type := future_pipeline | future_valor | future_fusoes.

(** The wrappers [run_pipeline], [run_valor] and [run_fusoes]: each
    returns what the method returns (the methods do not raise, so the
    wrappers' own [except] is not reached). *)
Definition future_result (c : cycle) (w : worker) : DataFrame :=
  match w with
  | future_pipeline => run_pipeline_valor c
  | future_valor => run_valor_economico c
  | future_fusoes => run_fusoes_aquisicoes c
  end.

Definition all_futures : list worker :=
  [future_pipeline; future_valor; future_fusoes].

(** [run_all_parallel].  [as_completed] is the order in which
    [concurrent.futures.as_completed] yields the three futures; the
    non-empty results are appended in that order. *)
Definition run_all_parallel (as_completed : list worker) (c : cycle) : DataFrame :=
  let results := filter non_empty (map (future_result c) as_completed) in
  combine results.

(** *** [save_to_excel] and [run_extraction] *)

Inductive event : Type :=
| Cycle (attempt : nat)                    (* one run of all the sources *)
| Sleep (secs : nat)                       (* time.sleep *)
| Excel (path : string) (df : DataFrame).  (* a spreadsheet written *)

(** The environment of one [run_extraction]: per attempt, the cycle,
    the completion order of the futures, whether the multi-source run
    raises instead of returning, the two formatted clock readings and
    whether [to_excel] succeeds; and how the sort of the normalizer
    arranges equal keys. *)
Record env : Type := mkEnv {
  cycles : nat -> cycle;
  completion : nat -> list worker;
  run_raises : nat -> bool;
  clock : nat -> string;
  file_clock : nat -> string;
  to_excel_ok : nat -> bool;
  ties : tie_break
}.

Fixpoint ends_with_rev (suffix_rev s_rev : list ascii) : bool :=
  match suffix_rev, s_rev with
  | [], _ => true
  | a :: x, b :: y => Ascii.eqb a b && ends_with_rev x y
  | _ :: _, [] => false
  end.

(** [str.endswith] *)
Definition endswith (s suffix : string) : bool :=
  ends_with_rev (rev (list_ascii_of_string suffix)) (rev (list_ascii_of_string s)).

(** [os.path.join(a, b)] where [os.path] is [posixpath], as on Linux
    and macOS: a second part that starts with the separator stands
    alone, and no separator is added after an empty first part or one
    that ends with it.  ([ntpath], which Windows uses, joins with a
    backslash and knows drives; it is not what is modelled here.) *)
Definition join (a b : string) : string :=
  if String.prefix "/" b then b
  else if String.eqb a "" || endswith a "/" then a ++ b
  else a ++ "/" ++ b.

(** [save_to_excel(df, filename)]: [ts] is the clock reading used
    when no file name is given, [ok] whether [to_excel] succeeds. *)
Definition save_to_excel (output_dir ts : string) (ok : bool)
           (df : DataFrame) (filename : string) : M event (option string) :=
  if empty df then ret None
  else
    let filename := if String.eqb filename "" then "ma_noticias_" ++ ts ++ ".xlsx" else filename in
    let filename := if negb (endswith filename ".xlsx") then filename ++ ".xlsx" else filename in
    let file_path := join output_dir filename in
    if ok then (emit (Excel file_path df) ;; ret (Some file_path))%trace
    else ret None.

Section RunExtraction.

Variable output_dir : string.
Variable parallel : bool.
Variable max_retries : nat.
Variable e : env.

Definition run_all (attempt : nat) : outcome DataFrame :=
  if run_raises e attempt then Raised
  else Returned (if parallel then run_all_parallel (completion e attempt) (cycles e attempt)
                 else run_all_sequential (cycles e attempt)).

(** The [for attempt in range(max_retries)] loop, [remaining]
    iterations from [attempt] on; falling out of the loop returns
    [None]. *)
Fixpoint attempts (remaining attempt : nat) : M event (option string) :=
  match remaining with
  | O => ret None
  | S remaining' =>
      (emit (Cycle attempt) ;;
       match run_all attempt with
       | Returned df =>
           if empty df && (attempt <? max_retries - 1)%nat then
             emit (Sleep 10) ;;
             attempts remaining' (S attempt)
           else
             let clean_df := clean_and_structure_data (ties e) (clock e attempt) df in
             let timestamp := file_clock e attempt in
             save_to_excel output_dir timestamp (to_excel_ok e attempt) clean_df
                           ("ma_noticias_" ++ timestamp ++ ".xlsx")
       | Raised =>
           when (attempt <? max_retries - 1)%nat
                (emit (Sleep (30 * (attempt + 1)))) ;;
           attempts remaining' (S attempt)
       end)%trace
  end.

Definition run_extraction : M event (option string) := attempts max_retries 0.

End RunExtraction.

(** The path [run_extraction] hands to [to_excel] in attempt [a]. *)
Definition file_path (output_dir : string) (e : env) (a : nat) : string :=
  join output_dir ("ma_noticias_" ++ file_clock e a ++ ".xlsx").

Fixpoint sleeps (t : list event) : list nat :=
  match t with
  | [] => []
  | Sleep n :: t' => n :: sleeps t'
  | _ :: t' => sleeps t'
  end.

Fixpoint cycles_run (t : list event) : nat :=
  match t with
  | [] => 0
  | Cycle _ :: t' => S (cycles_run t')
  | _ :: t' => cycles_run t'
  end.

Fixpoint written (t : list event) : list DataFrame :=
  match t with
  | [] => []
  | Excel _ df :: t' => df :: written t'
  | _ :: t' => written t'
  end.


(** *** A scenario: two empty cycles, then five rows

    In the first two cycles no source finds anything; from the third
    on the first source returns five rows with different urls.  The
    five rows show the same date, so their order in the output is up
    to the tie break of the sort. *)

Definition five_rows : DataFrame :=
  map (fun u => scraped u "Title" "02/01/2024")
      ["https://x/1"; "https://x/2"; "https://x/3"; "https://x/4"; "https://x/5"].

Definition two_empty_then_five (ties : tie_break) : env :=
  mkEnv (fun k => mkCycle (if (k <? 2)%nat then Returned [] else Returned five_rows)
                          (Returned []) (Returned []) true)
        (fun _ => all_futures)
        (fun _ => false)
        (fun _ => "2024-03-01 12:00:00")
        (fun _ => "20240301_120000")
        (fun _ => true)
        ties.

(** *** Provenance *)

Definition source_names : list string :=
  [pipeline_valor_name; valor_economico_name; fusoes_aquisicoes_name].

(** The row names one of the three sources. *)
Definition has_source (r : Row) : bool :=
  match source r with
  | Some name => existsb (String.eqb name) source_names
  | None => false
  end.

End Orchestrator.

(* ================================================================= *)
(** ** The per-request retry loop *)

Module Retry.

Import Trace.
Local Open Scope nat_scope.

(** [requests.Response], as far as the loop and its callers read it. *)
Record response : Type := mkResponse {
  status_code : nat;
  text : string
}.

(** What [session.get(url, params=params, timeout=10)] did: it
    returned a response, or raised a [RequestException] (a timeout, a
    refused or reset connection, ...). *)
Inductive reply : Type :=
| Got (r : response)
| RequestException.

(** A Python number: an [int], which has no bound, or a [float], which
    is an IEEE 754 double. *)
Inductive number : Type :=
| Int (n : Z)
| Float (x : float).

Inductive event : Type :=
| RotateUserAgent
| Pause (secs : float)    (* time.sleep(random.uniform(1.0, 3.0)) *)
| Get (attempt : nat)     (* session.get *)
| Wait (secs : number).   (* time.sleep(wait_time) *)

(** The network as one call sees it: the reply to the request of each
    attempt and the draw of [random.uniform(1.0, 3.0)] before it. *)
Record network : Type := mkNetwork {
  replies : nat -> reply;
  uniform_1_3 : nat -> float
}.

(** [v * 2]: of integers for an [int], of doubles for a [float]. *)
Definition twice (v : number) : number :=
  match v with
  | Int n => Int (n * 2)
  | Float x => Float (x * 2)
  end.

(** Whether [time.sleep(secs)] sleeps.  It raises [ValueError] for a
    negative length and for a NaN, and [OverflowError] for a length
    whose nanoseconds do not fit a signed 64-bit integer; the
    comparisons of doubles are false on a NaN. *)
Definition sleep_accepts (secs : number) : bool :=
  match secs with
  | Int n => (0 <=? n)%Z && (n <=? 9223372036)%Z
  | Float x => (0 <=? x)%float && (x * 1e9 <? 9223372036854775808)%float
  end.

Section MakeRequest.

(** [pow x k] is what [x ** k] evaluates to for a [float] [x] and an
    exponent [k] other than 0: the double that the [pow] of the C
    library returns, or [None] when Python raises [OverflowError]. *)
Variable pow : float -> nat -> option float.

Variable net : network.
Variable max_retries : nat.
Variable backoff_factor : number.

(** [backoff_factor ** attempt]: exact on an [int]; on a [float],
    [1.0] for the exponent 0 and the [pow] of the C library
    otherwise. *)
Definition power (attempt : nat) : option number :=
  match backoff_factor with
  | Int n => Some (Int (n ^ Z.of_nat attempt))
  | Float x =>
      match attempt with
      | O => Some (Float 1)
      | S _ => option_map Float (pow x attempt)
      end
  end.

(** [backoff_factor ** attempt * 2], when it evaluates. *)
Definition wait_time (attempt : nat) : option number :=
  option_map twice (power attempt).

(** [wait_time = backoff_factor ** attempt * 2] followed by
    [time.sleep(wait_time)], and then [rest].  An exception of the
    power or of the sleep is none that the [except] clause names, and
    in the handler none is caught: it leaves [_make_request]. *)
Definition back_off (attempt : nat) (rest : M event (outcome (option response)))
  : M event (outcome (option response)) :=
  match wait_time attempt with
  | Some secs =>
      if sleep_accepts secs then (emit (Wait secs) ;; rest)%trace
      else ret Raised
  | None => ret Raised
  end.

(** The [for attempt in range(max_retries)] loop, [remaining]
    iterations from [attempt] on; falling out of the loop returns
    [None]. *)
Fixpoint attempts (remaining attempt : nat) : M event (outcome (option response)) :=
  match remaining with
  | O => ret (Returned None)
  | S remaining' =>
      (when (0 <? attempt) (emit RotateUserAgent) ;;
       emit (Pause (uniform_1_3 net attempt)) ;;
       emit (Get attempt) ;;
       match replies net attempt with
       | Got r =>
           if status_code r =? 403 then
             back_off attempt (attempts remaining' (S attempt))
           else if negb (status_code r =? 200) then
             back_off attempt (attempts remaining' (S attempt))
           else ret (Returned (Some r))
       | RequestException =>
           if attempt <? max_retries - 1 then
             back_off attempt (attempts remaining' (S attempt))
           else attempts remaining' (S attempt)
       end)%trace
  end.

Definition _make_request : M event (outcome (option response)) :=
  attempts max_retries 0.

End MakeRequest.

(** Whether the loop sleeps after the failed attempt [a]: always
    after a response, and after an exception when an attempt is
    left. *)
Definition backs_off (net : network) (max_retries a : nat) : bool :=
  match replies net a with
  | Got _ => true
  | RequestException => a <? max_retries - 1
  end.

(** The wait of the attempt [a] is one that evaluates and that
    [time.sleep] takes. *)
Definition accepted (pow : float -> nat -> option float)
           (backoff_factor : number) (a : nat) : bool :=
  match wait_time pow backoff_factor a with
  | Some secs => sleep_accepts secs
  | None => false
  end.

(** In the first [n] attempts every wait the loop asks for is taken. *)
Definition waits_taken (pow : float -> nat -> option float) (net : network)
           (max_retries : nat) (backoff_factor : number) (n : nat) : Prop :=
  forall k, k < n -> backs_off net max_retries k = true ->
            accepted pow backoff_factor k = true.

(** What every attempt starts with: a new user agent from the second
    attempt on, the pause, the request. *)
Definition request_events (net : network) (a : nat) : list event :=
  (if 0 <? a then [RotateUserAgent] else []) ++
  [Pause (uniform_1_3 net a); Get a].

Definition waited (pow : float -> nat -> option float)
           (backoff_factor : number) (a : nat) : list event :=
  match wait_time pow backoff_factor a with
  | Some secs => [Wait secs]
  | None => []
  end.

(** The events of the attempt [a] when it fails and the loop goes on. *)
Definition failed_attempt (pow : float -> nat -> option float) (net : network)
           (max_retries : nat) (backoff_factor : number) (a : nat) : list event :=
  request_events net a ++
  (if backs_off net max_retries a then waited pow backoff_factor a else []).

(** The defaults of the signature: [max_retries=3, backoff_factor=1.5]. *)
Definition default_max_retries : nat := 3.
Definition default_backoff_factor : number := Float 1.5.

Fixpoint waits (t : list event) : list number :=
  match t with
  | [] => []
  | Wait q :: t' => q :: waits t'
  | _ :: t' => waits t'
  end.

Fixpoint pauses (t : list event) : list float :=
  match t with
  | [] => []
  | Pause q :: t' => q :: pauses t'
  | _ :: t' => pauses t'
  end.

Fixpoint requests_sent (t : list event) : nat :=
  match t with
  | [] => 0
  | Get _ :: t' => S (requests_sent t')
  | _ :: t' => requests_sent t'
  end.

(** A reply after which the loop does not return: an exception, or a
    response whose status is not 200. *)
Definition failed (r : reply) : bool :=
  match r with
  | Got r => negb (status_code r =? 200)
  | RequestException => true
  end.

(** *** Examples

    A [pow] for the examples: the product of [k] factors [x], which is
    the power itself wherever it is a double that the products reach
    without rounding, as for the factors 1.5 and 2 at small
    exponents.  Then a network where every request times out, and one
    that answers 404 to the first request and 200 to the next ones;
    the draw before each request is one second. *)

Fixpoint product (x : float) (k : nat) : float :=
  match k with
  | O => 1%float
  | S k' => (x * product x k')%float
  end.

Definition products (x : float) (k : nat) : option float := Some (product x k).

Definition always_timeout : network :=
  mkNetwork (fun _ => RequestException) (fun _ => 1%float).

Definition not_found_then_ok : network :=
  mkNetwork (fun k => if k =? 0 then Got (mkResponse 404 "")
                      else Got (mkResponse 200 "<html>"))
            (fun _ => 1%float).

Fixpoint rotations (t : list event) : nat :=
  match t with
  | [] => 0
  | RotateUserAgent :: t' => S (rotations t')
  | _ :: t' => rotations t'
  end.

(** The response of a reply, if it is one. *)
Definition response_of (r : reply) : option response :=
  match r with
  | Got r => Some r
  | RequestException => None
  end.

End Retry.

(* ================================================================= *)
(** ** The two backends of [ValorEconomicoScraper]

    The state keeps what decides the backend: [driver] (whether
    [self.driver] is a driver rather than [None]), [session] (whether
    [_init_requests_session] has run, which also defines
    [self.user_agents]) and the two constructor inputs.  What the pages
    answer is given by an oracle per call; the log records every
    backend initialisation and every page fetched, with its backend. *)

Module Valor.

Local Open Scope nat_scope.

Inductive backend : Type := Selenium | Requests.

Inductive event : Type :=
| InitRequestsSession
| InitSelenium
| Fetch (b : backend)
| QuitDriver.

Record scraper : Type := mkScraper {
  credentials : bool;
  use_requests_fallback : bool;
  session : bool;
  driver : bool;
  log : list event
}.

Definition M (A : Type) : Type := scraper -> A * scraper.

Definition ret {A : Type} (a : A) : M A := fun s => (a, s).

Definition bind {A B : Type} (m : M A) (f : A -> M B) : M B :=
  fun s => let (a, s') := m s in f a s'.

Declare Scope valor_scope.
Delimit Scope valor_scope with valor.
Notation "x <- m ;; k" := (bind m (fun x => k))
  (at level 100, m at next level, right associativity) : valor_scope.
Notation "m ;; k" := (bind m (fun _ => k))
  (at level 100, right associativity) : valor_scope.
Local Open Scope valor_scope.

Definition emit (e : event) : M unit :=
  fun s => (tt, mkScraper (credentials s) (use_requests_fallback s)
                          (session s) (driver s) (log s ++ [e])).

Definition set_session (b : bool) : M unit :=
  fun s => (tt, mkScraper (credentials s) (use_requests_fallback s)
                          b (driver s) (log s)).

Definition set_driver (b : bool) : M unit :=
  fun s => (tt, mkScraper (credentials s) (use_requests_fallback s)
                          (session s) b (log s)).

Definition read {A : Type} (f : scraper -> A) : M A := fun s => (f s, s).

Fixpoint repeat_m (n : nat) (m : M unit) : M unit :=
  match n with
  | O => ret tt
  | S n' => m ;; repeat_m n' m
  end.

Definition _init_requests_session : M unit :=
  emit InitRequestsSession ;; set_session true.

(** [_init_selenium]: [true] when the driver is up, [false] when the
    method raised.  It reads [self.user_agents], which only
    [_init_requests_session] defines; [starts] tells whether Chrome
    and its driver then start. *)
Definition _init_selenium (starts : bool) : M bool :=
  emit InitSelenium ;;
  has_agents <- read session ;;
  if has_agents && starts then set_driver true ;; ret true
  else ret false.

(** [__init__] from the state before it. *)
Definition blank (creds fallback : bool) : scraper :=
  mkScraper creds fallback false false [].

Definition __init__ (starts : bool) : M unit :=
  fallback <- read use_requests_fallback ;;
  (if fallback then _init_requests_session else ret tt) ;;
  ok <- _init_selenium starts ;;
  if ok then ret tt else set_driver false.

Definition new (creds fallback starts : bool) : scraper :=
  snd (__init__ starts (blank creds fallback)).

(** [_make_request], seen from the scraper: the session is created on
    first use, a page is fetched with requests, and [ok] tells whether
    a response came back (it then has status 200). *)
Definition _make_request (ok : bool) : M bool :=
  has_session <- read session ;;
  (if negb has_session then _init_requests_session else ret tt) ;;
  emit (Fetch Requests) ;;
  ret ok.

(** What the site answers during one login. *)
Record login_oracle : Type := mkLogin {
  selenium_raises : bool;   (* the Selenium login flow raises *)
  selenium_logged : bool;   (* the browser lands on the account page *)
  page_ok : bool;           (* the login page is served *)
  form_found : bool;
  post_raises : bool;
  post_ok : bool;           (* the POST answers 200 *)
  redirected : bool;        (* ... and lands on the account page *)
  account_ok : bool         (* the protected page is served *)
}.

Definition _login_with_requests (o : login_oracle) : M bool :=
  got <- _make_request (page_ok o) ;;
  if negb got then ret false
  else if negb (form_found o) then ret false
  else
    emit (Fetch Requests) ;;
    if post_raises o then ret false
    else if post_ok o then
      if redirected o then ret true
      else
        test <- _make_request (account_ok o) ;;
        ret test
    else ret false.

Definition login (o : login_oracle) : M bool :=
  creds <- read credentials ;;
  if negb creds then ret false
  else
    has_driver <- read driver ;;
    if negb has_driver then _login_with_requests o
    else
      emit (Fetch Selenium) ;;
      if selenium_raises o then
        fallback <- read use_requests_fallback ;;
        if fallback then _login_with_requests o else ret false
      else ret (selenium_logged o).

(** What the site answers during one search. *)
Record search_oracle : Type := mkSearch {
  search_login : login_oracle;
  selenium_search_raises : bool;
  selenium_pages : nat;              (* result pages the browser loads *)
  selenium_urls : list string;
  requests_pages : list bool;        (* per page asked: a response came back *)
  requests_urls : list string
}.

Definition _search_news_selenium (o : search_oracle) : M (option (list string)) :=
  repeat_m (selenium_pages o) (emit (Fetch Selenium)) ;;
  if selenium_search_raises o then ret None
  else ret (Some (selenium_urls o)).

Fixpoint request_pages (pages : list bool) : M unit :=
  match pages with
  | [] => ret tt
  | ok :: rest =>
      got <- _make_request ok ;;
      if negb got then ret tt else request_pages rest
  end.

Definition _search_news_requests (o : search_oracle) : M (list string) :=
  request_pages (requests_pages o) ;;
  ret (requests_urls o).

Definition search_news (o : search_oracle) : M (list string) :=
  logged <- login (search_login o) ;;
  if negb logged then ret []
  else
    has_driver <- read driver ;;
    if has_driver then
      found <- _search_news_selenium o ;;
      match found with
      | Some urls => ret urls
      | None =>
          fallback <- read use_requests_fallback ;;
          if negb fallback then ret []
          else _search_news_requests o
      end
    else _search_news_requests o.

(** What the site answers during one detail fetch. *)
Record extract_oracle : Type := mkExtract {
  selenium_extract_raises : bool;   (* raises out of the Selenium extraction *)
  selenium_page_fails : bool;       (* driver.get raises inside it *)
  paywall : bool;
  relogin : login_oracle;
  first_ok : bool;                  (* the article is served *)
  second_ok : bool                  (* ... and again after the new login *)
}.

(** [Some true]: a record; [Some false]: [None] was returned; [None]:
    an exception left the method. *)
Definition _extract_news_data_selenium (o : extract_oracle) : M (option bool) :=
  emit (Fetch Selenium) ;;
  if selenium_extract_raises o then ret None
  else if selenium_page_fails o then ret (Some false)
  else if paywall o then
    logged <- login (relogin o) ;;
    if negb logged then ret (Some false)
    else emit (Fetch Selenium) ;; ret (Some true)
  else ret (Some true).

Definition _extract_news_data_requests (o : extract_oracle) : M bool :=
  got <- _make_request (first_ok o) ;;
  if negb got then ret false
  else if paywall o then
    logged <- _login_with_requests (relogin o) ;;
    if negb logged then ret false
    else
      again <- _make_request (second_ok o) ;;
      ret again
  else ret true.

(** [extract_news_data]: [true] when a record is returned. *)
Definition extract_news_data (o : extract_oracle) : M bool :=
  has_driver <- read driver ;;
  if has_driver then
    data <- _extract_news_data_selenium o ;;
    match data with
    | Some d => ret d
    | None =>
        fallback <- read use_requests_fallback ;;
        if negb fallback then ret false
        else _extract_news_data_requests o
    end
  else _extract_news_data_requests o.

Definition close : M unit :=
  has_driver <- read driver ;;
  if has_driver then emit QuitDriver else ret tt.

Fixpoint extract_each (details : nat -> extract_oracle) (i : nat)
         (urls : list string) : M nat :=
  match urls with
  | [] => ret 0
  | _ :: urls' =>
      got <- extract_news_data (details i) ;;
      n <- extract_each details (S i) urls' ;;
      ret (if got then S n else n)
  end.

(** [run_scraper]: one search, one detail fetch per url found
    ([details i] is what the site answers for the url number [i]),
    and [close] at the end, whatever happened.  The result is the
    number of rows of the frame. *)
Definition run_scraper (o : search_oracle) (details : nat -> extract_oracle) : M nat :=
  urls <- search_news o ;;
  n <- extract_each details 0 urls ;;
  close ;;
  ret n.

(** The calls a user of the scraper can make after construction. *)
Inductive call : Type :=
| Login (o : login_oracle)
| SearchNews (o : search_oracle)
| ExtractNewsData (o : extract_oracle)
| RunScraper (o : search_oracle) (details : nat -> extract_oracle)
| Close.

Definition perform (c : call) : M unit :=
  match c with
  | Login o => login o ;; ret tt
  | SearchNews o => search_news o ;; ret tt
  | ExtractNewsData o => extract_news_data o ;; ret tt
  | RunScraper o details => run_scraper o details ;; ret tt
  | Close => close
  end.

Fixpoint perform_all (cs : list call) : M unit :=
  match cs with
  | [] => ret tt
  | c :: rest => perform c ;; perform_all rest
  end.

(** *** Reading the log *)

(** An event of the requests backend. *)
Definition on_requests (e : event) : bool :=
  match e with
  | InitRequestsSession | Fetch Requests => true
  | InitSelenium | Fetch Selenium | QuitDriver => false
  end.

Definition is_init_selenium (e : event) : bool :=
  match e with InitSelenium => true | _ => false end.

Definition is_fetch (e : event) : bool :=
  match e with Fetch _ => true | _ => false end.

Definition fetched_with (b : backend) (e : event) : bool :=
  match e, b with
  | Fetch Selenium, Selenium => true
  | Fetch Requests, Requests => true
  | _, _ => false
  end.

(** How many times [_init_selenium] was entered. *)
Definition selenium_inits (l : list event) : nat :=
  List.length (filter is_init_selenium l).

(** Every page fetched was fetched with the backend [b]. *)
Definition fetches_all_with (b : backend) (l : list event) : bool :=
  forallb (fetched_with b) (filter is_fetch l).

(** From [s] to [s'] the driver is off and only the requests backend
    was touched. *)
Definition off_after (s s' : scraper) : Prop :=
  driver s' = false /\
  exists evs, log s' = (log s ++ evs)%list /\ forallb on_requests evs = true.

(** A computation that, started without a driver, ends without one
    and touches only the requests backend. *)
Definition stays_off {A : Type} (m : M A) : Prop :=
  forall s, driver s = false -> off_after s (snd (m s)).

(** How many result pages [request_pages] asks for: one after the
    other, until one does not come back. *)
Fixpoint pages_requested (pages : list bool) : nat :=
  match pages with
  | [] => 0
  | ok :: rest => S (if ok then pages_requested rest else 0)
  end.

(** A search on the requests backend: the login with requests and,
    when it succeeds, the search with requests. *)
Definition search_on_requests (o : search_oracle) : M (list string) :=
  logged <- _login_with_requests (search_login o) ;;
  if negb logged then ret [] else _search_news_requests o.

(** From [s] to [s'] the log has grown by events of the requests
    backend, a page fetched among them. *)
Definition fetched_on_requests (s s' : scraper) : Prop :=
  exists evs, log s' = (log s ++ evs)%list /\
              In (Fetch Requests) evs /\ forallb on_requests evs = true.

(** *** What the calls keep *)

Definition is_init_session (e : event) : bool :=
  match e with InitRequestsSession => true | _ => false end.

(** How many times [_init_requests_session] ran. *)
Definition session_inits (l : list event) : nat :=
  List.length (filter is_init_session l).

(** A computation keeps the property [I] of the scraper. *)
Definition maintains {A : Type} (I : scraper -> Prop) (m : M A) : Prop :=
  forall s, I s -> I (snd (m s)).

(** The log counts one session when there is one, none otherwise. *)
Definition one_session (s : scraper) : Prop :=
  session_inits (log s) = if session s then 1 else 0.

(** The driver and the two constructor inputs are those of [s0]. *)
Definition same_setup (s0 s : scraper) : Prop :=
  driver s = driver s0 /\ credentials s = credentials s0 /\
  use_requests_fallback s = use_requests_fallback s0.

(** The driver is that of [s0] and the log has only grown since [s0]. *)
Definition grown_from (s0 s : scraper) : Prop :=
  driver s = driver s0 /\ exists evs, log s = (log s0 ++ evs)%list.

End Valor.

(* ================================================================= *)
(** ** The searches of the scrapers

    What a page shows is an input: per result item, what its date
    element gives and the absolute url of its link, if it has one.
    Points in time are integers. *)

Module Search.

Import Latin1 Trace.
Local Open Scope string_scope.

(** What the date element of a result item gives. *)
Inductive item_date : Type :=
| NoDateElement           (* [select_one] finds no date element *)
| NoDateText              (* the text of the element shows no date *)
| InvalidDate             (* the date shown is none of the calendar: the constructor raises *)
| PublishedAt (t : Z).

Record item : Type := mkItem {
  published : item_date;
  link : option string
}.

(** What asking for a page of results gives: nothing (the request
    fails, or raises), or the items of the page. *)
Inductive page_reply : Type :=
| NoPage
| Listing (items : list item).

Inductive event : Type :=
| GetPage (page : nat)
| Rest.                    (* time.sleep(2) *)

Section Paged.

Variable date_limit : Z.
Variable site : nat -> page_reply.

(** The loop over the items of one page, from the value [pub_date] has
    when it starts: the urls appended and the value [pub_date] has when
    it ends.  An item without date element is skipped, one whose date
    cannot be read is passed over, and the first item older than the
    limit ends the loop. *)
Fixpoint scan (pub_date : option Z) (items : list item) : list string * option Z :=
  match items with
  | [] => ([], pub_date)
  | it :: rest =>
      match published it with
      | NoDateElement => scan pub_date rest
      | NoDateText => scan pub_date rest
      | InvalidDate => scan pub_date rest
      | PublishedAt t =>
          if (t <? date_limit)%Z then ([], Some t)
          else
            let (urls, last) := scan (Some t) rest in
            (match link it with Some u => u :: urls | None => urls end, last)
      end
  end.

(** [_search_news_requests] of [valor_economico_optimized.py]:
    [pub_date] is reset to [None] on every page, and the test after the
    item loop reads [if pub_date and pub_date < date_limit].
    ([_search_news_selenium] runs the same loop over the pages the
    driver loads, with one more wait after each load.) *)
Fixpoint pages_reset (remaining page : nat) : M event (list string) :=
  match remaining with
  | O => ret []
  | S remaining' =>
      (emit (GetPage page) ;;
       match site page with
       | NoPage => ret []
       | Listing [] => ret []
       | Listing items =>
           let (urls, pub_date) := scan None items in
           match pub_date with
           | Some t =>
               if (t <? date_limit)%Z then ret urls
               else emit Rest ;;
                    more <- pages_reset remaining' (S page) ;;
                    ret (urls ++ more)%list
           | None =>
               emit Rest ;;
               more <- pages_reset remaining' (S page) ;;
               ret (urls ++ more)%list
           end
       end)%trace
  end.

Definition _search_news_requests (max_pages : nat) : M event (list string) :=
  pages_reset max_pages 1.

(** [search_news] of [pipeline_valor.py]: [pub_date] is a local of the
    whole function, assigned by the first item whose date is read, and
    the test after the item loop reads [if pub_date < date_limit].
    While it is unassigned that test raises, and the [except] around
    the page ends the search.  ([search_news] of [valor_economico.py]
    runs the same loop after its login, with one more wait after each
    page load.) *)
Fixpoint pages_carried (pub_date : option Z) (remaining page : nat)
  : M event (list string) :=
  match remaining with
  | O => ret []
  | S remaining' =>
      (emit (GetPage page) ;;
       match site page with
       | NoPage => ret []
       | Listing [] => ret []
       | Listing items =>
           let (urls, pub_date') := scan pub_date items in
           match pub_date' with
           | None => ret urls
           | Some t =>
               if (t <? date_limit)%Z then ret urls
               else emit Rest ;;
                    more <- pages_carried (Some t) remaining' (S page) ;;
                    ret (urls ++ more)%list
           end
       end)%trace
  end.

Definition search_news (max_pages : nat) : M event (list string) :=
  pages_carried None max_pages 1.

End Paged.

(** The url [u] is the link of an item of one of the pages [first] to
    [last - 1] that is dated and not older than the limit. *)
Definition origin (date_limit : Z) (site : nat -> page_reply)
           (first last : nat) (u : string) : Prop :=
  exists page items it t,
    first <= page < last /\ site page = Listing items /\ In it items /\
    published it = PublishedAt t /\ (date_limit <= t)%Z /\ link it = Some u.

Fixpoint pages_asked (t : list event) : list nat :=
  match t with
  | [] => []
  | GetPage n :: t' => n :: pages_asked t'
  | Rest :: t' => pages_asked t'
  end.

(** The urls of the items of a page that are dated, not older than the
    limit, and linked. *)
Fixpoint recent_links (date_limit : Z) (items : list item) : list string :=
  match items with
  | [] => []
  | it :: rest =>
      match published it, link it with
      | PublishedAt t, Some u =>
          if (t <? date_limit)%Z then recent_links date_limit rest
          else u :: recent_links date_limit rest
      | _, _ => recent_links date_limit rest
      end
  end.

(** Every item of the page is dated, and none is older than the limit. *)
Definition all_recent (date_limit : Z) (items : list item) : bool :=
  forallb (fun it => match published it with
                     | PublishedAt t => negb (t <? date_limit)%Z
                     | _ => false
                     end) items.

(** ** [_check_keywords] and [search_news] of
       [fusoes_aquisicoes_optimized.py] *)

(** [str.isspace] on one code point. *)
Definition is_space (c : ascii) : bool :=
  between 9 13 c || between 28 32 c || (code c =? 133)%nat || (code c =? 160)%nat.

(** [str.split()] without argument: the maximal runs of characters
    that are not white space; [cur] is the run being read. *)
Fixpoint split_from (cur s : string) : list string :=
  match s with
  | EmptyString => if String.eqb cur "" then [] else [cur]
  | String c s' =>
      if is_space c then
        if String.eqb cur "" then split_from "" s'
        else cur :: split_from "" s'
      else split_from (cur ++ String c "") s'
  end.

Definition split (s : string) : list string := split_from "" s.

(** [needle in hay] *)
Fixpoint contains (needle hay : string) : bool :=
  String.prefix needle hay ||
  match hay with
  | String _ hay' => contains needle hay'
  | EmptyString => false
  end.

Definition ma_keywords : list string :=
  [ "fus" ++ String a_tilde "o";
    "aquisi" ++ String c_cedilla (String a_tilde "o");
    "fus" ++ String o_tilde "es";
    "aquisi" ++ String c_cedilla (String o_tilde "es");
    "compra"; "adquiriu"; "comprou";
    "transa" ++ String c_cedilla (String a_tilde "o");
    "m&a"; "merger"; "acquisition" ].

Definition _check_keywords (text query : string) : bool :=
  if String.eqb text "" then false
  else
    let text := lower text in
    let keywords := map lower (split query) in
    existsb (fun keyword => contains keyword text) keywords ||
    existsb (fun keyword => contains keyword text) ma_keywords.

(** The default of the parameter [query]. *)
Definition default_query : string :=
  "fus" ++ String a_tilde "o aquisi" ++ String c_cedilla (String a_tilde "o M&A").

(** An article of the home page: its date, and the [href] and the text
    of the link of its title. *)
Record article : Type := mkArticle {
  posted : item_date;
  title_link : option (string * string)
}.

Definition site_name : string := "fusoesaquisicoes.com".

Inductive request : Type := HomePage | GoogleSearch.

Section Fusoes.

Variable query : string.
Variable date_limit : Z.

(** The loop over the articles of the home page: an article older than
    the limit is skipped, and so is one whose url and title show no
    keyword. *)
Fixpoint home_urls (articles : list article) : list string :=
  match articles with
  | [] => []
  | a :: rest =>
      match posted a, title_link a with
      | PublishedAt t, Some (news_url, text) =>
          if (t <? date_limit)%Z then home_urls rest
          else if _check_keywords news_url query || _check_keywords text query
               then news_url :: home_urls rest
               else home_urls rest
      | _, _ => home_urls rest
      end
  end.

(** The loop over the results of Google, from the urls [all] found so
    far: a result may have no link. *)
Fixpoint google_urls (all : list string) (results : list (option string))
  : list string :=
  match results with
  | [] => all
  | None :: rest => google_urls all rest
  | Some u :: rest =>
      if contains site_name u && negb (existsb (String.eqb u) all)
      then google_urls (all ++ [u]) rest
      else google_urls all rest
  end.

(** [search_news]: [home] is the list of articles of the home page when
    the request for it succeeds, [google] the results of the Google
    search when that request succeeds. *)
Definition fusoes_search_news (home : option (list article))
           (google : option (list (option string))) : M request (list string) :=
  (emit HomePage ;;
   let all_news_urls :=
     match home with Some articles => home_urls articles | None => [] end in
   match all_news_urls with
   | [] =>
       emit GoogleSearch ;;
       ret (match google with
            | Some results => google_urls all_news_urls results
            | None => all_news_urls
            end)
   | _ :: _ => ret all_news_urls
   end)%trace.

End Fusoes.

End Search.

(* ================================================================= *)
(** * Properties *)

(** ** Character classes and string helpers *)

Module Latin1Facts.

Import Latin1.
Local Open Scope string_scope.

Ltac by_code c :=
  destruct c as [[|] [|] [|] [|] [|] [|] [|] [|]];
  vm_compute; intros; congruence.

Lemma digit_not_sep : forall c, is_digit c = true -> is_sep c = false.
Proof. intro c. by_code c. Qed.

Lemma word_not_sep : forall c, is_word c = true -> is_sep c = false.
Proof. intro c. by_code c. Qed.

Lemma digit_is_word : forall c, is_digit c = true -> is_word c = true.
Proof. intro c. by_code c. Qed.

Lemma length_app : forall a b : string,
  String.length (a ++ b) = String.length a + String.length b.
Proof. induction a as [|c a IH]; intro b; simpl; [reflexivity | now rewrite IH]. Qed.

Lemma app_assoc : forall a b c : string, (a ++ b) ++ c = a ++ (b ++ c).
Proof. induction a as [|x a IH]; intros; simpl; [reflexivity | now rewrite IH]. Qed.

Lemma app_empty : forall a : string, a ++ "" = a.
Proof. induction a as [|x a IH]; simpl; [reflexivity | now rewrite IH]. Qed.

Lemma all_app : forall p a b, all p (a ++ b) = all p a && all p b.
Proof.
  induction a as [|c a IH]; intro b; simpl; [reflexivity|].
  now rewrite IH, andb_assoc.
Qed.

Lemma none_app : forall p a b, none p (a ++ b) = none p a && none p b.
Proof. intros. apply all_app. Qed.

Lemma all_weaken : forall (p q : ascii -> bool) s,
  (forall c, p c = true -> q c = true) -> all p s = true -> all q s = true.
Proof.
  induction s as [|c s IH]; simpl; intros Hpq H; [reflexivity|].
  apply andb_true_iff in H as [Hc Hs].
  now rewrite (Hpq _ Hc), IH.
Qed.

Lemma digits_no_sep : forall s, all is_digit s = true -> none is_sep s = true.
Proof.
  intros s. apply all_weaken. intros c H.
  now rewrite (digit_not_sep _ H).
Qed.

Lemma words_no_sep : forall s, all is_word s = true -> none is_sep s = true.
Proof.
  intros s. apply all_weaken. intros c H.
  now rewrite (word_not_sep _ H).
Qed.

Lemma prefix_substring : forall d rest : string,
  substring 0 (String.length d) (d ++ rest) = d.
Proof.
  induction d as [|c d IH]; intro rest; simpl.
  - now destruct rest.
  - now rewrite IH.
Qed.

End Latin1Facts.

(** ** The matcher on subjects of a known shape *)

Module RegexFacts.

Import Latin1 Regex Latin1Facts.
Local Open Scope string_scope.

Lemma rejects_here : forall k s, rejects k s -> k s = None.
Proof. intros k s H. destruct s; apply H. Qed.

(** A repetition followed by a rest that matches nowhere fails. *)
Lemma rep_rejected : forall p s lo hi k,
  rejects k s -> rep p lo hi s k = None.
Proof.
  induction s as [|c s IH]; intros lo hi k H; simpl.
  - destruct H as [H _]. rewrite H. now destruct (Nat.eqb lo 0).
  - destruct H as [H Hs]. rewrite H, (IH _ _ _ Hs).
    now destruct (p c && may_take hi), (Nat.eqb lo 0).
Qed.

(** A repetition that must take a character fails on a subject that
    does not start with one of the class. *)
Lemma rep_needs_one : forall p s lo hi k,
  stops p s = true -> 0 < lo -> rep p lo hi s k = None.
Proof.
  intros p s lo hi k Hs Hlo.
  destruct lo as [|lo]; [lia|].
  destruct s as [|c s]; simpl; [reflexivity|].
  simpl in Hs. apply negb_true_iff in Hs. now rewrite Hs.
Qed.

(** Greedy repetition takes the whole run [d] when what follows then
    matches. *)
Lemma rep_takes : forall p d rest lo hi k g,
  all p d = true -> lo <= String.length d -> halts p hi d rest ->
  k rest = Some g ->
  rep p lo hi (d ++ rest) k = Some g.
Proof.
  induction d as [|c d IH]; intros rest lo hi k g Hall Hlo Hhalt Hk.
  - simpl in Hlo. assert (lo = 0) by lia. subst lo.
    destruct rest as [|c r]; simpl; [exact Hk|].
    assert (p c && may_take hi = false) as ->; [|exact Hk].
    destruct hi as [h|]; simpl in Hhalt.
    + destruct Hhalt as [_ [<- | H]].
      * apply andb_false_r.
      * apply negb_true_iff in H. now rewrite H.
    + apply negb_true_iff in Hhalt. now rewrite Hhalt.
  - simpl in Hall. apply andb_true_iff in Hall as [Hc Hd].
    simpl in Hlo. simpl. rewrite Hc.
    assert (may_take hi = true) as ->.
    { destruct hi as [[|h]|]; simpl in *; try reflexivity. lia. }
    simpl. erewrite IH; eauto.
    + lia.
    + destruct hi as [h|]; simpl in *; [|exact Hhalt].
      destruct Hhalt as [H1 H2]. split; [lia|].
      destruct H2 as [H2 | H2]; [left; lia | now right].
Qed.

Lemma consumed_prefix : forall d rest, consumed (d ++ rest) rest = d.
Proof.
  intros. unfold consumed. rewrite length_app.
  replace (String.length d + String.length rest - String.length rest)
    with (String.length d) by lia.
  apply prefix_substring.
Qed.

Lemma matches_cat : forall r1 r2 s k,
  matches (r1 >> r2)%re s k = matches r1 s (fun s' => matches r2 s' k).
Proof. reflexivity. Qed.

Lemma matches_cls : forall p c s k,
  matches (Cls p) (String c s) k = if p c then k s else None.
Proof. reflexivity. Qed.

Lemma matches_group : forall p lo hi s k,
  matches (Grp (Rep p lo hi)) s k =
  rep p lo hi s (fun s' => option_map (cons (consumed s s')) (k s')).
Proof. reflexivity. Qed.

(** A group over a repetition captures the run it takes. *)
Lemma group_takes : forall p lo hi d rest k g,
  all p d = true -> lo <= String.length d -> halts p hi d rest ->
  k rest = Some g ->
  matches (Grp (Rep p lo hi)) (d ++ rest) k = Some (d :: g).
Proof.
  intros. simpl. eapply rep_takes; eauto.
  rewrite consumed_prefix. now rewrite H2.
Qed.

Lemma strip_prefix : forall lit s, strip lit (lit ++ s) = Some s.
Proof.
  induction lit as [|c lit IH]; intro s; simpl; [now destruct s|].
  now rewrite Ascii.eqb_refl.
Qed.

Lemma search_here : forall r s g,
  matches r s (fun _ => Some []) = Some g -> search r s = Some g.
Proof. intros r s g H. destruct s; simpl; now rewrite H. Qed.

Lemma search_rejected : forall r s,
  rejects (fun s' => matches r s' (fun _ => Some [])) s -> search r s = None.
Proof.
  induction s as [|c s IH]; intros [H Hs]; simpl; rewrite H; [reflexivity|].
  now apply IH.
Qed.

End RegexFacts.

(** ** Date standardization *)

Module DateFacts.

Import Latin1 Regex Normalizer Latin1Facts RegexFacts.
Local Open Scope string_scope.

Lemma sep_not_digit : forall c, is_sep c = true -> is_digit c = false.
Proof. intro c. by_code c. Qed.

Lemma digit_not_D : forall c, is_digit c = true -> Ascii.eqb c "D" = false.
Proof. intro c. by_code c. Qed.

(** A string that starts with a digit passes the first test of
    [standardize_date]. *)
Lemma digit_first_not_special : forall d rest,
  all is_digit d = true -> 1 <= String.length d ->
  String.eqb (d ++ rest) "" || String.eqb (d ++ rest) date_not_found = false.
Proof.
  intros d rest Hd Hlen. destruct d as [|c d]; simpl in Hlen; [lia|].
  simpl in Hd. apply andb_true_iff in Hd as [Hc _].
  simpl. now rewrite (digit_not_D _ Hc).
Qed.

(** The numeric pattern matches nowhere in a text without separator. *)
Lemma sep_rejected : forall (F : string -> groups -> groups) R k t,
  none is_sep t = true ->
  rejects (fun s' => option_map (F s') (matches (Cls is_sep >> R)%re s' k)) t.
Proof.
  induction t as [|c t IH]; intro H; simpl.
  - split; reflexivity.
  - simpl in H. apply andb_true_iff in H as [Hc Ht].
    apply negb_true_iff in Hc. rewrite Hc. split; [reflexivity | now apply IH].
Qed.

Lemma numeric_nowhere : forall s,
  none is_sep s = true -> search numeric_date s = None.
Proof.
  intros s H. apply search_rejected.
  induction s as [|c s IH].
  - split; [reflexivity | exact I].
  - split.
    + unfold numeric_date. rewrite matches_cat, matches_group.
      apply rep_rejected.
      exact (sep_rejected (fun s' => cons (consumed (String c s) s')) _ _ _ H).
    + apply IH. simpl in H. now apply andb_true_iff in H as [_ H].
Qed.

(** Both patterns start with a digit: neither matches in a text
    without digits. *)
Lemma no_digit_nowhere : forall hi r s,
  none is_digit s = true ->
  rejects (fun s' => matches (Grp (Rep is_digit 1 hi) >> r)%re s'
                             (fun _ => Some [])) s.
Proof.
  intros hi r s. induction s as [|c s IH]; intro H.
  - split; [reflexivity | exact I].
  - simpl in H. apply andb_true_iff in H as [Hc Hs]. split.
    + rewrite matches_cat, matches_group.
      apply rep_needs_one; [exact Hc | lia].
    + now apply IH.
Qed.

Lemma no_digit_numeric : forall s,
  none is_digit s = true -> search numeric_date s = None.
Proof. intros s H. apply search_rejected. now apply no_digit_nowhere. Qed.


(** The numeric pattern on a text that starts with day, month and
    year. *)
Lemma numeric_groups : forall d m y a b tail,
  all is_digit d = true -> 1 <= String.length d <= 2 ->
  all is_digit m = true -> 1 <= String.length m <= 2 ->
  all is_digit y = true -> 2 <= String.length y <= 4 ->
  is_sep a = true -> is_sep b = true ->
  String.length y = 4 \/ stops is_digit tail = true ->
  search numeric_date (d ++ String a (m ++ String b (y ++ tail))) = Some [d; m; y].
Proof.
  intros d m y a b tail Hd Ld Hm Lm Hy Ly Ha Hb Htail.
  apply search_here. unfold numeric_date.
  pose proof (sep_not_digit _ Ha) as Na. pose proof (sep_not_digit _ Hb) as Nb.
  rewrite matches_cat.
  apply group_takes; try assumption; try lia.
  { split; [lia|]. right. simpl. now rewrite Na. }
  rewrite matches_cat, matches_cls, Ha, matches_cat.
  apply group_takes; try assumption; try lia.
  { split; [lia|]. right. simpl. now rewrite Nb. }
  rewrite matches_cat, matches_cls, Hb.
  apply group_takes; try assumption; try lia.
  - split; [lia|]. destruct Htail; [now left | now right].
  - reflexivity.
Qed.

Lemma matches_str : forall lit s k,
  matches (Str lit) (lit ++ s) k = k s.
Proof. intros. simpl. now rewrite strip_prefix. Qed.

(** The long pattern on a text that starts with day, month word and
    year. *)
Lemma long_groups : forall d w y tail,
  all is_digit d = true -> 1 <= String.length d ->
  all is_word w = true -> 1 <= String.length w ->
  all is_digit y = true -> String.length y = 4 ->
  findall_first long_date (d ++ " de " ++ w ++ " de " ++ y ++ tail)
  = Some [d; w; y].
Proof.
  intros d w y tail Hd Ld Hw Lw Hy Ly.
  apply search_here. unfold long_date.
  rewrite matches_cat.
  apply group_takes; try assumption; try reflexivity.
  rewrite matches_cat, matches_str, matches_cat.
  apply group_takes; try assumption; try reflexivity.
  rewrite matches_cat, matches_str.
  apply group_takes; try assumption; try lia.
  - split; [lia | left; exact Ly].
  - reflexivity.
Qed.

Lemma dict_get_default : forall m key default,
  (forall k v, In (k, v) m -> k <> key) -> dict_get m key default = default.
Proof.
  induction m as [|[k v] m IH]; intros key default H; simpl; [reflexivity|].
  destruct (String.eqb_spec k key) as [E|_].
  - exfalso. apply (H k v); [now left | exact E].
  - apply IH. intros k' v' Hin. apply (H k' v'). now right.
Qed.

(** What [standardize_date] answers on the long form, whatever the
    month word. *)
Lemma long_form : forall d w y tail,
  all is_digit d = true -> 1 <= String.length d ->
  all is_word w = true -> 1 <= String.length w ->
  all is_digit y = true -> String.length y = 4 ->
  none is_sep tail = true ->
  standardize_date (d ++ " de " ++ w ++ " de " ++ y ++ tail)
  = Some (zfill 2 d ++ "/" ++ dict_get month_map (lower w) "01" ++ "/" ++ y).
Proof.
  intros d w y tail Hd Ld Hw Lw Hy Ly Htail.
  unfold standardize_date.
  rewrite (digit_first_not_special d _ Hd Ld).
  rewrite numeric_nowhere.
  - now rewrite (long_groups d w y tail).
  - rewrite !none_app, (digits_no_sep _ Hd), (words_no_sep _ Hw),
      (digits_no_sep _ Hy), Htail. reflexivity.
Qed.

(** What [standardize_date] answers on the numeric form. *)
Lemma numeric_form : forall d m y a b tail,
  all is_digit d = true -> 1 <= String.length d <= 2 ->
  all is_digit m = true -> 1 <= String.length m <= 2 ->
  all is_digit y = true -> 2 <= String.length y <= 4 ->
  is_sep a = true -> is_sep b = true ->
  String.length y = 4 \/ stops is_digit tail = true ->
  standardize_date (d ++ String a (m ++ String b (y ++ tail)))
  = Some (zfill 2 d ++ "/" ++ zfill 2 m ++ "/" ++
          (if Nat.eqb (String.length y) 2 then "20" ++ y else y)).
Proof.
  intros d m y a b tail Hd Ld Hm Lm Hy Ly Ha Hb Htail.
  unfold standardize_date.
  rewrite (digit_first_not_special d _ Hd) by lia.
  now rewrite (numeric_groups d m y a b tail).
Qed.


End DateFacts.

(** ** The frame operations of the normalizer *)

Module FrameFacts.

Import Latin1 Normalizer.
Local Open Scope string_scope.

(** *** [drop_duplicates] *)

Lemma drop_from_filter : forall u df seen,
  filter (has_url u) (drop_from seen df) =
  if existsb (String.eqb u) seen then []
  else match find (has_url u) df with Some r => [r] | None => [] end.
Proof.
  intros u. induction df as [|r rest IH]; intro seen; simpl.
  - now destruct (existsb (String.eqb u) seen).
  - destruct (has_url u r) eqn:Hu; unfold has_url in Hu.
    + apply String.eqb_eq in Hu. subst u.
      destruct (existsb (String.eqb (url r)) seen) eqn:E.
      * rewrite IH. now rewrite E.
      * simpl. unfold has_url at 1. rewrite String.eqb_refl, IH.
        simpl. now rewrite String.eqb_refl.
    + destruct (existsb (String.eqb (url r)) seen) eqn:E.
      * apply IH.
      * simpl. unfold has_url at 1. rewrite Hu, IH. simpl.
        rewrite String.eqb_sym, Hu. reflexivity.
Qed.

Lemma drop_from_unseen : forall df seen r,
  In r (drop_from seen df) -> existsb (String.eqb (url r)) seen = false.
Proof.
  induction df as [|x rest IH]; intros seen r H; simpl in H; [contradiction|].
  destruct (existsb (String.eqb (url x)) seen) eqn:E.
  - now apply IH.
  - destruct H as [<- | H]; [exact E|].
    apply IH in H. simpl in H. now apply orb_false_iff in H as [_ H].
Qed.

Lemma drop_from_NoDup : forall df seen, NoDup (map url (drop_from seen df)).
Proof.
  induction df as [|x rest IH]; intro seen; simpl; [constructor|].
  destruct (existsb (String.eqb (url x)) seen); [apply IH|].
  simpl. constructor; [|apply IH].
  intro H. apply in_map_iff in H as [r [Hu Hr]].
  apply drop_from_unseen in Hr. simpl in Hr.
  rewrite Hu, String.eqb_refl in Hr. discriminate.
Qed.

Lemma drop_from_fixed : forall l seen,
  NoDup (map url l) ->
  (forall r, In r l -> existsb (String.eqb (url r)) seen = false) ->
  drop_from seen l = l.
Proof.
  induction l as [|x rest IH]; intros seen Hnd Hseen; simpl; [reflexivity|].
  rewrite (Hseen x (or_introl eq_refl)). f_equal.
  inversion Hnd as [|? ? Hx Hrest]; subst.
  apply IH; [exact Hrest|].
  intros r Hr. simpl. rewrite (Hseen r (or_intror Hr)), orb_false_r.
  apply String.eqb_neq. intro E. apply Hx. rewrite <- E. now apply in_map.
Qed.

Lemma drop_duplicates_fixed : forall l,
  NoDup (map url l) -> drop_duplicates l = l.
Proof. intros l H. now apply drop_from_fixed. Qed.

(** *** [sort_values] *)

Lemma insert_desc_perm : forall r l, Permutation (insert_desc r l) (r :: l).
Proof.
  induction l as [|h t IH]; simpl; [reflexivity|].
  destruct (ge_key r h); [reflexivity|].
  rewrite IH. apply perm_swap.
Qed.

Lemma sort_desc_perm : forall l, Permutation (sort_desc l) l.
Proof.
  induction l as [|r l IH]; simpl; [reflexivity|].
  rewrite insert_desc_perm. now constructor.
Qed.

Lemma partition_perm {A : Type} (f : A -> bool) : forall l,
  Permutation (filter f l ++ filter (fun x => negb (f x)) l) l.
Proof.
  induction l as [|x l IH]; simpl; [reflexivity|].
  destruct (f x); simpl.
  - now constructor.
  - rewrite <- Permutation_middle. now constructor.
Qed.

Lemma insert_at_perm : forall l n r, Permutation (insert_at n r l) (r :: l).
Proof.
  induction l as [|h t IH]; intros n r; simpl; [reflexivity|].
  destruct n as [|n]; [reflexivity|].
  rewrite IH. apply perm_swap.
Qed.

Lemma rearrange_perm : forall l code, Permutation (rearrange code l) l.
Proof.
  induction l as [|r l IH]; intro code; simpl; [reflexivity|].
  rewrite insert_at_perm. now constructor.
Qed.

Lemma insert_at_0 : forall r l, insert_at 0 r l = r :: l.
Proof. now intros r [|h t]. Qed.

(** The empty code leaves the rows where they are. *)
Lemma rearrange_nil : forall l, rearrange [] l = l.
Proof.
  induction l as [|r l IH]; [reflexivity|].
  simpl. now rewrite IH, insert_at_0.
Qed.

Lemma insert_at_middle : forall l1 l2 r,
  insert_at (List.length l1) r (l1 ++ l2)%list = (l1 ++ r :: l2)%list.
Proof.
  induction l1 as [|h t IH]; intros l2 r; simpl; [apply insert_at_0|].
  now rewrite IH.
Qed.

(** Every rearrangement has a code. *)
Lemma rearrange_complete : forall l l',
  Permutation l l' -> exists code, rearrange code l = l'.
Proof.
  induction l as [|r l IH]; intros l' P.
  - apply Permutation_nil in P. subst. now exists [].
  - assert (In r l') as Hin by (apply (Permutation_in r P); now left).
    apply in_split in Hin as (l1 & l2 & ->).
    apply Permutation_cons_app_inv in P.
    destruct (IH _ P) as [code Hcode].
    exists (List.length l1 :: code). simpl.
    rewrite Hcode. apply insert_at_middle.
Qed.

Lemma sort_values_perm : forall ties df, Permutation (sort_values ties df) df.
Proof.
  intros ties df. unfold sort_values. rewrite sort_desc_perm, rearrange_perm.
  apply (partition_perm notna).
Qed.

Lemma filter_perm {A : Type} (f : A -> bool) : forall l l',
  Permutation l l' -> Permutation (filter f l) (filter f l').
Proof.
  induction 1; simpl.
  - reflexivity.
  - destruct (f x); [now constructor | assumption].
  - destruct (f x), (f y); try reflexivity. apply perm_swap.
  - etransitivity; eassumption.
Qed.

Lemma ge_key_total : forall a b, ge_key a b = false -> ge_key b a = true.
Proof.
  intros a b H. unfold ge_key in *.
  destruct (String.leb_total (key b) (key a)) as [E|E]; congruence.
Qed.

Lemma insert_desc_descending : forall r l,
  descending l = true -> descending (insert_desc r l) = true.
Proof.
  induction l as [|h t IH]; intro H; [reflexivity|].
  simpl insert_desc. destruct (ge_key r h) eqn:E.
  - simpl. simpl in H. now rewrite E, H.
  - assert (descending (insert_desc r t) = true) as Ht.
    { apply IH. destruct t; [reflexivity|]. simpl in H.
      now apply andb_true_iff in H as [_ H]. }
    destruct t as [|h' t'].
    + simpl. now rewrite (ge_key_total _ _ E).
    + simpl in H. apply andb_true_iff in H as [Hh _].
      simpl insert_desc in *. destruct (ge_key r h').
      * simpl. rewrite (ge_key_total _ _ E). exact Ht.
      * simpl. rewrite Hh. exact Ht.
Qed.

Lemma sort_desc_descending : forall l, descending (sort_desc l) = true.
Proof.
  induction l as [|r l IH]; [reflexivity|].
  simpl. now apply insert_desc_descending.
Qed.

Lemma sort_desc_fixed : forall l, descending l = true -> sort_desc l = l.
Proof.
  induction l as [|r l IH]; intro H; [reflexivity|].
  simpl. destruct l as [|h t]; [reflexivity|].
  simpl in H. apply andb_true_iff in H as [Hr Hl].
  rewrite (IH Hl). simpl. now rewrite Hr.
Qed.

Lemma filter_all {A : Type} (f : A -> bool) : forall l,
  forallb f l = true -> filter f l = l.
Proof.
  induction l as [|x l IH]; simpl; intro H; [reflexivity|].
  apply andb_true_iff in H as [Hx Hl]. now rewrite Hx, IH.
Qed.

Lemma filter_none {A : Type} (f : A -> bool) : forall l,
  forallb (fun x => negb (f x)) l = true -> filter f l = [].
Proof.
  induction l as [|x l IH]; simpl; intro H; [reflexivity|].
  apply andb_true_iff in H as [Hx Hl].
  apply negb_true_iff in Hx. now rewrite Hx, IH.
Qed.

Lemma forallb_filter {A : Type} (f : A -> bool) : forall l,
  forallb f (filter f l) = true.
Proof.
  induction l as [|x l IH]; simpl; [reflexivity|].
  destruct (f x) eqn:E; simpl; [now rewrite E | exact IH].
Qed.

Lemma forallb_perm {A : Type} (f : A -> bool) : forall l l',
  Permutation l l' -> forallb f l = true -> forallb f l' = true.
Proof.
  intros l l' P H. rewrite forallb_forall in *.
  intros x Hx. apply H. now apply (Permutation_in x (Permutation_sym P)).
Qed.

Lemma sorted_part_notna : forall code df,
  forallb notna (sort_desc (rearrange code (filter notna df))) = true.
Proof.
  intros code df. apply (forallb_perm notna) with (l := filter notna df).
  - symmetry. rewrite sort_desc_perm. apply rearrange_perm.
  - apply forallb_filter.
Qed.

Lemma filter_app_split {A : Type} (f : A -> bool) : forall l1 l2,
  forallb f l1 = true -> forallb (fun x => negb (f x)) l2 = true ->
  filter f (l1 ++ l2) = l1 /\ filter (fun x => negb (f x)) (l1 ++ l2) = l2.
Proof.
  intros l1 l2 H1 H2. rewrite !filter_app. split.
  - rewrite filter_all, filter_none by assumption. apply app_nil_r.
  - rewrite (filter_all (fun x => negb (f x)) l2) by assumption.
    rewrite (filter_none (fun x => negb (f x)) l1); [reflexivity|].
    rewrite <- H1. clear. induction l1 as [|x l IH]; simpl; [reflexivity|].
    now rewrite negb_involutive, IH.
Qed.

(** Sorting a frame that is in two parts, keyed rows then rows
    without key, sorts the keyed part and leaves the other. *)
Lemma sort_values_parts : forall ties keyed missing,
  forallb notna keyed = true -> forallb isna missing = true ->
  sort_values ties (keyed ++ missing)%list
  = (sort_desc (rearrange (ties (map key keyed)) keyed) ++ missing)%list.
Proof.
  intros ties keyed missing Hk Hm.
  destruct (filter_app_split notna keyed missing Hk Hm) as [E1 E2].
  change (fun x => negb (notna x)) with isna in E2.
  unfold sort_values. now rewrite E1, E2.
Qed.

(** *** The order of Python strings, and what it leaves open *)

Lemma ascii_compare_refl : forall c, Ascii.compare c c = Eq.
Proof. intro c. unfold Ascii.compare. apply N.compare_refl. Qed.

Lemma ascii_compare_lt_trans : forall a b c,
  Ascii.compare a b = Lt -> Ascii.compare b c = Lt -> Ascii.compare a c = Lt.
Proof.
  unfold Ascii.compare. intros a b c H1 H2.
  rewrite N.compare_lt_iff in *. eapply N.lt_trans; eassumption.
Qed.

Lemma leb_trans : forall s1 s2 s3,
  String.leb s1 s2 = true -> String.leb s2 s3 = true -> String.leb s1 s3 = true.
Proof.
  unfold String.leb.
  induction s1 as [|c1 s1 IH]; intros [|c2 s2] [|c3 s3]; simpl;
    try reflexivity; try discriminate.
  destruct (Ascii.compare c1 c2) eqn:E12; try discriminate;
    destruct (Ascii.compare c2 c3) eqn:E23; try discriminate.
  - apply Ascii.compare_eq_iff in E12, E23. subst.
    rewrite ascii_compare_refl. apply IH.
  - apply Ascii.compare_eq_iff in E12. subst. now rewrite E23.
  - apply Ascii.compare_eq_iff in E23. subst. now rewrite E12.
  - now rewrite (ascii_compare_lt_trans _ _ _ E12 E23).
Qed.

(** The first row of a descending frame has the greatest key. *)
Lemma descending_head : forall l a r,
  descending (a :: l) = true -> In r l -> ge_key a r = true.
Proof.
  induction l as [|b l IH]; intros a r H Hin; [contradiction|].
  simpl in H. apply andb_true_iff in H as [Hab Hl].
  destruct Hin as [<- | Hin]; [exact Hab|].
  unfold ge_key in *. apply leb_trans with (s2 := key b); [|exact Hab].
  now apply (IH b r).
Qed.

Lemma descending_tail : forall a l, descending (a :: l) = true -> descending l = true.
Proof.
  intros a [|b l] H; [reflexivity|].
  simpl in H. now apply andb_true_iff in H as [_ H].
Qed.

Lemma Permutation_keys_cons : forall (ks ks' : list string) k,
  Permutation (k :: ks) (k :: ks') -> Permutation ks ks'.
Proof. intros ks ks' k. apply Permutation_cons_inv. Qed.

(** Two descending arrangements of the same rows show the same column
    of keys. *)
Lemma descending_keys_unique : forall l l',
  Permutation (map key l) (map key l') ->
  descending l = true -> descending l' = true ->
  map key l = map key l'.
Proof.
  induction l as [|a l IH]; intros l' P D D'.
  - destruct l' as [|a' l']; [reflexivity|].
    simpl in P. now apply Permutation_nil_cons in P.
  - destruct l' as [|a' l'].
    { simpl in P. apply Permutation_sym in P. now apply Permutation_nil_cons in P. }
    assert (key a = key a') as E.
    { assert (In (key a) (map key (a' :: l'))) as Ha
        by (apply (Permutation_in _ P); now left).
      assert (In (key a') (map key (a :: l))) as Ha'
        by (apply (Permutation_in _ (Permutation_sym P)); now left).
      simpl in Ha, Ha'.
      destruct Ha as [Ha | Ha]; [now symmetry|].
      destruct Ha' as [Ha' | Ha']; [assumption|].
      apply in_map_iff in Ha as (r & Hr & Hin).
      apply in_map_iff in Ha' as (r' & Hr' & Hin').
      pose proof (descending_head _ _ _ D' Hin) as G1.
      pose proof (descending_head _ _ _ D Hin') as G2.
      unfold ge_key in G1, G2. rewrite Hr in G1. rewrite Hr' in G2.
      now apply String.leb_antisym. }
    simpl. rewrite E. f_equal.
    apply IH.
    + simpl in P. rewrite E in P. now apply Permutation_cons_inv in P.
    + now apply descending_tail in D.
    + now apply descending_tail in D'.
Qed.

(** With pairwise different keys, the column of keys fixes the
    arrangement. *)
Lemma distinct_keys_unique : forall l l',
  Permutation l l' -> map key l = map key l' -> NoDup (map key l) -> l = l'.
Proof.
  induction l as [|a l IH]; intros l' P E Hnd.
  - apply Permutation_nil in P. now subst.
  - destruct l' as [|a' l']; [discriminate E|].
    simpl in E. injection E as Ea El.
    inversion Hnd as [|? ? Hnotin Hnd']; subst.
    assert (a = a') as ->.
    { assert (In a (a' :: l')) as Hin by (apply (Permutation_in a P); now left).
      destruct Hin as [<- | Hin]; [reflexivity|].
      exfalso. apply Hnotin. rewrite El. now apply in_map. }
    f_equal. apply IH; [now apply Permutation_cons_inv in P | exact El | exact Hnd'].
Qed.

(** *** Maps that leave the sort key alone commute with the sort *)

Lemma filter_map_comm : forall (f : Row -> Row) (g : Row -> bool) l,
  (forall r, g (f r) = g r) -> filter g (map f l) = map f (filter g l).
Proof.
  intros f g l H. induction l as [|x l IH]; simpl; [reflexivity|].
  rewrite H. destruct (g x); simpl; now rewrite IH.
Qed.

Section KeyPreserving.

Variable f : Row -> Row.
Hypothesis f_key : forall r, date_standardized (f r) = date_standardized r.

Lemma ge_key_map : forall a b, ge_key (f a) (f b) = ge_key a b.
Proof. intros. unfold ge_key, key. now rewrite !f_key. Qed.

Lemma insert_desc_map : forall r l,
  insert_desc (f r) (map f l) = map f (insert_desc r l).
Proof.
  induction l as [|h t IH]; simpl; [reflexivity|].
  rewrite ge_key_map. destruct (ge_key r h); simpl; [reflexivity|].
  now rewrite IH.
Qed.

Lemma sort_desc_map : forall l, sort_desc (map f l) = map f (sort_desc l).
Proof.
  induction l as [|r l IH]; simpl; [reflexivity|].
  now rewrite IH, insert_desc_map.
Qed.

Lemma insert_at_map : forall l n r,
  insert_at n (f r) (map f l) = map f (insert_at n r l).
Proof.
  induction l as [|h t IH]; intros n r; simpl; [reflexivity|].
  destruct n as [|n]; simpl; [reflexivity|]. now rewrite IH.
Qed.

Lemma rearrange_map : forall l code,
  rearrange code (map f l) = map f (rearrange code l).
Proof.
  induction l as [|r l IH]; intro code; simpl; [reflexivity|].
  now rewrite IH, insert_at_map.
Qed.

Lemma key_map : forall l, map key (map f l) = map key l.
Proof.
  intro l. rewrite map_map. apply map_ext. intro r. unfold key. now rewrite f_key.
Qed.

Lemma sort_values_map : forall ties l,
  sort_values ties (map f l) = map f (sort_values ties l).
Proof.
  intros ties l. unfold sort_values.
  rewrite !filter_map_comm, key_map, rearrange_map, sort_desc_map, map_app;
    [reflexivity| |].
  - intro r. unfold isna, notna. now rewrite f_key.
  - intro r. unfold notna. now rewrite f_key.
Qed.

Lemma descending_map : forall l, descending (map f l) = descending l.
Proof.
  induction l as [|a [|b t] IH]; try reflexivity.
  change (descending (map f (a :: b :: t)))
    with (ge_key (f a) (f b) && descending (map f (b :: t))).
  now rewrite ge_key_map, IH.
Qed.

End KeyPreserving.

Lemma forallb_map_comm : forall (f : Row -> Row) (g : Row -> bool) l,
  (forall r, g (f r) = g r) -> forallb g (map f l) = forallb g l.
Proof.
  intros f g l H. induction l as [|x l IH]; simpl; [reflexivity|].
  now rewrite H, IH.
Qed.

(** *** The whole transformation *)

Lemma clean_pipeline : forall ties now df,
  clean_and_structure_data ties now df =
  map (set_extraction_date now) (sort_values ties (map tidy (drop_duplicates df))).
Proof.
  intros ties now df. unfold clean_and_structure_data.
  destruct df as [|r df]; [reflexivity|].
  cbv [empty]. now rewrite map_map.
Qed.

Lemma tidy_stamped_fixed : forall now r,
  tidy (set_extraction_date now (tidy r)) = set_extraction_date now (tidy r).
Proof. intros now [u t d b a v m s ds ed]. now destruct b, a, v, m. Qed.

Lemma restamp : forall now1 now2 r,
  set_extraction_date now2 (set_extraction_date now1 r) = set_extraction_date now2 r.
Proof. reflexivity. Qed.

Lemma urls_sorted : forall ties l,
  Permutation (map url (sort_values ties l)) (map url l).
Proof. intros ties l. apply Permutation_map, sort_values_perm. Qed.

Lemma urls_tidy : forall l, map url (map tidy l) = map url l.
Proof. intro l. rewrite map_map. now apply map_ext. Qed.

Lemma urls_stamped : forall now l,
  map url (map (set_extraction_date now) l) = map url l.
Proof. intros now l. rewrite map_map. now apply map_ext. Qed.

(** The urls of the output are pairwise different. *)
Lemma clean_urls_NoDup : forall ties now df,
  NoDup (map url (clean_and_structure_data ties now df)).
Proof.
  intros ties now df. rewrite clean_pipeline, urls_stamped.
  apply Permutation_NoDup with (l := map url (drop_duplicates df)).
  - rewrite urls_sorted, urls_tidy. reflexivity.
  - apply drop_from_NoDup.
Qed.

(** The two parts of a sorted frame. *)
Lemma sort_values_shape : forall ties df,
  exists keyed missing,
    sort_values ties df = (keyed ++ missing)%list /\
    forallb notna keyed = true /\ forallb isna missing = true /\
    descending keyed = true.
Proof.
  intros ties df.
  exists (sort_desc (rearrange (ties (map key (filter notna df))) (filter notna df))),
         (filter isna df).
  split; [reflexivity|].
  split; [apply sorted_part_notna|].
  split; [apply (forallb_filter isna) | apply sort_desc_descending].
Qed.

(** Normalizing an output again, at clock reading [now2]: the rows of
    the first output are sorted once more and stamped once more,
    nothing else. *)
Lemma clean_again : forall ties now1 now2 df,
  clean_and_structure_data ties now2 (clean_and_structure_data ties now1 df)
  = map (set_extraction_date now2)
        (sort_values ties (sort_values ties (map tidy (drop_duplicates df)))).
Proof.
  intros ties now1 now2 df.
  rewrite (clean_pipeline ties now2 (clean_and_structure_data ties now1 df)).
  rewrite (drop_duplicates_fixed _ (clean_urls_NoDup ties now1 df)).
  rewrite !clean_pipeline.
  set (X := sort_values ties (map tidy (drop_duplicates df))).
  assert (map tidy (map (set_extraction_date now1) X)
          = map (set_extraction_date now1) X) as ->.
  { rewrite map_map. apply map_ext_in. intros x Hx.
    apply (Permutation_in x (sort_values_perm _ _)) in Hx.
    apply in_map_iff in Hx as [r [<- _]]. apply tidy_stamped_fixed. }
  rewrite sort_values_map by reflexivity.
  rewrite map_map. now apply map_ext.
Qed.

(** Sorting a sorted frame: a rearrangement that shows the same column
    of keys and leaves the rows without key where they are. *)
Lemma sort_values_again : forall ties df,
  let once := sort_values ties df in
  let twice := sort_values ties once in
  Permutation twice once /\
  map date_standardized twice = map date_standardized once /\
  filter isna twice = filter isna once /\
  (NoDup (map key (filter notna once)) -> twice = once) /\
  ((forall keys, ties keys = []) -> twice = once).
Proof.
  intros ties df once twice.
  destruct (sort_values_shape ties df) as (keyed & missing & E & Hk & Hm & Hd).
  fold once in E.
  assert (twice = (sort_desc (rearrange (ties (map key keyed)) keyed) ++ missing)%list)
    as Et by (unfold twice; rewrite E; now apply sort_values_parts).
  set (again := sort_desc (rearrange (ties (map key keyed)) keyed)) in Et.
  assert (Permutation again keyed) as P
    by (unfold again; rewrite sort_desc_perm; apply rearrange_perm).
  assert (descending again = true) as Da by apply sort_desc_descending.
  assert (map key again = map key keyed) as Ek.
  { apply descending_keys_unique; [now apply Permutation_map | exact Da | exact Hd]. }
  assert (forallb notna again = true) as Hka.
  { apply (forallb_perm notna) with (l := keyed); [now symmetry | exact Hk]. }
  assert (forall l, forallb notna l = true ->
                    map date_standardized l = map (fun r => Some (key r)) l) as Hds.
  { induction l as [|r l IH]; simpl; intro H; [reflexivity|].
    apply andb_true_iff in H as [Hr Hl]. rewrite (IH Hl). f_equal.
    unfold notna in Hr. unfold key. now destruct (date_standardized r). }
  destruct (filter_app_split notna keyed missing Hk Hm) as [F1 F2].
  destruct (filter_app_split notna again missing Hka Hm) as [_ G2].
  change (fun x => negb (notna x)) with isna in F2, G2.
  rewrite Et, E.
  split; [now apply Permutation_app_tail|].
  split.
  { rewrite !map_app, (Hds _ Hka), (Hds _ Hk).
    now rewrite <- !(map_map key (fun k => Some k)), Ek. }
  split; [now rewrite F2, G2|].
  split.
  - rewrite F1. intro Hnd. f_equal.
    apply distinct_keys_unique; [exact P | exact Ek | now rewrite Ek].
  - intro Hst. unfold again. rewrite Hst, rearrange_nil.
    now rewrite (sort_desc_fixed _ Hd).
Qed.

(** What the sort does establish: the output is the rows that have a
    key, in descending order of the key as text, followed by the rows
    without a key. *)
Lemma clean_output_order : forall ties now df,
  exists keyed missing,
    clean_and_structure_data ties now df = (keyed ++ missing)%list /\
    forallb notna keyed = true /\ forallb isna missing = true /\
    descending keyed = true.
Proof.
  intros ties now df. rewrite clean_pipeline.
  destruct (sort_values_shape ties (map tidy (drop_duplicates df)))
    as (keyed & missing & E & Hk & Hm & Hd).
  exists (map (set_extraction_date now) keyed),
         (map (set_extraction_date now) missing).
  split; [rewrite E; apply map_app|].
  rewrite !forallb_map_comm, descending_map by reflexivity.
  now repeat split.
Qed.

(** The one row of the output with a given url is the tidied first
    row of the input with that url. *)
Lemma clean_filter_url : forall ties now df u r,
  find (has_url u) df = Some r ->
  filter (has_url u) (clean_and_structure_data ties now df)
  = [set_extraction_date now (tidy r)].
Proof.
  intros ties now df u r Hfind.
  rewrite clean_pipeline, filter_map_comm by reflexivity.
  assert (Permutation [tidy r]
            (filter (has_url u)
                    (sort_values ties (map tidy (drop_duplicates df))))) as P.
  { rewrite (filter_perm (has_url u) _ _ (sort_values_perm _ _)).
    rewrite filter_map_comm by reflexivity.
    unfold drop_duplicates. rewrite drop_from_filter. simpl.
    now rewrite Hfind. }
  apply Permutation_length_1_inv in P. now rewrite P.
Qed.

Lemma find_first : forall u df r,
  In r df -> url r = u ->
  exists r0, find (has_url u) df = Some r0 /\ url r0 = u.
Proof.
  intros u. induction df as [|x df IH]; intros r Hin Hu; [contradiction|].
  simpl. destruct (has_url u x) eqn:E.
  - exists x. split; [reflexivity | now apply String.eqb_eq in E].
  - destruct Hin as [-> | Hin]; [|now apply (IH r)].
    unfold has_url in E. rewrite Hu, String.eqb_refl in E. discriminate.
Qed.

(** No url of the input is lost. *)
Lemma clean_keeps_urls : forall ties now df r,
  In r df -> In (url r) (map url (clean_and_structure_data ties now df)).
Proof.
  intros ties now df r Hin.
  destruct (find_first (url r) df r Hin eq_refl) as [r0 [Hfind Hu]].
  pose proof (clean_filter_url ties now df _ _ Hfind) as F.
  assert (In (set_extraction_date now (tidy r0))
             (filter (has_url (url r)) (clean_and_structure_data ties now df))) as H.
  { rewrite F. now left. }
  apply filter_In in H as [H _]. rewrite <- Hu.
  change (url r0) with (url (set_extraction_date now (tidy r0))).
  now apply in_map.
Qed.

End FrameFacts.

(** ** Claims about the normalizer *)

Module NormalizerClaims.

Import Latin1 Regex Normalizer Orchestrator.
Import Latin1Facts RegexFacts DateFacts FrameFacts.
Local Open Scope string_scope.

(** C1.  When the merged frame holds several rows with the url [u],
    the output of [clean_and_structure_data] holds exactly one row
    with that url: the first such row of the input, in merge order,
    tidied and stamped.  Its [source] (and its title and raw date) are
    those of that first row; the later rows with the url are gone. *)
Theorem dedup_keeps_first_occurrence : forall ties now df u first,
  find (has_url u) df = Some first ->
  exists kept,
    filter (has_url u) (clean_and_structure_data ties now df) = [kept] /\
    kept = set_extraction_date now (tidy first) /\
    url kept = u /\ source kept = source first /\
    title kept = title first /\ date kept = date first.
Proof.
  intros ties now df u first Hfind.
  exists (set_extraction_date now (tidy first)).
  split; [now apply clean_filter_url|].
  repeat split.
  apply find_some in Hfind as [_ H]. now apply String.eqb_eq in H.
Qed.

Lemma dedup_keeps_first_occurrence_witness :
  let df := [ set_source "Pipeline Valor" (scraped "https://x/1" "A" "02/01/2024");
              set_source "Pipeline Valor" (scraped "https://x/2" "B" "03/01/2024");
              set_source "Valor" (scraped "https://x/1" "C" "05/01/2024") ] in
  find (has_url "https://x/1") df
  = Some (set_source "Pipeline Valor" (scraped "https://x/1" "A" "02/01/2024")) /\
  exists kept,
    filter (has_url "https://x/1") (clean_and_structure_data reversing "now" df)
    = [kept] /\
    source kept = Some "Pipeline Valor".
Proof.
  intro df. split; [reflexivity|].
  destruct (dedup_keeps_first_occurrence reversing "now" df "https://x/1" _ eq_refl)
    as [kept (H1 & _ & _ & H4 & _)].
  exists kept. split; [exact H1 | exact H4].
Defined.

(** C2.  The sort of [clean_and_structure_data] compares the texts
    ["DD/MM/YYYY"], not the dates they denote: on two rows dated
    1 February 2024 and 2 January 2024 the output puts 2 January
    first, so the calendar dates of the output are not in
    non-increasing order.  The two keys differ, so this is the output
    whatever the sort does with equal keys. *)
Theorem sort_orders_text_not_calendar : forall ties,
  let out := clean_and_structure_data ties "2024-03-01 12:00:00"
               [ scraped "https://x/1" "A" "01/02/2024";
                 scraped "https://x/2" "B" "02/01/2024" ] in
  map date_standardized out = [Some "02/01/2024"; Some "01/02/2024"] /\
  map url out = ["https://x/2"; "https://x/1"] /\
  calendar_dates out = [20240102; 20240201]%N /\
  non_increasing (calendar_dates out) = false.
Proof.
  intro ties. cbv zeta. rewrite clean_pipeline. unfold sort_values.
  match goal with |- context [ties ?k] => generalize (ties k) end.
  intros [|[|n] code]; vm_compute; repeat split.
Qed.

(** C3, as stated, fails: the second application writes the reading
    of the clock at that moment into [extraction_date], so an output
    normalized again five seconds later is not the same frame,
    whatever the sort does with equal keys. *)
Lemma renormalizing_restamps :
  ~ exists ties,
      clean_and_structure_data ties "2024-03-01 12:00:05"
        (clean_and_structure_data ties "2024-03-01 12:00:00"
           [scraped "https://x/1" "A" "02/01/2024"])
      = clean_and_structure_data ties "2024-03-01 12:00:00"
          [scraped "https://x/1" "A" "02/01/2024"].
Proof. intros [ties H]. vm_compute in H. discriminate H. Qed.

(** The default sort is not stable, and an unstable sort need not
    leave a sorted frame alone: with a tie break that takes the rows
    in reverse, two rows of the same date trade places each time the
    frame is normalized, also within one reading of the clock. *)
Lemma unstable_sort_reorders_ties :
  let df := [ scraped "https://x/1" "A" "02/01/2024";
              scraped "https://x/2" "B" "02/01/2024" ] in
  let once := clean_and_structure_data reversing "2024-03-01 12:00:00" df in
  let twice := clean_and_structure_data reversing "2024-03-01 12:00:00" once in
  map url once = ["https://x/2"; "https://x/1"] /\
  map url twice = ["https://x/1"; "https://x/2"] /\
  twice <> once.
Proof.
  vm_compute. split; [reflexivity|]. split; [reflexivity|].
  intro H. discriminate H.
Qed.

(** C3, amended.  Applying [clean_and_structure_data] to its own
    output changes the [extraction_date], which becomes the later
    clock reading, and nothing else in any row; the rows may trade
    places only with rows of the same [date_standardized], since the
    default sort is not stable: the result is a rearrangement of the
    first output stamped again, it shows the same column of
    [date_standardized], and its rows without a date are those of the
    first output in the same order.  When the dated rows of the first
    output have pairwise different [date_standardized], or when the
    sort is stable, the result is the first output stamped again,
    which is what normalizing the input at the later reading gives;
    and stamping with the same reading changes nothing, so the second
    application is then a no-op. *)
Theorem clean_idempotent_up_to_stamp : forall ties now1 now2 df,
  let once := clean_and_structure_data ties now1 df in
  let twice := clean_and_structure_data ties now2 once in
  let restamped := map (set_extraction_date now2) once in
  Permutation twice restamped /\
  map date_standardized twice = map date_standardized once /\
  filter isna twice = filter isna restamped /\
  (NoDup (map key (filter notna once)) \/ (forall keys, ties keys = []) ->
   twice = restamped /\ twice = clean_and_structure_data ties now2 df /\
   (now2 = now1 -> twice = once)) /\
  map (set_extraction_date now1) once = once.
Proof.
  intros ties now1 now2 df once twice restamped.
  assert (twice = map (set_extraction_date now2)
                      (sort_values ties
                         (sort_values ties (map tidy (drop_duplicates df))))) as Et
    by apply clean_again.
  assert (once = map (set_extraction_date now1)
                     (sort_values ties (map tidy (drop_duplicates df)))) as Eo
    by apply clean_pipeline.
  set (X := sort_values ties (map tidy (drop_duplicates df))) in Et, Eo.
  assert (restamped = map (set_extraction_date now2) X) as Er.
  { unfold restamped. rewrite Eo, map_map. now apply map_ext. }
  destruct (sort_values_again ties (map tidy (drop_duplicates df)))
    as (P & Hds & Hna & Hnd & Hst).
  fold X in P, Hds, Hna, Hnd, Hst.
  assert (forall now (l : DataFrame),
            map date_standardized (map (set_extraction_date now) l)
            = map date_standardized l) as Dm
    by (intros; rewrite map_map; now apply map_ext).
  assert (map (set_extraction_date now1) (map (set_extraction_date now1) X)
          = map (set_extraction_date now1) X) as Hsame
    by (rewrite map_map; now apply map_ext).
  rewrite Et, Er, Eo.
  split; [now apply Permutation_map|].
  split; [now rewrite !Dm|].
  split; [rewrite !filter_map_comm by reflexivity; now rewrite Hna|].
  split; [|exact Hsame].
  intro H.
  assert (sort_values ties X = X) as ->.
  { destruct H as [H | H]; [|exact (Hst H)].
    apply Hnd. rewrite filter_map_comm, key_map in H by reflexivity. exact H. }
  split; [reflexivity|]. split; [now rewrite clean_pipeline|].
  now intros ->.
Qed.

Lemma clean_idempotent_up_to_stamp_witness :
  let df := [ scraped "https://x/1" "A" "02/01/2024";
              scraped "https://x/2" "B" "1 de maio de 2024";
              scraped "https://x/3" "C" "" ] in
  let once := clean_and_structure_data reversing "2024-03-01 12:00:00" df in
  NoDup (map key (filter notna once)) /\
  clean_and_structure_data reversing "2024-03-01 12:00:05" once
  = map (set_extraction_date "2024-03-01 12:00:05") once /\
  clean_and_structure_data reversing "2024-03-01 12:00:00" once = once.
Proof.
  intros df once.
  assert (NoDup (map key (filter notna once))) as Hnd.
  { vm_compute. repeat constructor; simpl; intuition discriminate. }
  split; [exact Hnd|]. split.
  - destruct (clean_idempotent_up_to_stamp reversing "2024-03-01 12:00:00"
                "2024-03-01 12:00:05" df) as (_ & _ & _ & H & _).
    now destruct (H (or_introl Hnd)).
  - destruct (clean_idempotent_up_to_stamp reversing "2024-03-01 12:00:00"
                "2024-03-01 12:00:00" df) as (_ & _ & _ & H & _).
    destruct (H (or_introl Hnd)) as (_ & _ & E). exact (E eq_refl).
Defined.


Lemma month_map_entry : forall name num,
  In (name, num) month_map ->
  all is_word name = true /\ 1 <= String.length name /\
  dict_get month_map (lower name) "01" = num.
Proof.
  intros name num H. unfold month_map in H. simpl in H.
  repeat (destruct H as [H | H];
          [injection H as <- <-; vm_compute; repeat split; lia|]).
  contradiction.
Qed.



(** C10.  On the long form "D de <word> de YYYY", a month word that,
    lowercased, is none of the twelve names of the table is given
    month 01: the text is neither handed back nor made null.  So
    "5 de foo de 2024" gives "05/01/2024". *)
Theorem unknown_month_becomes_january : forall d word y tail,
  all is_digit d = true -> 1 <= String.length d ->
  all is_word word = true -> 1 <= String.length word ->
  all is_digit y = true -> String.length y = 4 ->
  none is_sep tail = true ->
  (forall name num, In (name, num) month_map -> name <> lower word) ->
  standardize_date (d ++ " de " ++ word ++ " de " ++ y ++ tail)
  = Some (zfill 2 d ++ "/01/" ++ y).
Proof.
  intros d word y tail Hd Ld Hw Lw Hy Ly Htail Hnot.
  rewrite long_form by assumption.
  now rewrite (dict_get_default month_map (lower word) "01" Hnot).
Qed.

Lemma unknown_month_becomes_january_witness :
  (forall name num, In (name, num) month_map -> name <> lower "foo") /\
  standardize_date "5 de foo de 2024" = Some "05/01/2024".
Proof.
  assert (forall name num, In (name, num) month_map -> name <> lower "foo") as Hnot.
  { intros name num H. unfold month_map in H. simpl in H.
    repeat (destruct H as [H | H]; [injection H as <- <-; discriminate|]).
    contradiction. }
  split; [exact Hnot|].
  apply (unknown_month_becomes_january "5" "foo" "2024" "");
    try reflexivity; simpl; try lia; exact Hnot.
Defined.

End NormalizerClaims.

(** ** Traces *)

Module TraceFacts.

Import Trace.

Lemma trace_bind : forall (E A B : Type) (m : M E A) (f : A -> M E B),
  trace (bind m f) = trace m ++ trace (f (result m)).
Proof. intros E A B [t a] f. unfold bind, trace, result. simpl. now destruct (f a). Qed.

Lemma result_bind : forall (E A B : Type) (m : M E A) (f : A -> M E B),
  result (bind m f) = result (f (result m)).
Proof. intros E A B [t a] f. unfold bind, trace, result. simpl. now destruct (f a). Qed.

Lemma trace_emit_then : forall (E B : Type) (e : E) (k : M E B),
  trace (bind (emit e) (fun _ => k)) = e :: trace k.
Proof. intros. now rewrite trace_bind. Qed.

Lemma result_emit_then : forall (E B : Type) (e : E) (k : M E B),
  result (bind (emit e) (fun _ => k)) = result k.
Proof. intros. now rewrite result_bind. Qed.

End TraceFacts.

(** ** Claims about the orchestrator *)

Module OrchestratorClaims.

Import Normalizer Orchestrator Trace TraceFacts FrameFacts.
Local Open Scope string_scope.

Lemma combine_non_empty : forall dfs : list DataFrame,
  combine (filter non_empty dfs) = List.concat dfs.
Proof.
  induction dfs as [|df dfs IH]; [reflexivity|].
  simpl. destruct df as [|r df]; simpl.
  - exact IH.
  - unfold combine in IH. simpl.
    destruct (filter non_empty dfs); now rewrite <- IH.
Qed.

Lemma sequential_is_concat : forall c,
  run_all_sequential c
  = (run_pipeline_valor c ++ run_valor_economico c ++ run_fusoes_aquisicoes c)%list.
Proof.
  intro c. unfold run_all_sequential. rewrite combine_non_empty.
  simpl. now rewrite app_nil_r.
Qed.

Lemma parallel_is_concat : forall order c,
  run_all_parallel order c = flat_map (future_result c) order.
Proof.
  intros order c. unfold run_all_parallel.
  now rewrite combine_non_empty, flat_map_concat_map.
Qed.

(** C5.  Whatever order the futures complete in, and whatever each
    scraper does: the sequential run returns the frames of the three
    sources one after the other, the parallel run returns the same
    rows; a source whose scraper raises contributes the empty frame
    and nothing else changes; and a source whose scraper returns a
    frame contributes every row of it (the Valor one when its
    credentials are set), tagged with its name. *)
Theorem failing_adapter_is_isolated : forall c order,
  Permutation order all_futures ->
  run_all_sequential c
  = (run_pipeline_valor c ++ run_valor_economico c ++ run_fusoes_aquisicoes c)%list /\
  Permutation (run_all_parallel order c) (run_all_sequential c) /\
  (pipeline_scraper c = Raised -> run_pipeline_valor c = []) /\
  (valor_scraper c = Raised -> run_valor_economico c = []) /\
  (fusoes_scraper c = Raised -> run_fusoes_aquisicoes c = []) /\
  (forall df, pipeline_scraper c = Returned df ->
              run_pipeline_valor c = map (set_source pipeline_valor_name) df) /\
  (forall df, valor_scraper c = Returned df -> valor_credentials c = true ->
              run_valor_economico c = map (set_source valor_economico_name) df) /\
  (forall df, fusoes_scraper c = Returned df ->
              run_fusoes_aquisicoes c = map (set_source fusoes_aquisicoes_name) df).
Proof.
  intros c order Horder.
  split; [apply sequential_is_concat|].
  split.
  { rewrite parallel_is_concat, sequential_is_concat.
    rewrite (Permutation_flat_map (future_result c) Horder).
    simpl. now rewrite app_nil_r. }
  unfold run_pipeline_valor, run_valor_economico, run_fusoes_aquisicoes.
  repeat split.
  - now intros ->.
  - intros ->. now destruct (valor_credentials c).
  - now intros ->.
  - intros df ->. now destruct df.
  - intros df -> ->. now destruct df.
  - intros df ->. now destruct df.
Qed.

Lemma failing_adapter_is_isolated_witness :
  let c := mkCycle Raised (Returned five_rows)
                   (Returned [scraped "https://y/1" "Y" "1 de maio de 2024"]) true in
  let order := [future_fusoes; future_pipeline; future_valor] in
  Permutation order all_futures /\
  run_all_sequential c
  = (map (set_source valor_economico_name) five_rows ++
     [set_source fusoes_aquisicoes_name (scraped "https://y/1" "Y" "1 de maio de 2024")])%list /\
  Permutation (run_all_parallel order c) (run_all_sequential c).
Proof.
  intros c order.
  assert (Permutation order all_futures) as P.
  { unfold order, all_futures.
    apply (Permutation_cons_app [future_pipeline; future_valor] [] future_fusoes).
    apply Permutation_refl. }
  destruct (failing_adapter_is_isolated c order P) as (H1 & H2 & _).
  split; [exact P|]. split; [|exact H2].
  rewrite H1. reflexivity.
Defined.

(** *** The pipeline-level loop *)

Lemma sleeps_app : forall t1 t2, sleeps (t1 ++ t2) = (sleeps t1 ++ sleeps t2)%list.
Proof.
  induction t1 as [|ev t1 IH]; intro t2; [reflexivity|].
  destruct ev; simpl; now rewrite IH.
Qed.

Lemma cycles_run_app : forall t1 t2,
  cycles_run (t1 ++ t2) = cycles_run t1 + cycles_run t2.
Proof.
  induction t1 as [|ev t1 IH]; intro t2; [reflexivity|].
  destruct ev; simpl; now rewrite IH.
Qed.

Lemma written_app : forall t1 t2, written (t1 ++ t2) = (written t1 ++ written t2)%list.
Proof.
  induction t1 as [|ev t1 IH]; intro t2; [reflexivity|].
  destruct ev; simpl; now rewrite IH.
Qed.

(** The events of [n] empty cycles in a row, from attempt [a] on. *)
Lemma skipped_events : forall n a,
  let t := flat_map (fun k => [Cycle k; Sleep 10]) (seq a n) in
  sleeps t = repeat 10 n /\ cycles_run t = n /\ written t = [].
Proof.
  induction n as [|n IH]; intro a; simpl; [repeat split|].
  destruct (IH (S a)) as (H1 & H2 & H3). simpl in *.
  now rewrite H1, H2, H3.
Qed.

Lemma ends_with_rev_app : forall x y, ends_with_rev x (x ++ y) = true.
Proof.
  induction x as [|a x IH]; intro y; [reflexivity|].
  simpl. now rewrite Ascii.eqb_refl, IH.
Qed.

Lemma list_ascii_app : forall a b : string,
  list_ascii_of_string (a ++ b)
  = (list_ascii_of_string a ++ list_ascii_of_string b)%list.
Proof. induction a as [|c a IH]; intro b; simpl; [reflexivity | now rewrite IH]. Qed.

Lemma endswith_app : forall a b : string, endswith (a ++ b) b = true.
Proof.
  intros a b. unfold endswith.
  rewrite list_ascii_app, rev_app_distr. apply ends_with_rev_app.
Qed.

Lemma clean_non_empty : forall ties now df,
  df <> [] -> empty (clean_and_structure_data ties now df) = false.
Proof.
  intros ties now df H. destruct df as [|r df]; [congruence|].
  pose proof (clean_keeps_urls ties now (r :: df) r (or_introl eq_refl)) as Hin.
  now destruct (clean_and_structure_data ties now (r :: df)).
Qed.

(** What [os.path.join] returns always ends with its second part. *)
Lemma join_endswith : forall a b suffix,
  endswith b suffix = true -> endswith (join a b) suffix = true.
Proof.
  intros a b suffix H. unfold join.
  destruct (String.prefix "/" b); [exact H|].
  assert (forall x, endswith (x ++ b) suffix = true) as Happ.
  { intro x. unfold endswith in *. rewrite list_ascii_app, rev_app_distr.
    revert H. generalize (rev (list_ascii_of_string suffix)) as sr.
    generalize (rev (list_ascii_of_string b)) as br.
    induction br as [|c br IH]; intros [|d sr] H; simpl in *;
      try reflexivity; try discriminate.
    apply andb_true_iff in H as [-> H]. simpl. now apply IH. }
  destruct (String.eqb a "" || endswith a "/"); [apply Happ|].
  change (a ++ "/" ++ b) with (a ++ ("/" ++ b)).
  replace (a ++ ("/" ++ b)) with ((a ++ "/") ++ b); [apply Happ|].
  clear. induction a as [|c a IH]; simpl; [reflexivity | now rewrite IH].
Qed.

(** The name [run_extraction] gives to the spreadsheet is relative:
    the file goes under the output directory, with one separator
    between the two, which [join] adds unless the directory is empty
    or ends with one. *)
Lemma join_relative : forall a b,
  String.prefix "/" b = false ->
  join a b = if String.eqb a "" || endswith a "/" then a ++ b else a ++ "/" ++ b.
Proof. intros a b H. unfold join. now rewrite H. Qed.

Section PipelineLoop.

Variable output_dir : string.
Variable parallel : bool.
Variable max_retries : nat.
Variable e : env.

Local Notation "'loop'" := (attempts output_dir parallel max_retries e).
Local Notation "'path'" := (file_path output_dir e).

Lemma loop_step : forall rem a,
  loop (S rem) a
  = (emit (Cycle a) ;;
     match run_all parallel e a with
     | Returned df =>
         if empty df && (a <? max_retries - 1)%nat then
           emit (Sleep 10) ;; loop rem (S a)
         else
           save_to_excel output_dir (file_clock e a) (to_excel_ok e a)
                         (clean_and_structure_data (ties e) (clock e a) df)
                         ("ma_noticias_" ++ file_clock e a ++ ".xlsx")
     | Raised =>
         when (a <? max_retries - 1)%nat (emit (Sleep (30 * (a + 1)))) ;;
         loop rem (S a)
     end)%trace.
Proof. reflexivity. Qed.







End PipelineLoop.




End OrchestratorClaims.

(** ** Claims about the per-request retry loop *)

Module RetryClaims.

Import Retry Trace TraceFacts.
Local Open Scope nat_scope.

Lemma waits_app : forall t1 t2, waits (t1 ++ t2) = waits t1 ++ waits t2.
Proof.
  induction t1 as [|ev t1 IH]; intro t2; [reflexivity|].
  destruct ev; simpl; now rewrite IH.
Qed.

Lemma pauses_app : forall t1 t2, pauses (t1 ++ t2) = pauses t1 ++ pauses t2.
Proof.
  induction t1 as [|ev t1 IH]; intro t2; [reflexivity|].
  destruct ev; simpl; now rewrite IH.
Qed.

Lemma requests_sent_app : forall t1 t2,
  requests_sent (t1 ++ t2) = requests_sent t1 + requests_sent t2.
Proof.
  induction t1 as [|ev t1 IH]; intro t2; [reflexivity|].
  destruct ev; simpl; now rewrite IH.
Qed.

Lemma flat_map_agree {A B : Type} (f g : A -> list B) : forall l,
  (forall x, In x l -> f x = g x) -> flat_map f l = flat_map g l.
Proof.
  induction l as [|x l IH]; intro H; [reflexivity|].
  simpl. rewrite (H x) by now left. rewrite IH; [reflexivity|].
  intros y Hy. apply H. now right.
Qed.

Lemma requests_sent_events : forall net a, requests_sent (request_events net a) = 1.
Proof. intros net a. unfold request_events. now destruct (0 <? a). Qed.

Lemma pauses_events : forall net a,
  pauses (request_events net a) = [uniform_1_3 net a].
Proof. intros net a. unfold request_events. now destruct (0 <? a). Qed.

(** *** The values of the waits *)

Lemma wait_time_int : forall pow b k,
  wait_time pow (Int b) k = Some (Int (b ^ Z.of_nat k * 2)).
Proof. reflexivity. Qed.

Lemma wait_time_float_first : forall pow x,
  wait_time pow (Float x) 0 = Some (Float 2).
Proof. reflexivity. Qed.

Lemma wait_time_float_next : forall pow x k,
  wait_time pow (Float x) (S k)
  = option_map (fun p => Float (p * 2)) (pow x (S k)).
Proof.
  intros pow x k. unfold wait_time, power.
  now destruct (pow x (S k)).
Qed.

(** An [int] factor that is not negative gives waits that
    [time.sleep] takes, as long as they stay below its limit. *)
Lemma int_factor_accepted : forall pow b k,
  (0 <= b)%Z -> (b ^ Z.of_nat k * 2 <= 9223372036)%Z ->
  accepted pow (Int b) k = true.
Proof.
  intros pow b k Hb Hlim. unfold accepted. rewrite wait_time_int. simpl.
  apply andb_true_iff. split; apply Z.leb_le; [|exact Hlim].
  apply Z.mul_nonneg_nonneg; [|lia]. apply Z.pow_nonneg. exact Hb.
Qed.

Section RequestLoop.

Variable pow : float -> nat -> option float.
Variable net : network.
Variable max_retries : nat.
Variable backoff_factor : number.

Local Notation "'loop'" := (attempts pow net max_retries backoff_factor).
Local Notation "'backs_off'" := (Retry.backs_off net max_retries).
Local Notation "'accepted'" := (Retry.accepted pow backoff_factor).
Local Notation "'waited'" := (Retry.waited pow backoff_factor).
Local Notation "'failed_attempt'" :=
  (Retry.failed_attempt pow net max_retries backoff_factor).

Lemma request_then : forall a (m : M event (outcome (option response))),
  (when (0 <? a) (emit RotateUserAgent) ;;
   emit (Pause (uniform_1_3 net a)) ;;
   emit (Get a) ;;
   m)%trace
  = (request_events net a ++ trace m, result m).
Proof.
  intros a [t r]. unfold request_events.
  now destruct (0 <? a).
Qed.

Lemma back_off_taken : forall a rest,
  accepted a = true ->
  back_off pow backoff_factor a rest = (waited a ++ trace rest, result rest).
Proof.
  intros a [t r]. unfold Retry.accepted, Retry.waited, back_off.
  destruct (wait_time pow backoff_factor a) as [secs|]; [|discriminate].
  now intros ->.
Qed.

Lemma back_off_refused : forall a rest,
  accepted a = false -> back_off pow backoff_factor a rest = ([], Raised).
Proof.
  intros a rest. unfold Retry.accepted, back_off.
  destruct (wait_time pow backoff_factor a) as [secs|]; [|reflexivity].
  now intros ->.
Qed.

Lemma attempt_step : forall rem a,
  loop (S rem) a
  = (when (0 <? a) (emit RotateUserAgent) ;;
     emit (Pause (uniform_1_3 net a)) ;;
     emit (Get a) ;;
     match replies net a with
     | Got r =>
         if status_code r =? 403 then
           back_off pow backoff_factor a (loop rem (S a))
         else if negb (status_code r =? 200) then
           back_off pow backoff_factor a (loop rem (S a))
         else ret (Returned (Some r))
     | RequestException =>
         if a <? max_retries - 1 then
           back_off pow backoff_factor a (loop rem (S a))
         else loop rem (S a)
     end)%trace.
Proof. reflexivity. Qed.

(** A failed attempt after which the loop goes on. *)
Lemma failed_retried : forall rem a,
  failed (replies net a) = true ->
  (backs_off a = true -> accepted a = true) ->
  loop (S rem) a
  = (failed_attempt a ++ trace (loop rem (S a)), result (loop rem (S a))).
Proof.
  intros rem a Hf Hacc. rewrite attempt_step, request_then.
  unfold Retry.failed_attempt, Retry.backs_off in *.
  destruct (replies net a) as [r|]; simpl in Hf.
  - specialize (Hacc eq_refl).
    assert ((if status_code r =? 403
             then back_off pow backoff_factor a (loop rem (S a))
             else if negb (status_code r =? 200)
                  then back_off pow backoff_factor a (loop rem (S a))
                  else ret (Returned (Some r)))
            = back_off pow backoff_factor a (loop rem (S a))) as ->
      by (rewrite Hf; now destruct (status_code r =? 403)).
    rewrite (back_off_taken _ _ Hacc). unfold trace, result. simpl.
    now rewrite <- app_assoc.
  - destruct (a <? max_retries - 1).
    + rewrite (back_off_taken _ _ (Hacc eq_refl)). unfold trace, result. simpl.
      now rewrite <- app_assoc.
    + now rewrite app_nil_r.
Qed.

(** A failed attempt whose wait does not evaluate, or is one that
    [time.sleep] refuses: the exception leaves the loop. *)
Lemma failed_refused : forall rem a,
  failed (replies net a) = true ->
  backs_off a = true -> accepted a = false ->
  loop (S rem) a = (request_events net a, Raised).
Proof.
  intros rem a Hf Hb Hacc. rewrite attempt_step, request_then.
  unfold Retry.backs_off in Hb.
  destruct (replies net a) as [r|]; simpl in Hf.
  - rewrite Hf. destruct (status_code r =? 403);
      rewrite (back_off_refused _ _ Hacc); unfold trace, result; simpl;
      now rewrite app_nil_r.
  - rewrite Hb, (back_off_refused _ _ Hacc). unfold trace, result. simpl.
    now rewrite app_nil_r.
Qed.

Lemma ok_returned : forall rem a r,
  replies net a = Got r -> status_code r = 200 ->
  loop (S rem) a = (request_events net a, Returned (Some r)).
Proof.
  intros rem a r Hr H200. rewrite attempt_step, request_then, Hr, H200.
  unfold trace, result. simpl. now rewrite app_nil_r.
Qed.

(** [n] failures in a row, whatever their kind, are all retried when
    the waits are taken. *)
Lemma failures_retried : forall n rem a,
  (forall k, a <= k < a + n -> failed (replies net k) = true) ->
  (forall k, a <= k < a + n -> backs_off k = true -> accepted k = true) ->
  loop (n + rem) a
  = (flat_map failed_attempt (seq a n) ++ trace (loop rem (a + n)),
     result (loop rem (a + n))).
Proof.
  induction n as [|n IH]; intros rem a Hf Hacc.
  - simpl. rewrite Nat.add_0_r. now destruct (loop rem a).
  - change (S n + rem) with (S (n + rem)).
    rewrite failed_retried; [|apply Hf; lia | apply Hacc; lia].
    rewrite (IH rem (S a));
      [|intros k Hk; apply Hf; lia | intros k Hk; apply Hacc; lia].
    replace (S a + n) with (a + S n) by lia.
    cbn [trace result fst snd seq flat_map]. now rewrite <- app_assoc.
Qed.

(** The whole run: [n] failed attempts, then either a response with
    status 200 or no attempt left. *)
Lemma run_of_loop : forall n,
  n <= max_retries ->
  (forall k, k < n -> failed (replies net k) = true) ->
  (n < max_retries -> failed (replies net n) = false) ->
  waits_taken pow net max_retries backoff_factor n ->
  _make_request pow net max_retries backoff_factor
  = (flat_map failed_attempt (seq 0 n) ++
     (if n <? max_retries then request_events net n else []),
     Returned (if n <? max_retries then response_of (replies net n) else None)).
Proof.
  intros n Hn Hf Hok Hacc. unfold _make_request.
  assert (loop max_retries 0 = loop (n + (max_retries - n)) 0) as ->
    by (f_equal; lia).
  rewrite failures_retried;
    [|intros k Hk; apply Hf; lia | intros k Hk; apply Hacc; lia].
  simpl (0 + n).
  destruct (Nat.ltb_spec n max_retries) as [Hlt | Hge].
  - specialize (Hok Hlt).
    destruct (replies net n) as [r|] eqn:Hr; [|discriminate Hok].
    simpl in Hok. apply negb_false_iff, Nat.eqb_eq in Hok.
    replace (max_retries - n) with (S (max_retries - S n)) by lia.
    now rewrite (ok_returned _ n r Hr Hok).
  - replace (max_retries - n) with 0 by lia. reflexivity.
Qed.

Lemma failed_attempt_sent : forall a, requests_sent (failed_attempt a) = 1.
Proof.
  intro a. unfold Retry.failed_attempt, Retry.waited.
  rewrite requests_sent_app, requests_sent_events.
  destruct (backs_off a); [|reflexivity].
  now destruct (wait_time pow backoff_factor a).
Qed.

Lemma failed_attempts_sent : forall n a,
  requests_sent (flat_map failed_attempt (seq a n)) = n.
Proof.
  induction n as [|n IH]; intro a; [reflexivity|].
  simpl. now rewrite requests_sent_app, failed_attempt_sent, IH.
Qed.

Lemma all_failed :
  (forall k, k < max_retries -> failed (replies net k) = true) ->
  waits_taken pow net max_retries backoff_factor max_retries ->
  let m := _make_request pow net max_retries backoff_factor in
  result m = Returned None /\ requests_sent (trace m) = max_retries.
Proof.
  intros Hf Hacc m. subst m.
  rewrite (run_of_loop max_retries); try assumption; try lia.
  rewrite Nat.ltb_irrefl. unfold trace, result. simpl fst. simpl snd.
  split; [reflexivity|]. rewrite app_nil_r. apply failed_attempts_sent.
Qed.

Lemma success_after_failures : forall n r,
  n < max_retries ->
  (forall k, k < n -> failed (replies net k) = true) ->
  waits_taken pow net max_retries backoff_factor n ->
  replies net n = Got r -> status_code r = 200 ->
  let m := _make_request pow net max_retries backoff_factor in
  result m = Returned (Some r) /\ requests_sent (trace m) = S n.
Proof.
  intros n r Hn Hf Hacc Hr H200 m. subst m.
  rewrite (run_of_loop n); try assumption; try lia.
  - apply Nat.ltb_lt in Hn. rewrite Hn, Hr. unfold trace, result.
    simpl fst. simpl snd. split; [reflexivity|].
    rewrite requests_sent_app, failed_attempts_sent, requests_sent_events. lia.
  - intros _. rewrite Hr. simpl. now rewrite H200.
Qed.

End RequestLoop.

(** C6, as stated, fails.  The loop has no base-delay parameter:
    the wait is [backoff_factor ** attempt * 2], and before every
    request there is the pause of [uniform(1, 3)].  With three
    attempts and the factor 2 on a network that always times out, the
    waits between the attempts are 2 s and 4 s, not 1 s and 2 s. *)
Lemma backoff_base_is_two_seconds :
  _make_request products always_timeout 3 (Int 2)
  = ([Pause 1; Get 0; Wait (Int 2);
      RotateUserAgent; Pause 1; Get 1; Wait (Int 4);
      RotateUserAgent; Pause 1; Get 2], Returned None) /\
  waits (trace (_make_request products always_timeout 3 (Int 2))) = [Int 2; Int 4] /\
  waits (trace (_make_request products always_timeout 3 (Int 2))) <> [Int 1; Int 2] /\
  waits (trace (_make_request products always_timeout 3 (Float 2)))
  = [Float 2; Float 4].
Proof.
  split; [reflexivity|]. split; [reflexivity|]. split; [|reflexivity].
  vm_compute. intro H. discriminate H.
Qed.

(** C6, amended.  Take any run of [_make_request]: [n] failed
    attempts, followed by a response with status 200 or by the end of
    the attempts, with waits that evaluate and that [time.sleep]
    takes.  What it does is, in this order and nothing else: for each
    failed attempt a new user agent (from the second attempt on), the
    pause of [uniform(1, 3)], the request, and then the wait of
    [backoff_factor ** k * 2] seconds after the attempt [k] (counted
    from 0), which is there after every response that is not a 200,
    and after an exception unless the attempt is the last one; then
    the successful attempt if there is one: user agent, pause,
    request.  It returns that response, or [None] when all
    [max_retries] attempts failed.  The wait is computed as Python
    computes it: for an [int] factor [b] it is the integer
    [b ^ k * 2]; for a [float] factor it is the double 2.0 after the
    first attempt and then the double product of [pow(x, k)] and 2.
    With three attempts and the factor 2 on a network that always
    times out: request, wait of 2 s, request, wait of 4 s, request,
    and [None]. *)
Theorem backoff_waits : forall pow net max_retries backoff_factor n secs,
  let waits_after := fun k =>
    match replies net k with
    | Got _ => true
    | RequestException => k <? max_retries - 1
    end in
  n <= max_retries ->
  (forall k, k < n -> failed (replies net k) = true) ->
  (n < max_retries -> failed (replies net n) = false) ->
  (forall k, k < n -> waits_after k = true ->
     wait_time pow backoff_factor k = Some (secs k) /\
     sleep_accepts (secs k) = true) ->
  let before := fun k =>
    (if 0 <? k then [RotateUserAgent] else []) ++
    [Pause (uniform_1_3 net k); Get k] in
  _make_request pow net max_retries backoff_factor
  = (flat_map (fun k => before k ++
                        if waits_after k then [Wait (secs k)] else [])
              (seq 0 n) ++
     (if n <? max_retries then before n else []),
     Returned (if n <? max_retries then response_of (replies net n) else None)) /\
  (forall b k, wait_time pow (Int b) k = Some (Int (b ^ Z.of_nat k * 2))) /\
  (forall x, wait_time pow (Float x) 0 = Some (Float 2)) /\
  (forall x k, wait_time pow (Float x) (S k)
               = option_map (fun p => Float (p * 2)) (pow x (S k))) /\
  _make_request pow always_timeout 3 (Int 2)
  = ([Pause 1; Get 0; Wait (Int 2);
      RotateUserAgent; Pause 1; Get 1; Wait (Int 4);
      RotateUserAgent; Pause 1; Get 2], Returned None).
Proof.
  intros pow net max_retries backoff_factor n secs waits_after Hn Hf Hok Hw before.
  split; [|split; [apply wait_time_int|split; [apply wait_time_float_first|
           split; [apply wait_time_float_next | reflexivity]]]].
  rewrite (run_of_loop pow net max_retries backoff_factor n Hn Hf Hok).
  - f_equal. f_equal. apply flat_map_agree. intros k Hk.
    apply in_seq in Hk.
    unfold failed_attempt, request_events, waited, before.
    change (backs_off net max_retries k) with (waits_after k).
    destruct (waits_after k) eqn:Ew; [|reflexivity].
    destruct (Hw k) as [E _]; [lia | exact Ew |]. now rewrite E.
  - intros k Hk Hb. unfold accepted.
    now destruct (Hw k Hk Hb) as [-> ->].
Qed.

Lemma backoff_waits_witness :
  let net := mkNetwork (fun k => match k with
                                 | 0 => Got (mkResponse 404 "")
                                 | 1 => RequestException
                                 | _ => Got (mkResponse 200 "<html>")
                                 end) (fun _ => 2%float) in
  let secs := fun k => match k with 0 => Float 2 | _ => Float 3 end in
  (forall k, k < 2 -> failed (replies net k) = true) /\
  (forall k, k < 2 ->
     wait_time products (Float 1.5) k = Some (secs k) /\
     sleep_accepts (secs k) = true) /\
  _make_request products net 3 (Float 1.5)
  = ([Pause 2; Get 0; Wait (Float 2);
      RotateUserAgent; Pause 2; Get 1; Wait (Float 3);
      RotateUserAgent; Pause 2; Get 2],
     Returned (Some (mkResponse 200 "<html>"))).
Proof.
  intros net secs.
  assert (forall k, k < 2 -> failed (replies net k) = true) as Hf.
  { intros k Hk. destruct k as [|[|k]]; [reflexivity | reflexivity | lia]. }
  assert (forall k, k < 2 ->
            wait_time products (Float 1.5) k = Some (secs k) /\
            sleep_accepts (secs k) = true) as Hw.
  { intros k Hk. destruct k as [|[|k]]; [now split | now split | lia]. }
  split; [exact Hf|]. split; [exact Hw|].
  destruct (backoff_waits products net 3 (Float 1.5) 2 secs) as [H _];
    [lia | exact Hf | reflexivity | intros k Hk _; exact (Hw k Hk) |].
  exact H.
Defined.

(** C7, as stated, fails.  A 404 is retried like any other status
    that is not 200: on a server that answers 404 and then 200, the
    loop waits, sends a second request and returns its response. *)
Lemma not_found_is_retried :
  replies not_found_then_ok 0 = Got (mkResponse 404 "") /\
  _make_request products not_found_then_ok 3 (Float 1.5)
  = ([Pause 1; Get 0; Wait (Float 2); RotateUserAgent; Pause 1; Get 1],
     Returned (Some (mkResponse 200 "<html>"))) /\
  requests_sent (trace (_make_request products not_found_then_ok 3 (Float 1.5))) = 2.
Proof. repeat split. Qed.

(** C7, amended.  While attempts remain, [_make_request] tries again
    after every failed attempt, whatever the failure: an exception of
    the request (a timeout, a connection failure) or a response with
    any status other than 200, so 403, 429 and the 5xx, and 404 and
    the other 4xx as well.  Only a response with status 200 ends the
    loop: it is returned after as many requests as it took, and when
    all [max_retries] attempts fail the result is [None].  This is so
    for every backoff factor whose waits [time.sleep] takes, the
    default among them; a wait that it refuses (a negative one, from
    a negative factor) raises out of the call instead. *)
Theorem every_failure_is_retried : forall pow net max_retries backoff_factor,
  let m := _make_request pow net max_retries backoff_factor in
  (forall n r,
      n < max_retries ->
      (forall k, k < n -> failed (replies net k) = true) ->
      waits_taken pow net max_retries backoff_factor n ->
      replies net n = Got r -> status_code r = 200 ->
      result m = Returned (Some r) /\ requests_sent (trace m) = S n) /\
  ((forall k, k < max_retries -> failed (replies net k) = true) ->
   waits_taken pow net max_retries backoff_factor max_retries ->
      result m = Returned None /\ requests_sent (trace m) = max_retries) /\
  (forall status body,
      status <> 200 -> failed (Got (mkResponse status body)) = true) /\
  failed RequestException = true /\
  (forall k, k < default_max_retries ->
             accepted products default_backoff_factor k = true).
Proof.
  intros pow net max_retries backoff_factor m.
  split.
  { intros n r Hn Hf Hacc Hr H200.
    now apply (success_after_failures pow net max_retries backoff_factor n r). }
  split.
  { intros Hf Hacc.
    now apply (all_failed pow net max_retries backoff_factor Hf Hacc). }
  split.
  { intros status body Hs. simpl. apply negb_true_iff. now apply Nat.eqb_neq. }
  split; [reflexivity|].
  intros k Hk. destruct k as [|[|[|k]]]; try reflexivity.
  unfold default_max_retries in Hk. lia.
Qed.

Lemma every_failure_is_retried_witness :
  let net := mkNetwork (fun k => match k with
                                 | 0 => Got (mkResponse 404 "")
                                 | 1 => RequestException
                                 | _ => Got (mkResponse 200 "<html>")
                                 end) (fun _ => 2%float) in
  (forall k, k < 2 -> failed (replies net k) = true) /\
  waits_taken products net 3 (Float 1.5) 2 /\
  result (_make_request products net 3 (Float 1.5))
  = Returned (Some (mkResponse 200 "<html>")) /\
  requests_sent (trace (_make_request products net 3 (Float 1.5))) = 3.
Proof.
  intro net.
  assert (forall k, k < 2 -> failed (replies net k) = true) as Hf.
  { intros k Hk. destruct k as [|[|k]]; [reflexivity | reflexivity | lia]. }
  assert (waits_taken products net 3 (Float 1.5) 2) as Hacc.
  { intros k Hk _. destruct k as [|[|k]]; [reflexivity | reflexivity | lia]. }
  split; [exact Hf|]. split; [exact Hacc|].
  destruct (every_failure_is_retried products net 3 (Float 1.5)) as [H _].
  apply (H 2 (mkResponse 200 "<html>"));
    [lia | exact Hf | exact Hacc | reflexivity | reflexivity].
Defined.

End RetryClaims.

(** ** Claims about the backends of the Valor scraper *)

Module ValorClaims.

Import Valor.
Local Open Scope string_scope.
Local Open Scope valor_scope.

Lemma off_after_refl : forall s, driver s = false -> off_after s s.
Proof.
  intros s H. split; [exact H|]. exists []. now rewrite app_nil_r.
Qed.

Lemma off_after_trans : forall s1 s2 s3,
  off_after s1 s2 -> off_after s2 s3 -> off_after s1 s3.
Proof.
  intros s1 s2 s3 [_ [e1 [L1 F1]]] [D [e2 [L2 F2]]].
  split; [exact D|]. exists (e1 ++ e2)%list.
  rewrite L2, L1, app_assoc, forallb_app, F1, F2. now split.
Qed.

Lemma stays_off_ret : forall (A : Type) (a : A), stays_off (ret a).
Proof. intros A a s H. now apply off_after_refl. Qed.

Lemma stays_off_bind : forall (A B : Type) (m : M A) (f : A -> M B),
  stays_off m -> (forall a, stays_off (f a)) -> stays_off (bind m f).
Proof.
  intros A B m f Hm Hf s H. unfold bind.
  specialize (Hm s H). destruct (m s) as [a s1]. simpl in Hm.
  apply (off_after_trans _ _ _ Hm). apply Hf. apply Hm.
Qed.

Lemma stays_off_emit : forall e, on_requests e = true -> stays_off (emit e).
Proof.
  intros e He s H. split; [exact H|]. exists [e]. simpl. now rewrite He.
Qed.

Lemma stays_off_set_session : forall b, stays_off (set_session b).
Proof.
  intros b s H. split; [exact H|]. exists []. simpl. now rewrite app_nil_r.
Qed.

Lemma stays_off_read : forall (A : Type) (f : scraper -> A), stays_off (read f).
Proof. intros A f s H. now apply off_after_refl. Qed.

(** A test of [self.driver] takes the branch without driver. *)
Lemma stays_off_no_driver : forall (A : Type) (f : bool -> M A),
  stays_off (f false) -> stays_off (bind (read driver) f).
Proof.
  intros A f Hf s H. unfold bind, read. rewrite H. now apply Hf.
Qed.

Ltac off_step :=
  first
    [ apply stays_off_ret
    | apply stays_off_emit; reflexivity
    | apply stays_off_set_session
    | apply stays_off_no_driver; cbv beta; cbn [negb]
    | apply stays_off_read
    | assumption
    | match goal with
      | |- stays_off (if ?b then _ else _) => destruct b
      | |- stays_off (match ?x with Some _ => _ | None => _ end) => destruct x
      end
    | apply stays_off_bind; [|intro] ].

Ltac off := repeat off_step.

Lemma _init_requests_session_off : stays_off _init_requests_session.
Proof. unfold _init_requests_session. off. Qed.

Lemma _make_request_off : forall ok, stays_off (_make_request ok).
Proof.
  intro ok. unfold _make_request.
  pose proof _init_requests_session_off. off.
Qed.

Lemma _login_with_requests_off : forall o, stays_off (_login_with_requests o).
Proof.
  intro o. unfold _login_with_requests.
  pose proof _make_request_off as Hreq.
  off.
Qed.

Lemma login_off : forall o, stays_off (login o).
Proof.
  intro o. unfold login.
  pose proof (_login_with_requests_off o). off.
Qed.

Lemma request_pages_off : forall pages, stays_off (request_pages pages).
Proof.
  induction pages as [|ok pages IH]; simpl; [apply stays_off_ret|].
  pose proof (_make_request_off ok). off.
Qed.

Lemma search_news_requests_off : forall o, stays_off (_search_news_requests o).
Proof.
  intro o. unfold _search_news_requests.
  pose proof (request_pages_off (requests_pages o)). off.
Qed.

Lemma search_news_off : forall o, stays_off (search_news o).
Proof.
  intro o. unfold search_news, _search_news_requests.
  pose proof (login_off (search_login o)).
  pose proof (request_pages_off (requests_pages o)). off.
Qed.

Lemma extract_news_data_off : forall o, stays_off (extract_news_data o).
Proof.
  intro o. unfold extract_news_data, _extract_news_data_requests.
  pose proof (_make_request_off (first_ok o)).
  pose proof (_make_request_off (second_ok o)).
  pose proof (_login_with_requests_off (relogin o)). off.
Qed.

Lemma close_off : stays_off close.
Proof. unfold close. off. Qed.

Lemma extract_each_off : forall details urls i,
  stays_off (extract_each details i urls).
Proof.
  intros details. induction urls as [|u urls IH]; intro i; simpl.
  - apply stays_off_ret.
  - pose proof (extract_news_data_off (details i)).
    pose proof (IH (S i)). off.
Qed.

Lemma run_scraper_off : forall o details, stays_off (run_scraper o details).
Proof.
  intros o details. unfold run_scraper.
  pose proof (search_news_off o). pose proof close_off.
  apply stays_off_bind; [assumption | intro urls].
  pose proof (extract_each_off details urls 0). off.
Qed.

Lemma perform_off : forall c, stays_off (perform c).
Proof.
  intros [o | o | o | o details |]; simpl.
  - pose proof (login_off o). off.
  - pose proof (search_news_off o). off.
  - pose proof (extract_news_data_off o). off.
  - pose proof (run_scraper_off o details). off.
  - apply close_off.
Qed.

Lemma perform_all_off : forall cs, stays_off (perform_all cs).
Proof.
  induction cs as [|c cs IH]; simpl; [apply stays_off_ret|].
  pose proof (perform_off c). off.
Qed.

(** The log of a scraper just constructed: the session when asked
    for, then one entry into [_init_selenium]. *)
Lemma new_log : forall creds fallback starts,
  log (new creds fallback starts)
  = ((if fallback then [InitRequestsSession] else []) ++ [InitSelenium])%list.
Proof. intros creds [|] [|]; reflexivity. Qed.

Lemma on_requests_facts : forall evs,
  forallb on_requests evs = true ->
  filter is_init_selenium evs = [] /\
  forallb (fetched_with Requests) (filter is_fetch evs) = true.
Proof.
  induction evs as [|e evs IH]; intro H; [now split|].
  simpl in H. apply andb_true_iff in H as [He Hevs].
  destruct (IH Hevs) as [I1 I2].
  destruct e as [| |[|]|]; simpl in *; try discriminate; now split.
Qed.

(** *** The operations of a scraper without driver *)

Lemma bind_at : forall (A B : Type) (m : M A) (f : A -> M B) s,
  bind m f s = f (fst (m s)) (snd (m s)).
Proof. intros A B m f s. unfold bind. now destruct (m s). Qed.

(** A computation that starts with [_make_request] fetches a page
    with requests. *)
Lemma starts_with_request : forall (A : Type) ok (f : bool -> M A) s,
  (forall b, stays_off (f b)) -> driver s = false ->
  fetched_on_requests s (snd (bind (_make_request ok) f s)).
Proof.
  intros A ok f s Hf Hd.
  unfold bind at 1.
  destruct (_make_request ok s) as [got s1] eqn:E.
  assert (driver s1 = false /\
          exists pre, log s1 = (log s ++ pre ++ [Fetch Requests])%list /\
                      forallb on_requests pre = true) as (Hd1 & pre & L1 & F1).
  { unfold _make_request, bind, read, _init_requests_session, emit, set_session,
      ret in E.
    destruct (session s); simpl in E; injection E as _ <-; simpl.
    - split; [exact Hd|]. now exists [].
    - split; [exact Hd|]. exists [InitRequestsSession].
      now rewrite <- app_assoc. }
  destruct (Hf got s1 Hd1) as [_ (evs & L & F)].
  exists (pre ++ [Fetch Requests] ++ evs)%list.
  split; [rewrite L, L1; now rewrite <- !app_assoc|].
  split; [apply in_or_app; right; now left|].
  now rewrite !forallb_app, F1, F.
Qed.

Lemma _extract_news_data_requests_fetches : forall o s,
  driver s = false ->
  fetched_on_requests s (snd (_extract_news_data_requests o s)).
Proof.
  intros o s Hd. unfold _extract_news_data_requests.
  apply starts_with_request; [|exact Hd]. intro b.
  pose proof (_make_request_off (second_ok o)).
  pose proof (_login_with_requests_off (relogin o)). off.
Qed.

Lemma _login_with_requests_fetches : forall o s,
  driver s = false ->
  fetched_on_requests s (snd (_login_with_requests o s)).
Proof.
  intros o s Hd. unfold _login_with_requests.
  apply starts_with_request; [|exact Hd]. intro b.
  pose proof (_make_request_off (account_ok o)). off.
Qed.

(** After a login with requests there is a session. *)
Lemma _login_with_requests_session : forall o s,
  session (snd (_login_with_requests o s)) = true.
Proof.
  intros [a b c d e f g h] [cr fb se dr l].
  destruct se, c, d, e, f, g, h; reflexivity.
Qed.

(** With a session, [request_pages] fetches the pages it asks for,
    and does nothing else. *)
Lemma request_pages_log : forall pages s,
  session s = true ->
  log (snd (request_pages pages s))
  = (log s ++ repeat (Fetch Requests) (pages_requested pages))%list.
Proof.
  induction pages as [|ok pages IH]; intros [cr fb se dr l] Hs;
    simpl in Hs; subst se.
  - simpl. now rewrite app_nil_r.
  - cbn [request_pages]. unfold bind at 1.
    change (_make_request ok (mkScraper cr fb true dr l))
      with (ok, mkScraper cr fb true dr (l ++ [Fetch Requests])).
    destruct ok; cbn [negb].
    + rewrite IH by reflexivity. cbn [log pages_requested repeat].
      now rewrite <- app_assoc.
    + reflexivity.
Qed.

Lemma fetched_on_requests_trans : forall s1 s2 s3,
  fetched_on_requests s1 s2 -> off_after s2 s3 -> fetched_on_requests s1 s3.
Proof.
  intros s1 s2 s3 (e1 & L1 & I1 & F1) [_ (e2 & L2 & F2)].
  exists (e1 ++ e2)%list. split; [rewrite L2, L1; now rewrite app_assoc|].
  split; [apply in_or_app; now left | now rewrite forallb_app, F1, F2].
Qed.

(** C9.  Take a scraper whose constructor ended without a driver,
    because Selenium did not start.  Whatever calls follow (logins,
    searches, detail fetches, whole runs, closes) and whatever the
    site answers: the driver is still absent at the end, every page
    was fetched with requests, and [_init_selenium] was entered once
    in all, in the constructor.  And the operations do run, on the
    requests backend: at any such moment [extract_news_data] is
    [_extract_news_data_requests] and fetches the page with requests;
    with credentials, [login] is [_login_with_requests] and
    [search_news] is that login followed, when it succeeds, by
    [_search_news_requests], which fetches with requests each result
    page it asks for and returns the urls found there.  A constructor
    whose Selenium does not start always ends without a driver, and so
    does one called with [use_requests_fallback=False], which has no
    user agents to start Selenium with. *)
Theorem fallback_is_permanent : forall creds fallback starts calls,
  driver (new creds fallback starts) = false ->
  let s := snd (perform_all calls (new creds fallback starts)) in
  driver s = false /\
  fetches_all_with Requests (log s) = true /\
  selenium_inits (log s) = 1 /\
  (forall o,
      extract_news_data o s = _extract_news_data_requests o s /\
      fetched_on_requests s (snd (extract_news_data o s))) /\
  (forall o, credentials s = true ->
      login o s = _login_with_requests o s /\
      fetched_on_requests s (snd (login o s))) /\
  (forall o, credentials s = true ->
      search_news o s = search_on_requests o s /\
      fetched_on_requests s (snd (search_news o s)) /\
      (fst (_login_with_requests (search_login o) s) = true ->
       fst (search_news o s) = requests_urls o /\
       log (snd (search_news o s))
       = (log (snd (_login_with_requests (search_login o) s)) ++
          repeat (Fetch Requests) (pages_requested (requests_pages o)))%list)) /\
  driver (new creds fallback false) = false /\
  driver (new creds false starts) = false.
Proof.
  intros creds fallback starts calls Hoff s.
  destruct (perform_all_off calls _ Hoff) as [D [evs [L F]]].
  fold s in D, L.
  destruct (on_requests_facts evs F) as [F1 F2].
  split; [exact D|].
  unfold fetches_all_with, selenium_inits.
  rewrite L, new_log, !filter_app, F1, forallb_app, F2.
  split; [now destruct fallback|].
  split; [now destruct fallback|].
  assert (forall o, extract_news_data o s = _extract_news_data_requests o s) as He.
  { intro o. unfold extract_news_data, bind at 1, read. now rewrite D. }
  assert (forall o, credentials s = true -> login o s = _login_with_requests o s)
    as Hl.
  { intros o Hc. unfold login, bind at 1, read. rewrite Hc. cbn [negb].
    unfold bind at 1. now rewrite D. }
  assert (forall o, credentials s = true -> search_news o s = search_on_requests o s)
    as Hs.
  { intros o Hc. unfold search_news, search_on_requests.
    rewrite (bind_at _ _ (login (search_login o)) _ s),
      (bind_at _ _ (_login_with_requests (search_login o)) _ s), (Hl _ Hc).
    pose proof (_login_with_requests_off (search_login o) s D) as [D2 _].
    destruct (_login_with_requests (search_login o) s) as [logged s2].
    cbn [fst snd] in *. destruct logged; cbn [negb]; [|reflexivity].
    rewrite (bind_at _ _ (read driver)). unfold read at 1 2. cbn [fst snd].
    now rewrite D2. }
  split.
  { intro o. split; [apply He|]. rewrite He.
    now apply _extract_news_data_requests_fetches. }
  split.
  { intros o Hc. split; [now apply Hl|]. rewrite (Hl o Hc).
    now apply _login_with_requests_fetches. }
  split.
  { intros o Hc. split; [now apply Hs|]. rewrite (Hs o Hc).
    unfold search_on_requests.
    rewrite (bind_at _ _ (_login_with_requests (search_login o)) _ s).
    pose proof (_login_with_requests_fetches (search_login o) s D) as Hf.
    pose proof (_login_with_requests_off (search_login o) s D) as [D2 _].
    pose proof (_login_with_requests_session (search_login o) s) as S2.
    destruct (_login_with_requests (search_login o) s) as [logged s2].
    cbn [fst snd] in *. split.
    - destruct logged; cbn [negb]; [|exact Hf].
      apply (fetched_on_requests_trans _ _ _ Hf).
      apply (search_news_requests_off o s2 D2).
    - intros ->. cbn [negb]. unfold _search_news_requests.
      rewrite (bind_at _ _ (request_pages (requests_pages o))).
      unfold ret. cbn [fst snd].
      split; [reflexivity | now apply request_pages_log]. }
  split; [now destruct fallback | now destruct starts].
Qed.

Lemma fallback_is_permanent_witness :
  let calls := [ SearchNews (mkSearch (mkLogin false true true true false true true true)
                                      false 2 ["https://v/1"] [true; true] ["https://v/1"]);
                 ExtractNewsData (mkExtract false false true
                                    (mkLogin false true true true false true false true)
                                    true true);
                 Close ] in
  let article := mkExtract false false false
                   (mkLogin false true true true false true true true) true true in
  driver (new true true false) = false /\
  let s := snd (perform_all calls (new true true false)) in
  driver s = false /\
  fetches_all_with Requests (log s) = true /\
  selenium_inits (log s) = 1 /\
  log (snd (extract_news_data article s)) = (log s ++ [Fetch Requests])%list /\
  fetched_on_requests s (snd (extract_news_data article s)).
Proof.
  intros calls article. split; [reflexivity|].
  destruct (fallback_is_permanent true true false calls eq_refl)
    as (H1 & H2 & H3 & H4 & _).
  split; [exact H1|]. split; [exact H2|]. split; [exact H3|].
  split; [reflexivity|]. exact (proj2 (H4 article)).
Defined.

End ValorClaims.

(* ================================================================= *)
(** * Further properties *)

(** ** What a match of the date patterns tells about the text *)

Module RegexSound.

Import Latin1 Regex Normalizer Latin1Facts RegexFacts DateFacts.
Local Open Scope string_scope.

(** A repetition that succeeds has taken a run of the class, within
    its bounds, and the rest of the pattern matched what follows. *)
Lemma rep_sound : forall p s lo hi k g,
  rep p lo hi s k = Some g ->
  exists d rest,
    s = d ++ rest /\ all p d = true /\ lo <= String.length d /\
    match hi with Some h => String.length d <= h | None => True end /\
    k rest = Some g.
Proof.
  intros p. induction s as [|c s IH]; intros lo hi k g H.
  - simpl in H. destruct (Nat.eqb_spec lo 0) as [->|]; [|discriminate].
    exists "", "". repeat split; try assumption; destruct hi; simpl; lia.
  - assert (stop : (if Nat.eqb lo 0 then k (String c s) else None) = Some g ->
                   exists d rest,
                     String c s = d ++ rest /\ all p d = true /\
                     lo <= String.length d /\
                     match hi with Some h => String.length d <= h | None => True end /\
                     k rest = Some g).
    { intro Hs. destruct (Nat.eqb_spec lo 0) as [->|]; [|discriminate].
      exists "", (String c s). repeat split; try assumption; destruct hi; simpl; lia. }
    simpl in H. destruct (p c && may_take hi) eqn:E; [|now apply stop].
    destruct (rep p (Nat.pred lo) (option_map Nat.pred hi) s k) as [g'|] eqn:R;
      [|now apply stop].
    injection H as ->.
    apply andb_true_iff in E as [Hc Hm].
    destruct (IH _ _ _ _ R) as (d & rest & -> & Hd & Hlo & Hhi & Hk).
    exists (String c d), rest. simpl. rewrite Hc, Hd.
    repeat split; try assumption; try lia.
    destruct hi as [[|h]|]; simpl in *; try discriminate; try exact I. lia.
Qed.

Lemma group_sound : forall p lo hi s k g,
  matches (Grp (Rep p lo hi)) s k = Some g ->
  exists d rest g',
    s = d ++ rest /\ g = d :: g' /\ all p d = true /\ lo <= String.length d /\
    match hi with Some h => String.length d <= h | None => True end /\
    k rest = Some g'.
Proof.
  intros p lo hi s k g H. rewrite matches_group in H.
  apply rep_sound in H as (d & rest & -> & Hd & Hlo & Hhi & Hk).
  rewrite consumed_prefix in Hk.
  destruct (k rest) as [g'|] eqn:K; [|discriminate].
  injection Hk as <-. exists d, rest, g'. repeat split; assumption.
Qed.

Lemma cls_sound : forall p s k g,
  matches (Cls p) s k = Some g ->
  exists c rest, s = String c rest /\ p c = true /\ k rest = Some g.
Proof.
  intros p [|c s] k g H; simpl in H; [discriminate|].
  destruct (p c) eqn:E; [|discriminate]. now exists c, s.
Qed.

Lemma search_sound : forall r s g,
  search r s = Some g ->
  exists before found,
    s = before ++ found /\ matches r found (fun _ => Some []) = Some g.
Proof.
  intros r. induction s as [|c s IH]; intros g H; simpl in H.
  - destruct (matches r "" (fun _ => Some [])) eqn:M; [|discriminate].
    injection H as ->. exists "", "". now split.
  - destruct (matches r (String c s) (fun _ => Some [])) eqn:M.
    + injection H as ->. exists "", (String c s). now split.
    + destruct (IH _ H) as (before & found & -> & Hm).
      now exists (String c before), found.
Qed.

(** Where the numeric pattern matches, and what it captures. *)
Lemma numeric_match : forall s g,
  search numeric_date s = Some g ->
  exists before d a m b y tail,
    s = before ++ d ++ String a (m ++ String b (y ++ tail)) /\
    g = [d; m; y] /\
    all is_digit d = true /\ 1 <= String.length d <= 2 /\
    all is_digit m = true /\ 1 <= String.length m <= 2 /\
    all is_digit y = true /\ 2 <= String.length y <= 4 /\
    is_sep a = true /\ is_sep b = true.
Proof.
  intros s g H.
  apply search_sound in H as (before & found & -> & H).
  unfold numeric_date in H. rewrite matches_cat in H.
  apply group_sound in H as (d & r1 & g1 & -> & -> & Hd & Ld & Ud & H).
  rewrite matches_cat in H.
  apply cls_sound in H as (a & r2 & -> & Ha & H).
  rewrite matches_cat in H.
  apply group_sound in H as (m & r3 & g2 & -> & -> & Hm & Lm & Um & H).
  rewrite matches_cat in H.
  apply cls_sound in H as (b & r4 & -> & Hb & H).
  apply group_sound in H as (y & tail & g3 & -> & -> & Hy & Ly & Uy & H).
  injection H as <-.
  exists before, d, a, m, b, y, tail. repeat split; assumption.
Qed.

(** The two texts [standardize_date] answers with null contain no
    digit, so the numeric pattern matches neither. *)
Lemma numeric_match_not_special : forall s g,
  search numeric_date s = Some g ->
  String.eqb s "" || String.eqb s date_not_found = false.
Proof.
  intros s g H.
  destruct (String.eqb_spec s "") as [->|_]; [discriminate|].
  destruct (String.eqb_spec s date_not_found) as [->|_]; [|reflexivity].
  rewrite no_digit_numeric in H by reflexivity. discriminate.
Qed.

Lemma digit_not_sign : forall c,
  is_digit c = true -> (code c =? 43)%nat || (code c =? 45)%nat = false.
Proof. intro c. by_code c. Qed.

(** [zfill(2)] of one or two digits is two digits. *)
Lemma zfill_two_digits : forall d,
  all is_digit d = true -> 1 <= String.length d <= 2 ->
  all is_digit (zfill 2 d) = true /\ String.length (zfill 2 d) = 2.
Proof.
  intros d Hd Ld. destruct d as [|c [|c' [|c'' d]]]; simpl in Ld; try lia.
  - simpl in Hd. apply andb_true_iff in Hd as [Hc _].
    unfold zfill. rewrite (digit_not_sign _ Hc). simpl. now rewrite Hc.
  - simpl in Hd. apply andb_true_iff in Hd as [Hc Hd].
    unfold zfill. rewrite (digit_not_sign _ Hc). simpl. now rewrite Hc, Hd.
Qed.

Lemma zfill_full : forall d,
  all is_digit d = true -> String.length d = 2 -> zfill 2 d = d.
Proof.
  intros d Hd Ld. destruct d as [|c [|c' [|c'' d]]]; simpl in Ld; try lia.
  simpl in Hd. apply andb_true_iff in Hd as [Hc _].
  unfold zfill. now rewrite (digit_not_sign _ Hc).
Qed.

(** The answer of [standardize_date] when the numeric pattern matches
    somewhere in the text. *)
Lemma numeric_answer : forall s g,
  search numeric_date s = Some g ->
  exists t, standardize_date s = Some t /\ day_month_year t.
Proof.
  intros s g H.
  pose proof (numeric_match_not_special s g H) as Hsp.
  destruct (numeric_match s g H)
    as (before & d & a & m & b & y & tail & _ & -> & Hd & Ld & Hm & Lm & Hy & Ly & _).
  unfold standardize_date. rewrite Hsp, H.
  destruct (zfill_two_digits d Hd Ld) as [Zd1 Zd2].
  destruct (zfill_two_digits m Hm Lm) as [Zm1 Zm2].
  eexists. split; [reflexivity|].
  exists (zfill 2 d), (zfill 2 m),
         (if Nat.eqb (String.length y) 2 then "20" ++ y else y).
  repeat split; try assumption.
  - destruct (Nat.eqb (String.length y) 2); [|exact Hy]. exact Hy.
  - destruct (Nat.eqb_spec (String.length y) 2) as [E|E]; simpl; lia.
  - destruct (Nat.eqb_spec (String.length y) 2) as [E|E]; simpl; lia.
Qed.

(** A text of the shape DD/MM/Y is handed back as it is. *)
Lemma day_month_year_fixed : forall t,
  day_month_year t -> standardize_date t = Some t.
Proof.
  intros t (dd & mm & yy & -> & Hd & Ld & Hm & Lm & Hy & Ly).
  change (dd ++ "/" ++ mm ++ "/" ++ yy)
    with (dd ++ String "/" (mm ++ String "/" yy)).
  rewrite <- (app_empty yy) at 1.
  rewrite (numeric_form dd mm yy "/"%char "/"%char "");
    try assumption; try lia; try reflexivity; [|now right].
  rewrite (zfill_full dd Hd Ld), (zfill_full mm Hm Lm).
  destruct (Nat.eqb_spec (String.length yy) 2) as [E|_]; [lia | reflexivity].
Qed.

End RegexSound.

(** ** More about the normalizer *)

Module NormalizerExtras.

Import Latin1 Regex Normalizer.
Import Latin1Facts RegexFacts DateFacts FrameFacts RegexSound.
Local Open Scope string_scope.

Lemma drop_from_incl : forall df seen r, In r (drop_from seen df) -> In r df.
Proof.
  induction df as [|x df IH]; intros seen r H; simpl in H; [contradiction|].
  destruct (existsb (String.eqb (url x)) seen).
  - right. now apply (IH seen).
  - destruct H as [<- | H]; [now left | right; now apply (IH (url x :: seen))].
Qed.

Lemma drop_from_length : forall df seen,
  List.length (drop_from seen df) <= List.length df.
Proof.
  induction df as [|x df IH]; intro seen; simpl; [lia|].
  destruct (existsb (String.eqb (url x)) seen); simpl.
  - specialize (IH seen). lia.
  - specialize (IH (url x :: seen)). lia.
Qed.

(** Every row of the output is a row of the input, tidied and stamped. *)
Lemma clean_row_origin : forall ties now df r',
  In r' (clean_and_structure_data ties now df) ->
  exists r, In r df /\ r' = set_extraction_date now (tidy r).
Proof.
  intros ties now df r' H. rewrite clean_pipeline in H.
  apply in_map_iff in H as (x & <- & Hx).
  apply (Permutation_in x (sort_values_perm _ _)) in Hx.
  apply in_map_iff in Hx as (r & <- & Hr).
  exists r. split; [|reflexivity]. now apply (drop_from_incl df []).
Qed.

Lemma clean_length : forall ties now df,
  List.length (clean_and_structure_data ties now df)
  = List.length (drop_duplicates df).
Proof.
  intros ties now df. rewrite clean_pipeline, length_map.
  rewrite (Permutation_length (sort_values_perm _ _)). apply length_map.
Qed.

(** X1.  Every row of the output of [clean_and_structure_data] is a
    row of the input in which only this changed: the four optional
    columns hold a value (the one they had, or the text for "not
    informed" where they had none), [date_standardized] is
    [standardize_date] of the raw date, and [extraction_date] is the
    clock reading.  Url, title, raw date and source are untouched. *)
Theorem output_row_origin : forall ties now df out_row,
  In out_row (clean_and_structure_data ties now df) ->
  exists r,
    In r df /\
    url out_row = url r /\ title out_row = title r /\
    date out_row = date r /\ source out_row = source r /\
    complete out_row = true /\
    buyer out_row = Some (match buyer r with Some v => v | None => not_informed end) /\
    acquired out_row = Some (match acquired r with Some v => v | None => not_informed end) /\
    value out_row = Some (match value r with Some v => v | None => not_informed end) /\
    multiple out_row = Some (match multiple r with Some v => v | None => not_informed end) /\
    date_standardized out_row = standardize_date (date r) /\
    extraction_date out_row = Some now.
Proof.
  intros ties now df out_row H.
  destruct (clean_row_origin ties now df out_row H) as (r & Hr & ->).
  exists r. split; [exact Hr|].
  destruct r as [u t d b a v m s ds ed]. simpl.
  destruct b, a, v, m; repeat split.
Qed.

Lemma output_row_origin_witness :
  let df := [ mkRow "https://x/1" "A" "7-3-24" (Some "Acme") None None None
                    (Some "Pipeline Valor") None None ] in
  let out_row := mkRow "https://x/1" "A" "7-3-24" (Some "Acme")
                       (Some not_informed) (Some not_informed) (Some not_informed)
                       (Some "Pipeline Valor") (Some "07/03/2024") (Some "now") in
  In out_row (clean_and_structure_data reversing "now" df) /\
  exists r, In r df /\ buyer out_row = Some (match buyer r with Some v => v | None => not_informed end)
            /\ complete out_row = true.
Proof.
  intros df out_row.
  assert (In out_row (clean_and_structure_data reversing "now" df)) as Hin by (now left).
  split; [exact Hin|].
  destruct (output_row_origin reversing "now" df out_row Hin)
    as (r & Hr & _ & _ & _ & _ & Hc & Hb & _).
  exists r. repeat split; assumption.
Defined.

(** X2.  The urls of the output of [clean_and_structure_data] are
    pairwise different and are exactly the urls of the input; the
    output has as many rows as the input has different urls, so never
    more rows than the input, and as many when the input has no
    repeated url. *)
Theorem output_urls : forall ties now df,
  let out := clean_and_structure_data ties now df in
  NoDup (map url out) /\
  (forall u, In u (map url out) <-> In u (map url df)) /\
  List.length out <= List.length df /\
  (NoDup (map url df) -> List.length out = List.length df).
Proof.
  intros ties now df out. subst out.
  split; [apply clean_urls_NoDup|].
  split.
  { intro u. split; intro H.
    - apply in_map_iff in H as (r' & <- & Hr').
      destruct (clean_row_origin ties now df r' Hr') as (r & Hr & ->).
      change (url (set_extraction_date now (tidy r))) with (url r).
      now apply in_map.
    - apply in_map_iff in H as (r & <- & Hr). now apply clean_keeps_urls. }
  rewrite clean_length. split; [apply drop_from_length|].
  intro Hnd. now rewrite (drop_duplicates_fixed df Hnd).
Qed.

Lemma output_urls_witness :
  let df := [ scraped "https://x/1" "A" "02/01/2024";
              scraped "https://x/2" "B" "03/01/2024" ] in
  NoDup (map url df) /\
  List.length (clean_and_structure_data reversing "now" df) = 2.
Proof.
  intro df.
  assert (NoDup (map url df)) as Hnd.
  { repeat constructor; simpl; intuition discriminate. }
  split; [exact Hnd|].
  destruct (output_urls reversing "now" df) as (_ & _ & _ & H). exact (H Hnd).
Defined.

Lemma forallb_In : forall (A : Type) (f : A -> bool) l x,
  forallb f l = true -> In x l -> f x = true.
Proof. intros A f l x H Hx. rewrite forallb_forall in H. now apply H. Qed.

(** X3.  The output of [clean_and_structure_data] is in two parts:
    first the rows whose [date_standardized] is a text, each followed
    by one whose text is not greater in the order of Python strings
    (descending order of the texts), then the rows whose
    [date_standardized] is null. *)
Theorem output_order : forall ties now df,
  exists keyed missing,
    clean_and_structure_data ties now df = (keyed ++ missing)%list /\
    (forall r, In r keyed -> date_standardized r <> None) /\
    (forall r, In r missing -> date_standardized r = None) /\
    descending keyed = true /\
    (forall front a b back,
        keyed = (front ++ a :: b :: back)%list ->
        String.leb (key b) (key a) = true).
Proof.
  intros ties now df.
  destruct (clean_output_order ties now df) as (keyed & missing & E & Hk & Hm & Hd).
  exists keyed, missing. split; [exact E|].
  split.
  { intros r Hr. pose proof (forallb_In _ notna keyed r Hk Hr) as N.
    unfold notna in N. now destruct (date_standardized r). }
  split.
  { intros r Hr. pose proof (forallb_In _ isna missing r Hm Hr) as N.
    unfold isna, notna in N. now destruct (date_standardized r). }
  split; [exact Hd|].
  intros front a b back ->. clear E Hk.
  induction front as [|x front IH]; simpl in Hd.
  - now apply andb_true_iff in Hd as [Hd _].
  - apply IH. destruct (front ++ a :: b :: back)%list eqn:F.
    + now destruct front.
    + now apply andb_true_iff in Hd as [_ Hd].
Qed.

Lemma output_order_witness :
  let out := clean_and_structure_data reversing "now"
               [ scraped "https://x/1" "A" "";
                 scraped "https://x/2" "B" "01/02/2024";
                 scraped "https://x/3" "C" "02/01/2024" ] in
  map url out = ["https://x/3"; "https://x/2"; "https://x/1"] /\
  exists keyed missing, out = (keyed ++ missing)%list /\ descending keyed = true.
Proof.
  intro out. split; [reflexivity|].
  destruct (output_order reversing "now"
              [ scraped "https://x/1" "A" "";
                scraped "https://x/2" "B" "01/02/2024";
                scraped "https://x/3" "C" "02/01/2024" ])
    as (keyed & missing & E & _ & _ & Hd & _).
  exists keyed, missing. now split.
Defined.

(** *** The shape of the dates [standardize_date] answers with *)

Lemma strip_sound : forall lit s rest, strip lit s = Some rest -> s = lit ++ rest.
Proof.
  induction lit as [|c lit IH]; intros s rest H; simpl in H.
  - now injection H as ->.
  - destruct s as [|c' s]; [discriminate|].
    destruct (Ascii.eqb_spec c c') as [<-|]; [|discriminate].
    simpl. f_equal. now apply IH.
Qed.

Lemma str_sound : forall lit s k g,
  matches (Str lit) s k = Some g ->
  exists rest, s = lit ++ rest /\ k rest = Some g.
Proof.
  intros lit s k g H. simpl in H.
  destruct (strip lit s) as [rest|] eqn:E; [|discriminate].
  exists rest. split; [now apply strip_sound | exact H].
Qed.

(** Where the long pattern matches, and what it captures. *)
Lemma long_match : forall s g,
  findall_first long_date s = Some g ->
  exists before d w y tail,
    s = before ++ d ++ " de " ++ w ++ " de " ++ y ++ tail /\
    g = [d; w; y] /\
    all is_digit d = true /\ 1 <= String.length d /\
    all is_word w = true /\ 1 <= String.length w /\
    all is_digit y = true /\ String.length y = 4.
Proof.
  intros s g H. unfold findall_first in H.
  apply search_sound in H as (before & found & -> & H).
  unfold long_date in H. rewrite matches_cat in H.
  apply group_sound in H as (d & r1 & g1 & -> & -> & Hd & Ld & _ & H).
  rewrite matches_cat in H.
  apply str_sound in H as (r2 & -> & H).
  rewrite matches_cat in H.
  apply group_sound in H as (w & r3 & g2 & -> & -> & Hw & Lw & _ & H).
  rewrite matches_cat in H.
  apply str_sound in H as (r4 & -> & H).
  apply group_sound in H as (y & tail & g3 & -> & -> & Hy & Ly & Uy & H).
  injection H as <-.
  exists before, d, w, y, tail. repeat split; try assumption. lia.
Qed.

Lemma dict_get_range : forall m key default,
  In (dict_get m key default) (default :: map snd m).
Proof.
  induction m as [|[k v] m IH]; intros key default; simpl; [now left|].
  destruct (String.eqb k key); [right; now left|].
  destruct (IH key default) as [E | H]; [now left | right; now right].
Qed.

(** The month [standardize_date] writes is always two digits. *)
Lemma month_two_digits : forall key,
  all is_digit (dict_get month_map key "01") = true /\
  String.length (dict_get month_map key "01") = 2.
Proof.
  intro key.
  assert (forall v, In v ("01" :: map snd month_map) ->
                    all is_digit v = true /\ String.length v = 2) as Hall.
  { intros v Hv. simpl in Hv.
    repeat (destruct Hv as [<- | Hv]; [split; reflexivity|]). contradiction. }
  apply Hall, dict_get_range.
Qed.

(** X4.  Whenever the numeric pattern is found somewhere in the text,
    [standardize_date] answers a text of the shape DD/MM/Y: day and
    month of exactly two digits, a year of three or four digits (a year
    of two digits has become 20YY), slashes between, whatever the
    separators and the widths in the input and whatever surrounds the
    date. *)
Theorem numeric_date_shape : forall s g,
  search numeric_date s = Some g ->
  exists d m y t,
    g = [d; m; y] /\
    standardize_date s = Some t /\
    t = zfill 2 d ++ "/" ++ zfill 2 m ++ "/" ++
        (if Nat.eqb (String.length y) 2 then "20" ++ y else y) /\
    day_month_year t.
Proof.
  intros s g H.
  destruct (numeric_answer s g H) as (t & Ht & Hshape).
  destruct (numeric_match s g H) as (_ & d & _ & m & _ & y & _ & _ & -> & _).
  exists d, m, y, t. split; [reflexivity|]. split; [exact Ht|]. split; [|exact Hshape].
  unfold standardize_date in Ht.
  rewrite (numeric_match_not_special s _ H), H in Ht. now injection Ht as <-.
Qed.

Lemma numeric_date_shape_witness :
  search numeric_date "Publicado em 7.3.24, 10h" = Some ["7"; "3"; "24"] /\
  standardize_date "Publicado em 7.3.24, 10h" = Some "07/03/2024" /\
  day_month_year "07/03/2024".
Proof.
  assert (search numeric_date "Publicado em 7.3.24, 10h" = Some ["7"; "3"; "24"])
    as H by reflexivity.
  split; [exact H|].
  destruct (numeric_date_shape _ _ H) as (d & m & y & t & Hg & Ht & -> & Hs).
  injection Hg as <- <- <-. split; [exact Ht | exact Hs].
Defined.

(** X5.  [standardize_date] applied to its own answer gives that
    answer again, for every text but one kind: a long form whose day
    has three digits or more (there the answer starts with that long
    day, and a second pass reads a shorter day in it, as in
    "123 de maio de 2024"). *)
Theorem standardize_date_again : forall s t,
  standardize_date s = Some t ->
  (search numeric_date s = None ->
   forall d w y, findall_first long_date s = Some [d; w; y] ->
                 String.length d <= 2) ->
  standardize_date t = Some t.
Proof.
  intros s t H Hday.
  destruct (search numeric_date s) as [g|] eqn:N.
  - destruct (numeric_answer s g N) as (t' & Ht' & Hshape).
    rewrite Ht' in H. injection H as <-. now apply day_month_year_fixed.
  - specialize (Hday eq_refl).
    destruct (findall_first long_date s) as [g|] eqn:L.
    + destruct (long_match s g L)
        as (_ & d & w & y & _ & _ & -> & Hd & Ld & _ & _ & Hy & Ly).
      specialize (Hday d w y eq_refl).
      pose proof H as H0. unfold standardize_date in H0. rewrite N, L in H0.
      destruct (String.eqb s "" || String.eqb s date_not_found); [discriminate|].
      injection H0 as <-.
      apply day_month_year_fixed.
      destruct (zfill_two_digits d Hd (conj Ld Hday)) as [Z1 Z2].
      destruct (month_two_digits (lower w)) as [M1 M2].
      exists (zfill 2 d), (dict_get month_map (lower w) "01"), y.
      repeat split; try assumption; lia.
    + pose proof H as H0. unfold standardize_date in H0. rewrite N, L in H0.
      destruct (String.eqb s "" || String.eqb s date_not_found); [discriminate|].
      injection H0 as <-. exact H.
Qed.

Lemma standardize_date_again_witness :
  standardize_date "em 2 de maio de 2024" = Some "02/05/2024" /\
  standardize_date "02/05/2024" = Some "02/05/2024" /\
  standardize_date "123 de maio de 2024" = Some "123/05/2024" /\
  standardize_date "123/05/2024" = Some "23/05/2024".
Proof.
  split; [reflexivity|]. split; [|split; reflexivity].
  apply (standardize_date_again "em 2 de maio de 2024" "02/05/2024");
    [reflexivity|].
  intros _ d w y H. vm_compute in H. injection H as <- _ _. simpl. lia.
Defined.

Lemma lower_char_idem : forall c, lower_char (lower_char c) = lower_char c.
Proof. intro c. by_code c. Qed.

Lemma lower_char_word : forall c, is_word (lower_char c) = is_word c.
Proof. intro c. by_code c. Qed.

Lemma lower_idem : forall s, lower (lower s) = lower s.
Proof.
  induction s as [|c s IH]; simpl; [reflexivity|].
  now rewrite lower_char_idem, IH.
Qed.

Lemma lower_word : forall s, all is_word (lower s) = all is_word s.
Proof.
  induction s as [|c s IH]; simpl; [reflexivity|].
  now rewrite lower_char_word, IH.
Qed.

Lemma lower_length : forall s, String.length (lower s) = String.length s.
Proof. induction s as [|c s IH]; simpl; [reflexivity | now rewrite IH]. Qed.

(** X6.  The month word of the long form is read without regard to
    case: a word that lowercases to one of the twelve names of the
    table gives the month of that name. *)
Theorem month_name_any_case : forall d word name num y tail,
  In (name, num) month_map -> lower word = name ->
  all is_digit d = true -> 1 <= String.length d ->
  all is_digit y = true -> String.length y = 4 ->
  none is_sep tail = true ->
  standardize_date (d ++ " de " ++ word ++ " de " ++ y ++ tail)
  = Some (zfill 2 d ++ "/" ++ num ++ "/" ++ y).
Proof.
  intros d word name num y tail Hin Hlow Hd Ld Hy Ly Htail.
  destruct (NormalizerClaims.month_map_entry name num Hin) as (Hw & Lw & Hget).
  rewrite long_form; try assumption.
  - subst name. rewrite lower_idem in Hget. now rewrite Hget.
  - rewrite <- lower_word, Hlow. exact Hw.
  - rewrite <- lower_length, Hlow. exact Lw.
Qed.

Lemma month_name_any_case_witness :
  let word := "MAR" ++ String "199"%char "O" in
  In ("mar" ++ String c_cedilla "o", "03") month_map /\
  lower word = "mar" ++ String c_cedilla "o" /\
  standardize_date ("15 de " ++ word ++ " de 2024") = Some "15/03/2024".
Proof.
  intro word.
  assert (In ("mar" ++ String c_cedilla "o", "03") month_map) as Hin
    by (simpl; tauto).
  split; [exact Hin|]. split; [reflexivity|].
  apply (month_name_any_case "15" word _ "03" "2024" "" Hin);
    try reflexivity; simpl; lia.
Defined.

End NormalizerExtras.

(** ** More about the orchestrator *)

Module OrchestratorExtras.

Import Normalizer Orchestrator Trace TraceFacts FrameFacts OrchestratorClaims.
Local Open Scope string_scope.

Lemma tagged_source : forall name o r,
  In r (tagged name o) -> source r = Some name.
Proof.
  intros name [df|] r H; simpl in H; [|contradiction].
  destruct df as [|x df]; [contradiction|].
  cbn [empty negb] in H. apply in_map_iff in H as (r0 & <- & _). reflexivity.
Qed.

Lemma future_result_source : forall c w r,
  In r (future_result c w) -> has_source r = true.
Proof.
  intros c w r H. unfold has_source.
  destruct w; simpl in H.
  - unfold run_pipeline_valor in H. now rewrite (tagged_source _ _ _ H).
  - unfold run_valor_economico in H.
    destruct (valor_credentials c); [|contradiction].
    now rewrite (tagged_source _ _ _ H).
  - unfold run_fusoes_aquisicoes in H. now rewrite (tagged_source _ _ _ H).
Qed.

(** X7.  Every row that [run_all_sequential] or [run_all_parallel]
    returns names its source: the [source] column holds one of the
    three source names, written by the method that ran the scraper,
    whatever the scraper itself had put there and whatever order the
    futures complete in. *)
Theorem every_row_has_its_source : forall c as_completed r,
  In r (run_all_sequential c) \/ In r (run_all_parallel as_completed c) ->
  has_source r = true /\
  (In r (run_pipeline_valor c) -> source r = Some pipeline_valor_name) /\
  (In r (run_valor_economico c) -> source r = Some valor_economico_name) /\
  (In r (run_fusoes_aquisicoes c) -> source r = Some fusoes_aquisicoes_name).
Proof.
  intros c as_completed r H. split.
  - destruct H as [H | H].
    + rewrite sequential_is_concat in H.
      apply in_app_or in H as [H | H];
        [exact (future_result_source c future_pipeline r H)|].
      apply in_app_or in H as [H | H];
        [exact (future_result_source c future_valor r H)
        | exact (future_result_source c future_fusoes r H)].
    + rewrite parallel_is_concat in H.
      apply in_flat_map in H as (w & _ & H). exact (future_result_source c w r H).
  - repeat split; intro Hin.
    + exact (tagged_source _ _ _ Hin).
    + unfold run_valor_economico in Hin.
      destruct (valor_credentials c); [|contradiction].
      exact (tagged_source _ _ _ Hin).
    + exact (tagged_source _ _ _ Hin).
Qed.

Lemma every_row_has_its_source_witness :
  let c := mkCycle (Returned [mkRow "https://x/1" "A" "" None None None None
                                    (Some "elsewhere") None None])
                   Raised (Returned []) true in
  let r := mkRow "https://x/1" "A" "" None None None None
                 (Some pipeline_valor_name) None None in
  In r (run_all_sequential c) /\ has_source r = true.
Proof.
  intros c r.
  assert (In r (run_all_sequential c)) as Hin by (now left).
  split; [exact Hin|].
  exact (proj1 (every_row_has_its_source c all_futures r (or_introl Hin))).
Defined.

(** X8.  Without the two Valor credentials the Valor scraper is not
    consulted: two cycles that differ only in what that scraper would
    do give the same combined frame, sequentially and in parallel, and
    the sequential frame is that of the two other sources. *)
Theorem no_credentials_no_valor : forall c c' as_completed,
  valor_credentials c = false -> valor_credentials c' = false ->
  pipeline_scraper c' = pipeline_scraper c ->
  fusoes_scraper c' = fusoes_scraper c ->
  run_all_sequential c' = run_all_sequential c /\
  run_all_parallel as_completed c' = run_all_parallel as_completed c /\
  run_all_sequential c = (run_pipeline_valor c ++ run_fusoes_aquisicoes c)%list.
Proof.
  intros c c' as_completed Hc Hc' Hp Hf.
  assert (forall w, future_result c' w = future_result c w) as Hw.
  { intros [| |]; simpl.
    - unfold run_pipeline_valor. now rewrite Hp.
    - unfold run_valor_economico. now rewrite Hc, Hc'.
    - unfold run_fusoes_aquisicoes. now rewrite Hf. }
  rewrite !sequential_is_concat, !parallel_is_concat.
  split; [|split].
  - now rewrite (Hw future_pipeline : run_pipeline_valor c' = _),
      (Hw future_valor : run_valor_economico c' = _),
      (Hw future_fusoes : run_fusoes_aquisicoes c' = _).
  - apply flat_map_ext. exact Hw.
  - unfold run_valor_economico. now rewrite Hc.
Qed.

Lemma no_credentials_no_valor_witness :
  let c := mkCycle (Returned five_rows) (Returned five_rows) (Returned []) false in
  let c' := mkCycle (Returned five_rows) Raised (Returned []) false in
  run_all_sequential c' = run_all_sequential c /\
  List.length (run_all_sequential c) = 5.
Proof.
  intros c c'.
  destruct (no_credentials_no_valor c c' all_futures eq_refl eq_refl eq_refl eq_refl)
    as (H & _ & _).
  split; [exact H | reflexivity].
Defined.

(** *** [save_to_excel] *)

Lemma ends_with_rev_longer : forall x y z,
  ends_with_rev x y = true -> ends_with_rev x (y ++ z) = true.
Proof.
  induction x as [|a x IH]; intros y z H; [reflexivity|].
  destruct y as [|b y]; simpl in *; [discriminate|].
  apply andb_true_iff in H as [H1 H2]. now rewrite H1, (IH _ _ H2).
Qed.

Lemma endswith_longer : forall front s suffix,
  endswith s suffix = true -> endswith (front ++ s) suffix = true.
Proof.
  intros front s suffix H. unfold endswith in *.
  rewrite list_ascii_app, rev_app_distr. now apply ends_with_rev_longer.
Qed.

(** The file name [save_to_excel] settles on. *)
Lemma settled_name : forall ts filename,
  let given := if String.eqb filename "" then "ma_noticias_" ++ ts ++ ".xlsx"
               else filename in
  let name := if negb (endswith given ".xlsx") then given ++ ".xlsx" else given in
  endswith name ".xlsx" = true /\
  (endswith filename ".xlsx" = true -> name = filename) /\
  (filename = "" -> name = "ma_noticias_" ++ ts ++ ".xlsx").
Proof.
  intros ts filename given name. subst name given. split; [|split].
  - destruct (endswith (if String.eqb filename ""
                        then "ma_noticias_" ++ ts ++ ".xlsx" else filename)
                       ".xlsx") eqn:E; simpl; [exact E | apply endswith_app].
  - intro H. destruct (String.eqb_spec filename "") as [->|_].
    + discriminate H.
    + now rewrite H.
  - intros ->. simpl String.eqb. cbv iota.
    change ("ma_noticias_" ++ ts ++ ".xlsx") with (("ma_noticias_" ++ ts) ++ ".xlsx").
    now rewrite endswith_app.
Qed.

(** What one call of [save_to_excel] does. *)
Lemma save_cases : forall output_dir ts ok df filename,
  save_to_excel output_dir ts ok df filename = ([], None) \/
  (df <> [] /\ ok = true /\
   exists name,
     save_to_excel output_dir ts ok df filename
     = ([Excel (join output_dir name) df], Some (join output_dir name)) /\
     endswith name ".xlsx" = true /\
     (endswith filename ".xlsx" = true -> name = filename) /\
     (endswith filename ".xlsx" = false -> filename <> "" ->
      name = filename ++ ".xlsx") /\
     (filename = "" -> name = "ma_noticias_" ++ ts ++ ".xlsx")).
Proof.
  intros output_dir ts ok df filename. unfold save_to_excel.
  destruct df as [|r df]; [now left|].
  destruct ok; [|now left].
  right. split; [discriminate|]. split; [reflexivity|].
  eexists. split; [reflexivity|].
  destruct (settled_name ts filename) as (H1 & H2 & H3).
  split; [exact H1|]. split; [exact H2|]. split; [|exact H3].
  intros Hno Hne. apply String.eqb_neq in Hne. now rewrite Hne, Hno.
Qed.

(** X9.  [save_to_excel] writes nothing and returns [None] for an
    empty frame, and when [to_excel] fails.  Otherwise it writes the
    frame once and returns the path of the file, which is
    [os.path.join(output_dir, name)]: for a relative name the
    directory and the name with one separator between them, none
    added after a directory that is empty or ends with one; for an
    absolute name that name alone, outside the output directory.  The
    name always ends in ".xlsx": a name given with the extension is
    kept, one without it gets it appended, and without a name the
    file is "ma_noticias_<timestamp>.xlsx". *)
Theorem save_to_excel_paths : forall output_dir ts ok df filename,
  let m := save_to_excel output_dir ts ok df filename in
  (df = [] \/ ok = false -> m = ([], None)) /\
  (df <> [] -> ok = true ->
   exists name path,
     m = ([Excel path df], Some path) /\
     endswith name ".xlsx" = true /\
     (endswith filename ".xlsx" = true -> name = filename) /\
     (endswith filename ".xlsx" = false -> filename <> "" ->
      name = filename ++ ".xlsx") /\
     (filename = "" -> name = "ma_noticias_" ++ ts ++ ".xlsx") /\
     (String.prefix "/" name = true -> path = name) /\
     (String.prefix "/" name = false ->
      path = if String.eqb output_dir "" || endswith output_dir "/"
             then output_dir ++ name
             else output_dir ++ "/" ++ name)) /\
  (forall path, result m = Some path -> endswith path ".xlsx" = true).
Proof.
  intros output_dir ts ok df filename m. subst m.
  split; [|split].
  - intros [-> | ->]; [reflexivity|]. unfold save_to_excel. now destruct (empty df).
  - intros Hdf ->.
    destruct (save_cases output_dir ts true df filename)
      as [E | (_ & _ & name & E & H1 & H2 & H3 & H4)].
    + unfold save_to_excel in E. destruct df; [contradiction | discriminate E].
    + exists name, (join output_dir name).
      split; [exact E|]. split; [exact H1|]. split; [exact H2|].
      split; [exact H3|]. split; [exact H4|]. split.
      * intro Habs. unfold join. now rewrite Habs.
      * now apply join_relative.
  - intros path H.
    destruct (save_cases output_dir ts ok df filename)
      as [E | (_ & _ & name & E & H1 & _)]; rewrite E in H; [discriminate|].
    injection H as <-. now apply join_endswith.
Qed.

Lemma save_to_excel_paths_witness :
  save_to_excel "out" "20240301_120000" true five_rows "semana"
  = ([Excel "out/semana.xlsx" five_rows], Some "out/semana.xlsx") /\
  save_to_excel "out/" "20240301_120000" true five_rows "semana.xlsx"
  = ([Excel "out/semana.xlsx" five_rows], Some "out/semana.xlsx") /\
  save_to_excel "out" "20240301_120000" true five_rows "/tmp/semana"
  = ([Excel "/tmp/semana.xlsx" five_rows], Some "/tmp/semana.xlsx").
Proof.
  split; [|split].
  - destruct (save_to_excel_paths "out" "20240301_120000" true five_rows "semana")
      as (_ & H & _).
    destruct (H ltac:(discriminate) eq_refl)
      as (name & path & E & _ & _ & Hn & _ & _ & Hp).
    rewrite (Hn eq_refl ltac:(discriminate)) in Hp.
    now rewrite (Hp eq_refl) in E.
  - destruct (save_to_excel_paths "out/" "20240301_120000" true five_rows
                "semana.xlsx") as (_ & H & _).
    destruct (H ltac:(discriminate) eq_refl)
      as (name & path & E & _ & Hn & _ & _ & _ & Hp).
    rewrite (Hn eq_refl) in Hp.
    now rewrite (Hp eq_refl) in E.
  - destruct (save_to_excel_paths "out" "20240301_120000" true five_rows
                "/tmp/semana") as (_ & H & _).
    destruct (H ltac:(discriminate) eq_refl)
      as (name & path & E & _ & _ & Hn & _ & Hp & _).
    rewrite (Hn eq_refl ltac:(discriminate)) in Hp.
    now rewrite (Hp eq_refl) in E.
Defined.

(** *** [run_extraction] in any environment *)

Lemma clean_of_empty : forall ties now df,
  clean_and_structure_data ties now df <> [] -> df <> [].
Proof. intros ties now df H ->. now apply H. Qed.

(** What the loop of [run_extraction] can do from attempt [a] with
    [rem] attempts left: run at most [rem] cycles, and either write
    nothing and return [None], or write once the normalized frame of a
    non-empty run and return the path of the file. *)
Lemma loop_outcome : forall output_dir parallel max_retries e rem a,
  let r := attempts output_dir parallel max_retries e rem a in
  cycles_run (trace r) <= rem /\
  ((result r = None /\ written (trace r) = []) \/
   (exists k raw path,
       a <= k < a + rem /\ run_all parallel e k = Returned raw /\ raw <> [] /\
       result r = Some path /\ endswith path ".xlsx" = true /\
       written (trace r) = [clean_and_structure_data (ties e) (clock e k) raw])).
Proof.
  intros output_dir parallel max_retries e.
  induction rem as [|rem IH]; intro a; cbv zeta.
  - split; [apply Nat.le_refl | left; now split].
  - rewrite loop_step, trace_emit_then, result_emit_then.
    destruct (run_all parallel e a) as [df|] eqn:Hrun.
    + destruct (empty df && (a <? max_retries - 1)%nat).
      * rewrite trace_emit_then, result_emit_then.
        destruct (IH (S a)) as [Hc Hr]. split; [simpl; lia|].
        destruct Hr as [Hr | (k & raw & path & Hk & Hr)]; [now left | right].
        exists k, raw, path. split; [lia | exact Hr].
      * destruct (save_cases output_dir (file_clock e a) (to_excel_ok e a)
                    (clean_and_structure_data (ties e) (clock e a) df)
                    ("ma_noticias_" ++ file_clock e a ++ ".xlsx"))
          as [E | (Hne & _ & name & E & Hend & _)]; rewrite E.
        -- split; [simpl; lia | left; now split].
        -- split; [simpl; lia | right].
           exists a, df, (join output_dir name).
           split; [lia|]. split; [exact Hrun|].
           split; [exact (clean_of_empty _ _ _ Hne)|].
           split; [reflexivity|]. split; [|reflexivity].
           now apply join_endswith.
    + rewrite trace_bind, result_bind.
      destruct (IH (S a)) as [Hc Hr].
      destruct (a <? max_retries - 1)%nat; simpl when; simpl trace at 1.
      * split; [simpl; lia|].
        destruct Hr as [Hr | (k & raw & path & Hk & Hr)]; [now left | right].
        exists k, raw, path. split; [lia | exact Hr].
      * split; [simpl; lia|].
        destruct Hr as [Hr | (k & raw & path & Hk & Hr)]; [now left | right].
        exists k, raw, path. split; [lia | exact Hr].
Qed.

(** X10.  Whatever the sources do, [run_extraction] runs at most
    [max_retries] cycles and writes at most one spreadsheet; it returns
    a path exactly when it wrote one; the path ends in ".xlsx"; and the
    frame written is the normalized frame of a run that returned rows,
    never an empty one. *)
Theorem run_extraction_bounds : forall output_dir parallel max_retries e,
  let r := run_extraction output_dir parallel max_retries e in
  cycles_run (trace r) <= max_retries /\
  List.length (written (trace r)) <= 1 /\
  (result r = None <-> written (trace r) = []) /\
  (forall path, result r = Some path -> endswith path ".xlsx" = true) /\
  (forall df, In df (written (trace r)) ->
     df <> [] /\
     exists k raw, k < max_retries /\ run_all parallel e k = Returned raw /\
                   raw <> [] /\ df = clean_and_structure_data (ties e) (clock e k) raw).
Proof.
  intros output_dir parallel max_retries e r. subst r. unfold run_extraction.
  destruct (loop_outcome output_dir parallel max_retries e max_retries 0)
    as [Hc [[Hr Hw] | (k & raw & path & Hk & Hrun & Hraw & Hr & Hend & Hw)]].
  - rewrite Hr, Hw. repeat split; try assumption; try discriminate; simpl; try lia.
    + contradiction.
    + contradiction.
  - rewrite Hr, Hw. split; [exact Hc|]. split; [simpl; lia|].
    split; [split; discriminate|].
    split; [intros p Hp; now injection Hp as <-|].
    intros df [<- | []]. split.
    + intro E. apply (f_equal empty) in E.
      rewrite (clean_non_empty _ _ _ Hraw) in E. discriminate.
    + exists k, raw. repeat split; try assumption. lia.
Qed.

Lemma run_extraction_bounds_witness :
  let r := run_extraction "out" true 3 (two_empty_then_five reversing) in
  result r = Some "out/ma_noticias_20240301_120000.xlsx" /\
  endswith "out/ma_noticias_20240301_120000.xlsx" ".xlsx" = true /\
  cycles_run (trace r) <= 3.
Proof.
  intro r.
  assert (result r = Some "out/ma_noticias_20240301_120000.xlsx") as Hr
    by reflexivity.
  destruct (run_extraction_bounds "out" true 3 (two_empty_then_five reversing))
    as (Hc & _ & _ & Hp & _).
  split; [exact Hr|]. split; [exact (Hp _ Hr) | exact Hc].
Defined.




End OrchestratorExtras.

(** ** More about the per-request retry loop *)

Module RetryExtras.

Import Retry Trace TraceFacts RetryClaims.
Local Open Scope nat_scope.

Lemma failed_or_ok : forall r,
  failed r = true \/ exists resp, r = Got resp /\ status_code resp = 200.
Proof.
  intros [resp|]; [|now left]. simpl.
  destruct (Nat.eqb_spec (status_code resp) 200) as [E|_]; [right | now left].
  now exists resp.
Qed.

(** A failed attempt either ends the loop with an exception of the
    wait, or is followed by the rest of the loop. *)
Lemma failed_cases : forall pow net max_retries backoff_factor rem a,
  failed (replies net a) = true ->
  (backs_off net max_retries a = true /\ accepted pow backoff_factor a = false /\
   attempts pow net max_retries backoff_factor (S rem) a
   = (request_events net a, Raised)) \/
  (attempts pow net max_retries backoff_factor (S rem) a
   = (failed_attempt pow net max_retries backoff_factor a ++
      trace (attempts pow net max_retries backoff_factor rem (S a)),
      result (attempts pow net max_retries backoff_factor rem (S a)))).
Proof.
  intros pow net max_retries backoff_factor rem a Hf.
  destruct (backs_off net max_retries a) eqn:Hb.
  - destruct (accepted pow backoff_factor a) eqn:Hacc.
    + right. apply failed_retried; [exact Hf | now intros _].
    + left. split; [reflexivity|]. split; [reflexivity|].
      now apply failed_refused.
  - right. apply failed_retried; [exact Hf|]. rewrite Hb. discriminate.
Qed.

(** The account of the loop from attempt [a] with [rem] attempts left,
    on any network. *)
Lemma loop_account : forall pow net max_retries backoff_factor rem a,
  let m := attempts pow net max_retries backoff_factor rem a in
  match result m with
  | Returned (Some r) =>
      status_code r = 200 /\
      exists n, a <= n < a + rem /\ replies net n = Got r /\
                requests_sent (trace m) = S (n - a) /\
                forall k, a <= k < n -> failed (replies net k) = true
  | Returned None =>
      requests_sent (trace m) = rem /\
      forall k, a <= k < a + rem -> failed (replies net k) = true
  | Raised =>
      exists n, a <= n < a + rem /\ failed (replies net n) = true /\
                backs_off net max_retries n = true /\
                accepted pow backoff_factor n = false /\
                requests_sent (trace m) = S (n - a) /\
                forall k, a <= k < n -> failed (replies net k) = true
  end.
Proof.
  intros pow net max_retries backoff_factor.
  induction rem as [|rem IH]; intro a; cbv zeta.
  - simpl. split; [reflexivity | intros k Hk; lia].
  - destruct (failed_or_ok (replies net a)) as [Hf | (r & Hr & H200)].
    + destruct (failed_cases pow net max_retries backoff_factor rem a Hf)
        as [(Hb & Hacc & E) | E]; rewrite E; unfold trace, result; simpl fst; simpl snd.
      * exists a. rewrite requests_sent_events, Nat.sub_diag.
        repeat split; try assumption; try lia; intros; lia.
      * specialize (IH (S a)). cbv zeta in IH. unfold trace, result in IH.
        rewrite requests_sent_app, failed_attempt_sent.
        destruct (snd (attempts pow net max_retries backoff_factor rem (S a)))
          as [[r|]|].
        -- destruct IH as (H200 & n & Hn & Hr & Hs & Hk).
           split; [exact H200|]. exists n. split; [lia|]. split; [exact Hr|].
           split; [rewrite Hs; lia|]. intros k Hka.
           destruct (Nat.eq_dec k a) as [-> | Hne]; [exact Hf | apply Hk; lia].
        -- destruct IH as (Hs & Hk).
           split; [rewrite Hs; lia|]. intros k Hka.
           destruct (Nat.eq_dec k a) as [-> | Hne]; [exact Hf | apply Hk; lia].
        -- destruct IH as (n & Hn & Hfn & Hb & Hacc & Hs & Hk).
           exists n.
           repeat split; try assumption; try lia.
           intros k Hka.
           destruct (Nat.eq_dec k a) as [-> | Hne]; [exact Hf | apply Hk; lia].
    + rewrite (ok_returned pow net max_retries backoff_factor rem a r Hr H200).
      unfold trace, result. simpl fst. simpl snd.
      split; [exact H200|]. exists a.
      rewrite requests_sent_events, Nat.sub_diag.
      repeat split; try assumption; try lia; intros; lia.
Qed.

(** The attempts of a run, one after the other: each is the events of
    a request, followed by a wait or by nothing. *)
Lemma loop_attempts : forall pow net max_retries backoff_factor rem a,
  exists n tails,
    n <= rem /\ List.length tails = n /\
    Forall (fun w => w = [] \/ exists secs, w = [Wait secs]) tails /\
    trace (attempts pow net max_retries backoff_factor rem a)
    = List.concat (map (fun kw : nat * list event => request_events net (fst kw) ++ snd kw)
                  (combine (seq a n) tails)).
Proof.
  intros pow net max_retries backoff_factor.
  assert (forall net a, exists n tails,
            n <= 1 /\ List.length tails = n /\ n = 1 /\
            Forall (fun w : list event => w = [] \/ exists secs, w = [Wait secs]) tails /\
            request_events net a
            = List.concat (map (fun kw : nat * list event =>
                             request_events net (fst kw) ++ snd kw)
                          (combine (seq a n) tails))) as one.
  { intros net0 a. exists 1, [[]]. repeat split; try lia.
    - constructor; [now left | constructor].
    - simpl. now rewrite !app_nil_r. }
  induction rem as [|rem IH]; intro a.
  - exists 0, []. repeat split; [lia | constructor].
  - destruct (failed_or_ok (replies net a)) as [Hf | (r & Hr & H200)].
    + destruct (failed_cases pow net max_retries backoff_factor rem a Hf)
        as [(_ & _ & E) | E]; rewrite E; unfold trace; simpl fst.
      * destruct (one net a) as (n & tails & Hn & Hl & _ & Hw & Ht).
        exists n, tails. repeat split; try assumption; lia.
      * destruct (IH (S a)) as (n & tails & Hn & Hl & Hw & Ht).
        exists (S n),
          ((if backs_off net max_retries a then waited pow backoff_factor a else [])
           :: tails).
        split; [lia|]. split; [simpl; now rewrite Hl|]. split.
        -- constructor; [|exact Hw].
           destruct (backs_off net max_retries a); [|now left].
           unfold waited. destruct (wait_time pow backoff_factor a) as [secs|];
             [right; now exists secs | now left].
        -- unfold trace in Ht. rewrite Ht. reflexivity.
    + rewrite (ok_returned pow net max_retries backoff_factor rem a r Hr H200).
      unfold trace. simpl fst.
      destruct (one net a) as (n & tails & Hn & Hl & _ & Hw & Ht).
      exists n, tails. repeat split; try assumption; lia.
Qed.

(** X12.  On any network, and whatever the backoff factor, a run of
    [_make_request] is a sequence of at most [max_retries] attempts,
    numbered from 0 without a gap, and each attempt is, in this order:
    a new user agent (from the second attempt on), one pause with the
    draw of that attempt, the request, and then one wait or none.
    Nothing else happens: no request without its pause before it, no
    two waits in a row. *)
Theorem request_budget : forall pow net max_retries backoff_factor,
  let m := _make_request pow net max_retries backoff_factor in
  exists n tails,
    n <= max_retries /\ List.length tails = n /\
    Forall (fun w => w = [] \/ exists secs, w = [Wait secs]) tails /\
    trace m
    = List.concat (map (fun kw : nat * list event =>
                     (if 0 <? fst kw then [RotateUserAgent] else []) ++
                     [Pause (uniform_1_3 net (fst kw)); Get (fst kw)] ++ snd kw)
                  (combine (seq 0 n) tails)).
Proof.
  intros pow net max_retries backoff_factor m. subst m. unfold _make_request.
  destruct (loop_attempts pow net max_retries backoff_factor max_retries 0)
    as (n & tails & Hn & Hl & Hw & Ht).
  exists n, tails. split; [exact Hn|]. split; [exact Hl|]. split; [exact Hw|].
  rewrite Ht. f_equal. apply map_ext. intros [k w].
  unfold request_events. simpl fst. simpl snd.
  now rewrite <- app_assoc.
Qed.

(** X13.  The only response [_make_request] ever returns is one with
    status 200: it is the reply to the last request sent, and every
    request before it failed.  And [None] is returned only when every
    one of the [max_retries] attempts failed.  The call raises only
    when, after a failed attempt, the wait is one that does not
    evaluate or that [time.sleep] refuses. *)
Theorem only_ok_is_returned : forall pow net max_retries backoff_factor,
  let m := _make_request pow net max_retries backoff_factor in
  (forall r, result m = Returned (Some r) ->
     status_code r = 200 /\
     exists n, n < max_retries /\ replies net n = Got r /\
               requests_sent (trace m) = S n /\
               forall k, k < n -> failed (replies net k) = true) /\
  (result m = Returned None ->
     requests_sent (trace m) = max_retries /\
     forall k, k < max_retries -> failed (replies net k) = true) /\
  (result m = Raised ->
     exists n, n < max_retries /\ failed (replies net n) = true /\
               backs_off net max_retries n = true /\
               accepted pow backoff_factor n = false /\
               requests_sent (trace m) = S n).
Proof.
  intros pow net max_retries backoff_factor m. subst m. unfold _make_request.
  pose proof (loop_account pow net max_retries backoff_factor max_retries 0) as H.
  cbv zeta in H. split; [|split].
  - intros r Hr. rewrite Hr in H. destruct H as (H200 & n & Hn & Hrep & Hs & Hk).
    split; [exact H200|]. exists n. rewrite Nat.sub_0_r in Hs.
    repeat split; try assumption; try lia. intros k Hkn. apply Hk. lia.
  - intro Hr. rewrite Hr in H. destruct H as (Hs & Hk).
    split; [exact Hs|]. intros k Hkm. apply Hk. lia.
  - intro Hr. rewrite Hr in H.
    destruct H as (n & Hn & Hf & Hb & Hacc & Hs & _).
    exists n. rewrite Nat.sub_0_r in Hs. repeat split; try assumption; lia.
Qed.

Lemma only_ok_is_returned_witness :
  result (_make_request products not_found_then_ok 3 (Float 1.5))
  = Returned (Some (mkResponse 200 "<html>")) /\
  status_code (mkResponse 200 "<html>") = 200 /\
  exists n, n < 3 /\ replies not_found_then_ok n = Got (mkResponse 200 "<html>").
Proof.
  assert (result (_make_request products not_found_then_ok 3 (Float 1.5))
          = Returned (Some (mkResponse 200 "<html>"))) as Hr by reflexivity.
  split; [exact Hr|].
  destruct (only_ok_is_returned products not_found_then_ok 3 (Float 1.5)) as [H _].
  destruct (H _ Hr) as (H200 & n & Hn & Hrep & _).
  split; [exact H200|]. exists n. now split.
Defined.

(** A wait that [time.sleep] refuses ends the call with its
    exception: after [n] failed attempts whose waits were taken, a
    failed attempt followed by such a wait is the last thing that
    happens. *)
Lemma refused_wait_raises : forall pow net max_retries backoff_factor n,
  n < max_retries ->
  (forall k, k <= n -> failed (replies net k) = true) ->
  waits_taken pow net max_retries backoff_factor n ->
  backs_off net max_retries n = true -> accepted pow backoff_factor n = false ->
  _make_request pow net max_retries backoff_factor
  = (flat_map (failed_attempt pow net max_retries backoff_factor) (seq 0 n) ++
     request_events net n, Raised).
Proof.
  intros pow net max_retries backoff_factor n Hn Hf Hacc Hb Hno.
  unfold _make_request.
  assert (attempts pow net max_retries backoff_factor max_retries 0
          = attempts pow net max_retries backoff_factor (n + S (max_retries - S n)) 0)
    as -> by (f_equal; lia).
  rewrite failures_retried;
    [|intros k Hk; apply Hf; lia | intros k Hk; apply Hacc; lia].
  simpl (0 + n).
  now rewrite failed_refused by (try apply Hf; auto).
Qed.

(** With the factor -1 the second wait is -2 seconds, which
    [time.sleep] refuses. *)
Lemma negative_factor_raises :
  _make_request products
    (mkNetwork (fun _ => Got (mkResponse 503 "")) (fun _ => 1%float)) 3 (Int (-1))
  = ([Pause 1; Get 0; Wait (Int 2); RotateUserAgent; Pause 1; Get 1], Raised).
Proof. reflexivity. Qed.

(** X14.  Whether [_make_request] waits after its last attempt
    depends on how the attempts fail.  When every attempt gets a
    response whose status is not 200, it waits after every attempt,
    the last one included, so [max_retries] times, and returns
    [None]; when every attempt ends in an exception of the request,
    it waits between the attempts only, so [max_retries - 1] times,
    and returns [None].  The wait after the attempt [k] is
    [backoff_factor ** k * 2] as Python evaluates it, here a wait that
    [time.sleep] takes. *)
Theorem statuses_wait_after_last : forall pow net max_retries backoff_factor secs,
  let taken := fun n => forall k, k < n ->
    wait_time pow backoff_factor k = Some (secs k) /\
    sleep_accepts (secs k) = true in
  let attempt := fun k =>
    (if 0 <? k then [RotateUserAgent] else []) ++
    [Pause (uniform_1_3 net k); Get k] in
  ((forall k, k < max_retries ->
      exists r, replies net k = Got r /\ status_code r <> 200) ->
   taken max_retries ->
   _make_request pow net max_retries backoff_factor
   = (flat_map (fun k => attempt k ++ [Wait (secs k)]) (seq 0 max_retries),
      Returned None)) /\
  ((forall k, k < max_retries -> replies net k = RequestException) ->
   taken (max_retries - 1) ->
   _make_request pow net max_retries backoff_factor
   = (flat_map (fun k => attempt k ++ [Wait (secs k)]) (seq 0 (max_retries - 1)) ++
      (if 0 <? max_retries then attempt (max_retries - 1) else []),
      Returned None)).
Proof.
  intros pow net max_retries backoff_factor secs taken attempt.
  split.
  - intros Hs Hw.
    assert (waits_taken pow net max_retries backoff_factor max_retries) as Hacc.
    { intros k Hk _. unfold accepted. now destruct (Hw k Hk) as [-> ->]. }
    rewrite (run_of_loop pow net max_retries backoff_factor max_retries);
      try lia; try assumption.
    + rewrite Nat.ltb_irrefl, app_nil_r. f_equal.
      apply flat_map_agree. intros k Hk. apply in_seq in Hk.
      destruct (Hs k) as (r & Hr & _); [lia|]. destruct (Hw k) as [E _]; [lia|].
      unfold failed_attempt, backs_off, waited. now rewrite Hr, E.
    + intros k Hk. destruct (Hs k Hk) as (r & -> & Hne). simpl.
      apply negb_true_iff. now apply Nat.eqb_neq.
  - intros He Hw.
    assert (waits_taken pow net max_retries backoff_factor max_retries) as Hacc.
    { intros k Hk Hb. unfold backs_off in Hb. rewrite He in Hb by exact Hk.
      apply Nat.ltb_lt in Hb. unfold accepted.
      now destruct (Hw k Hb) as [-> ->]. }
    rewrite (run_of_loop pow net max_retries backoff_factor max_retries);
      try lia; try assumption.
    + rewrite Nat.ltb_irrefl, app_nil_r. f_equal.
      destruct max_retries as [|m]; [reflexivity|].
      simpl (S m - 1). rewrite Nat.sub_0_r in *.
      replace (seq 0 (S m)) with (seq 0 m ++ [m])
        by (now rewrite seq_S).
      rewrite flat_map_app. f_equal.
      * apply flat_map_agree. intros k Hk. apply in_seq in Hk.
        destruct (Hw k) as [E _]; [lia|].
        unfold failed_attempt, backs_off, waited. rewrite He, E by lia.
        simpl (S m - 1). rewrite Nat.sub_0_r.
        now assert ((k <? m) = true) as -> by (apply Nat.ltb_lt; lia).
      * simpl. unfold failed_attempt, backs_off. rewrite He by lia.
        simpl (S m - 1). rewrite Nat.sub_0_r, Nat.ltb_irrefl.
        now rewrite !app_nil_r.
    + intros k Hk. now rewrite He.
Qed.

Lemma statuses_wait_after_last_witness :
  let unavailable := mkNetwork (fun _ => Got (mkResponse 503 "")) (fun _ => 1%float) in
  let secs := fun k => Int (2 ^ Z.of_nat k * 2) in
  (forall k, k < 3 ->
     wait_time products (Int 2) k = Some (secs k) /\ sleep_accepts (secs k) = true) /\
  _make_request products unavailable 3 (Int 2)
  = ([Pause 1; Get 0; Wait (Int 2);
      RotateUserAgent; Pause 1; Get 1; Wait (Int 4);
      RotateUserAgent; Pause 1; Get 2; Wait (Int 8)], Returned None) /\
  _make_request products always_timeout 3 (Int 2)
  = ([Pause 1; Get 0; Wait (Int 2);
      RotateUserAgent; Pause 1; Get 1; Wait (Int 4);
      RotateUserAgent; Pause 1; Get 2], Returned None).
Proof.
  intros unavailable secs.
  assert (forall k, k < 3 ->
            wait_time products (Int 2) k = Some (secs k) /\
            sleep_accepts (secs k) = true) as Hw.
  { intros k Hk. destruct k as [|[|[|k]]]; try (now split). lia. }
  split; [exact Hw|].
  split.
  - destruct (statuses_wait_after_last products unavailable 3 (Int 2) secs)
      as [H _].
    rewrite H; [reflexivity | | exact Hw].
    intros k _. exists (mkResponse 503 ""). split; [reflexivity | discriminate].
  - destruct (statuses_wait_after_last products always_timeout 3 (Int 2) secs)
      as [_ H].
    rewrite H; [reflexivity | | intros k Hk; apply Hw; simpl in Hk; lia].
    intros k _. reflexivity.
Defined.

End RetryExtras.

(** ** More about the Valor scraper *)

Module ValorExtras.

Import Valor.
Local Open Scope string_scope.
Local Open Scope valor_scope.

Lemma maintains_ret : forall (A : Type) I (a : A), maintains I (ret a).
Proof. intros A I a s H. exact H. Qed.

Lemma maintains_bind : forall (A B : Type) I (m : M A) (f : A -> M B),
  maintains I m -> (forall a, maintains I (f a)) -> maintains I (bind m f).
Proof.
  intros A B I m f Hm Hf s H. unfold bind.
  specialize (Hm s H). destruct (m s) as [a s1]. now apply Hf.
Qed.

Lemma maintains_read : forall (A : Type) I (f : scraper -> A), maintains I (read f).
Proof. intros A I f s H. exact H. Qed.

(** Every call keeps a property that the events other than the start
    of a session and [_make_request] keep. *)
Section Kept.

Variable I : scraper -> Prop.
Hypothesis emit_kept : forall e, is_init_session e = false -> maintains I (emit e).
Hypothesis request_kept : forall ok, maintains I (_make_request ok).

Ltac keep_step :=
  first
    [ apply maintains_ret
    | apply request_kept
    | apply emit_kept; reflexivity
    | apply maintains_read
    | assumption
    | match goal with
      | H : forall x, maintains I (?f x) |- maintains I (?f _) => apply H
      | H : forall x y, maintains I (?f x y) |- maintains I (?f _ _) => apply H
      | |- maintains I (if ?b then _ else _) => destruct b
      | |- maintains I (match ?x with Some _ => _ | None => _ end) => destruct x
      end
    | apply maintains_bind; [|intro] ].

Ltac keep := repeat keep_step.

Lemma _login_with_requests_kept : forall o, maintains I (_login_with_requests o).
Proof. intro o. unfold _login_with_requests. keep. Qed.

Lemma login_kept : forall o, maintains I (login o).
Proof.
  intro o. unfold login. pose proof _login_with_requests_kept. keep.
Qed.

Lemma repeat_m_kept : forall n m, maintains I m -> maintains I (repeat_m n m).
Proof.
  induction n as [|n IH]; intros m Hm; simpl; [apply maintains_ret|].
  apply maintains_bind; [exact Hm | intro; now apply IH].
Qed.

Lemma request_pages_kept : forall pages, maintains I (request_pages pages).
Proof.
  induction pages as [|ok pages IH]; simpl; [apply maintains_ret|]. keep.
Qed.

Lemma search_news_kept : forall o, maintains I (search_news o).
Proof.
  intro o. unfold search_news, _search_news_selenium, _search_news_requests.
  pose proof login_kept. pose proof request_pages_kept.
  assert (maintains I (repeat_m (selenium_pages o) (emit (Fetch Selenium)))) as Hrep
    by (apply repeat_m_kept, emit_kept; reflexivity).
  keep.
Qed.

Lemma extract_news_data_kept : forall o, maintains I (extract_news_data o).
Proof.
  intro o.
  unfold extract_news_data, _extract_news_data_selenium, _extract_news_data_requests.
  pose proof login_kept. pose proof _login_with_requests_kept. keep.
Qed.

Lemma close_kept : maintains I close.
Proof. unfold close. keep. Qed.

Lemma extract_each_kept : forall details urls i,
  maintains I (extract_each details i urls).
Proof.
  intros details. induction urls as [|u urls IH]; intro i; simpl.
  - apply maintains_ret.
  - pose proof extract_news_data_kept.
    apply maintains_bind; [keep | intro got].
    apply maintains_bind; [apply IH | intro n; apply maintains_ret].
Qed.

Lemma run_scraper_kept : forall o details, maintains I (run_scraper o details).
Proof.
  intros o details. unfold run_scraper.
  apply maintains_bind; [apply search_news_kept | intro urls].
  apply maintains_bind; [apply extract_each_kept | intro n].
  apply maintains_bind; [apply close_kept | intro; apply maintains_ret].
Qed.

Lemma perform_kept : forall c, maintains I (perform c).
Proof.
  intros [o | o | o | o details |]; simpl.
  - pose proof login_kept. keep.
  - pose proof search_news_kept. keep.
  - pose proof extract_news_data_kept. keep.
  - pose proof run_scraper_kept. keep.
  - apply close_kept.
Qed.

Lemma perform_all_kept : forall cs, maintains I (perform_all cs).
Proof.
  induction cs as [|c cs IH]; simpl; [apply maintains_ret|].
  pose proof perform_kept. keep.
Qed.

End Kept.

(** *** The session of requests *)

Lemma session_inits_app : forall l1 l2,
  session_inits (l1 ++ l2) = session_inits l1 + session_inits l2.
Proof. intros. unfold session_inits. now rewrite filter_app, length_app. Qed.

Lemma one_session_emit : forall e,
  is_init_session e = false -> maintains one_session (emit e).
Proof.
  intros e He s H. unfold one_session in *. simpl.
  rewrite session_inits_app, H. unfold session_inits. simpl. rewrite He. simpl. lia.
Qed.

Lemma one_session_request : forall ok, maintains one_session (_make_request ok).
Proof.
  intros ok s H. unfold one_session in *.
  unfold _make_request, _init_requests_session, bind, read, emit, set_session, ret.
  destruct (session s) eqn:E; simpl; rewrite ?E, !session_inits_app, H; reflexivity.
Qed.

(** X15.  The session of requests is set up at most once in the life
    of a scraper: in the constructor when the fallback is asked for,
    else by the first request that needs it, and never again, whatever
    calls are made. *)
Theorem session_set_up_once : forall creds fallback starts calls,
  let s := snd (perform_all calls (new creds fallback starts)) in
  session_inits (log s) <= 1 /\
  (session_inits (log s) = 1 <-> session s = true) /\
  (fallback = true -> session_inits (log (new creds fallback starts)) = 1).
Proof.
  intros creds fallback starts calls s.
  assert (one_session s) as H.
  { apply (perform_all_kept one_session one_session_emit one_session_request).
    destruct creds, fallback, starts; reflexivity. }
  unfold one_session in H. rewrite H.
  split; [destruct (session s); lia|]. split.
  - destruct (session s); split; intro; try reflexivity; try discriminate.
  - intros ->. now destruct starts.
Qed.

Lemma session_set_up_once_witness :
  let calls := [ Login (mkLogin false true true true false true false true);
                 Login (mkLogin false true true true false true false true) ] in
  let s := snd (perform_all calls (new true false true)) in
  session s = true /\ session_inits (log s) = 1.
Proof.
  intros calls s.
  assert (session s = true) as Hs by reflexivity.
  split; [exact Hs|].
  destruct (session_set_up_once true false true calls) as (_ & H & _).
  now apply H.
Defined.

(** *** The driver after construction *)

Lemma same_setup_emit : forall s0 e, maintains (same_setup s0) (emit e).
Proof. intros s0 e s H. exact H. Qed.

Lemma same_setup_request : forall s0 ok, maintains (same_setup s0) (_make_request ok).
Proof.
  intros s0 ok s H.
  unfold _make_request, _init_requests_session, bind, read, emit, set_session, ret.
  now destruct (session s).
Qed.

Lemma perform_all_same_setup : forall calls s0,
  same_setup s0 (snd (perform_all calls s0)).
Proof.
  intros calls s0.
  apply (perform_all_kept (same_setup s0)).
  - intros e _. apply same_setup_emit.
  - apply same_setup_request.
  - now repeat split.
Qed.

(** X16.  No call made after construction changes [self.driver], the
    credentials or [use_requests_fallback]: the backend is settled by
    the constructor, and [close] leaves the field [driver] as it is.
    So a scraper that has a driver at any time was constructed with
    the fallback on and with a Selenium that started. *)
Theorem setup_is_settled_at_construction :
  (forall calls s0,
     let s := snd (perform_all calls s0) in
     driver s = driver s0 /\ credentials s = credentials s0 /\
     use_requests_fallback s = use_requests_fallback s0) /\
  (forall creds fallback starts calls,
     driver (snd (perform_all calls (new creds fallback starts))) = true ->
     fallback = true /\ starts = true).
Proof.
  split.
  - intros calls s0. exact (perform_all_same_setup calls s0).
  - intros creds fallback starts calls H.
    destruct (perform_all_same_setup calls (new creds fallback starts)) as (D & _).
    rewrite D in H. destruct fallback, starts; try discriminate H. now split.
Qed.

Lemma setup_is_settled_at_construction_witness :
  let calls := [Close; Login (mkLogin false true true true false true false true)] in
  driver (snd (perform_all calls (new true true true))) = true /\
  (true = true /\ true = true).
Proof.
  intro calls.
  assert (driver (snd (perform_all calls (new true true true))) = true) as H
    by reflexivity.
  split; [exact H|].
  exact (proj2 setup_is_settled_at_construction true true true calls H).
Defined.

(** *** Without credentials, and at the end of a run *)

(** X17.  A scraper without credentials fetches nothing: [login]
    returns [False] and [search_news] returns no url, both without
    touching either backend, and [run_scraper] returns an empty frame
    after doing nothing but closing the driver if there is one. *)
Theorem no_credentials_no_fetch : forall s,
  credentials s = false ->
  (forall o, login o s = (false, s)) /\
  (forall o, search_news o s = ([], s)) /\
  (forall o details,
     fst (run_scraper o details s) = 0 /\
     log (snd (run_scraper o details s))
     = (log s ++ if driver s then [QuitDriver] else [])%list).
Proof.
  intros s Hc.
  assert (forall o, login o s = (false, s)) as Hlogin.
  { intro o. unfold login, bind, read, ret. now rewrite Hc. }
  assert (forall o, search_news o s = ([], s)) as Hsearch.
  { intro o. unfold search_news, bind. now rewrite Hlogin. }
  split; [exact Hlogin|]. split; [exact Hsearch|].
  intros o details.
  assert (run_scraper o details s = (0, snd (close s))) as ->.
  { unfold run_scraper, bind. rewrite Hsearch. simpl.
    now destruct (close s). }
  unfold close, bind, read, ret, emit.
  destruct (driver s); simpl; split; try reflexivity. now rewrite app_nil_r.
Qed.

Lemma no_credentials_no_fetch_witness :
  let s := new false true true in
  let o := mkSearch (mkLogin false true true true false true true true)
                    false 2 ["https://v/1"] [true] ["https://v/1"] in
  credentials s = false /\
  search_news o s = ([], s) /\
  log (snd (run_scraper o (fun _ => mkExtract false false false
                                      (search_login o) true true) s))
  = [InitRequestsSession; InitSelenium; QuitDriver].
Proof.
  intros s o.
  destruct (no_credentials_no_fetch s eq_refl) as (_ & H2 & H3).
  split; [reflexivity|]. split; [apply H2|].
  destruct (H3 o (fun _ => mkExtract false false false (search_login o) true true))
    as [_ H]. rewrite H. reflexivity.
Defined.

Lemma grown_from_emit : forall s0 e, maintains (grown_from s0) (emit e).
Proof.
  intros s0 e s [D [evs L]]. split; [exact D|].
  exists (evs ++ [e])%list. simpl. now rewrite L, app_assoc.
Qed.

Lemma grown_from_request : forall s0 ok, maintains (grown_from s0) (_make_request ok).
Proof.
  intros s0 ok s [D [evs L]].
  unfold _make_request, _init_requests_session, bind, read, emit, set_session, ret.
  destruct (session s); simpl; (split; [exact D|]).
  - exists (evs ++ [Fetch Requests])%list. now rewrite L, app_assoc.
  - exists (evs ++ [InitRequestsSession; Fetch Requests])%list.
    rewrite L, <- !app_assoc. reflexivity.
Qed.

(** X18.  [run_scraper] always ends by closing: run on a scraper that
    has a driver, whatever the site answers, the last thing it does is
    to quit the driver; what was logged before is kept. *)
Theorem run_scraper_quits_driver : forall s o details,
  driver s = true ->
  exists evs,
    log (snd (run_scraper o details s)) = (log s ++ evs ++ [QuitDriver])%list.
Proof.
  intros s o details Hd.
  assert (grown_from s s) as H0 by (split; [reflexivity | exists []; now rewrite app_nil_r]).
  assert (forall e, is_init_session e = false -> maintains (grown_from s) (emit e)) as He
    by (intros e _; apply grown_from_emit).
  pose proof (search_news_kept (grown_from s) He (grown_from_request s) o s H0) as H1.
  unfold run_scraper, bind at 1.
  destruct (search_news o s) as [urls s1]. simpl in H1.
  pose proof (extract_each_kept (grown_from s) He (grown_from_request s)
                details urls 0 s1 H1) as H2.
  unfold bind at 1.
  destruct (extract_each details 0 urls s1) as [n s2]. simpl in H2.
  destruct H2 as [D [evs L]].
  exists evs. unfold close, bind, read, ret. rewrite D, Hd. simpl.
  now rewrite L, app_assoc.
Qed.

Lemma run_scraper_quits_driver_witness :
  let s := new true true true in
  let o := mkSearch (mkLogin false true true true false true true true)
                    false 1 ["https://v/1"] [] [] in
  driver s = true /\
  log (snd (run_scraper o (fun _ => mkExtract false false false
                                      (search_login o) true true) s))
  = [InitRequestsSession; InitSelenium; Fetch Selenium; Fetch Selenium;
     Fetch Selenium; QuitDriver].
Proof.
  intros s o. split; [reflexivity|].
  destruct (run_scraper_quits_driver s o
              (fun _ => mkExtract false false false (search_login o) true true)
              eq_refl) as [evs H].
  reflexivity.
Defined.

End ValorExtras.

(** ** The paged searches *)

Module SearchExtras.

Import Latin1 Search Trace TraceFacts.
Local Open Scope string_scope.

Lemma pages_asked_app : forall t1 t2,
  pages_asked (t1 ++ t2) = (pages_asked t1 ++ pages_asked t2)%list.
Proof.
  induction t1 as [|ev t1 IH]; intro t2; [reflexivity|].
  destruct ev; simpl; now rewrite IH.
Qed.

(** *** The loop over the items of a page *)

(** Every url the item loop appends comes from an item of the page
    that is dated, not older than the limit, and linked. *)
Lemma scan_sound : forall date_limit items pub_date u,
  In u (fst (scan date_limit pub_date items)) ->
  exists it t,
    In it items /\ published it = PublishedAt t /\
    (date_limit <= t)%Z /\ link it = Some u.
Proof.
  intros date_limit. induction items as [|it items IH]; intros pub_date u H.
  - contradiction.
  - simpl in H. destruct (published it) as [| | |t] eqn:P;
      try (destruct (IH _ _ H) as (it' & t' & Hin & Hrest);
           exists it', t'; split; [now right | exact Hrest]).
    destruct (Z.ltb_spec t date_limit) as [Hold|Hnew]; [contradiction|].
    destruct (scan date_limit (Some t) items) as [urls last] eqn:S.
    assert (In u urls -> exists it' t',
              In it' (it :: items) /\ published it' = PublishedAt t' /\
              (date_limit <= t')%Z /\ link it' = Some u) as Hrest.
    { intro Hu. destruct (IH (Some t) u) as (it' & t' & Hin & Hr);
        [now rewrite S|]. exists it', t'. split; [now right | exact Hr]. }
    destruct (link it) as [v|] eqn:L; simpl in H; [|now apply Hrest].
    destruct H as [<- | H]; [|now apply Hrest].
    exists it, t. repeat split; try assumption. now left.
Qed.

(** The value of [pub_date] after the item loop: the one it had, or
    the date of an item of the page. *)
Lemma scan_last : forall date_limit items pub_date,
  snd (scan date_limit pub_date items) = pub_date \/
  exists it t, In it items /\ published it = PublishedAt t /\
               snd (scan date_limit pub_date items) = Some t.
Proof.
  intros date_limit. induction items as [|it items IH]; intro pub_date.
  - now left.
  - simpl. destruct (published it) as [| | |t] eqn:P;
      try (destruct (IH pub_date) as [E | (it' & t' & Hin & Hp & E)];
           [now left | right; exists it', t'; repeat split; try assumption; now right]).
    right. destruct (Z.ltb_spec t date_limit) as [Hold|Hnew].
    + exists it, t. repeat split; try assumption. now left.
    + destruct (scan date_limit (Some t) items) as [urls last] eqn:S.
      destruct (IH (Some t)) as [E | (it' & t' & Hin & Hp & E)];
        rewrite S in E; simpl in *.
      * exists it, t. repeat split; try assumption. now left.
      * exists it', t'. repeat split; try assumption. now right.
Qed.

(** The first item older than the limit ends the loop: what follows it
    on the page is not looked at, and the loop ends on a date older
    than the limit. *)
Lemma scan_cut : forall date_limit front old t back pub_date,
  published old = PublishedAt t -> (t < date_limit)%Z ->
  (forall back', scan date_limit pub_date (front ++ old :: back')
                 = scan date_limit pub_date (front ++ old :: back)) /\
  exists t', snd (scan date_limit pub_date (front ++ old :: back)) = Some t' /\
             (t' < date_limit)%Z.
Proof.
  intros date_limit front old t back pub_date Hp Hold. revert pub_date.
  induction front as [|it front IH]; intro pub_date.
  - simpl. rewrite Hp. apply Z.ltb_lt in Hold. rewrite Hold. split; [reflexivity|].
    exists t. split; [reflexivity | now apply Z.ltb_lt].
  - simpl. destruct (published it) as [| | |t0]; try apply IH.
    destruct (Z.ltb_spec t0 date_limit) as [H0|H0].
    + split; [reflexivity|]. exists t0. now split.
    + destruct (IH (Some t0)) as [Hsame (t' & Ht' & Hlt)]. split.
      * intro back'. now rewrite (Hsame back').
      * exists t'. split; [|exact Hlt].
        destruct (scan date_limit (Some t0) (front ++ old :: back)). exact Ht'.
Qed.

(** A page of items that are all dated and none older than the limit:
    every link is appended and the loop ends on a date within the
    limit. *)
Lemma scan_all_recent : forall date_limit items pub_date,
  all_recent date_limit items = true ->
  fst (scan date_limit pub_date items) = recent_links date_limit items /\
  (items <> [] ->
   exists t, snd (scan date_limit pub_date items) = Some t /\ (date_limit <= t)%Z) /\
  (items = [] -> snd (scan date_limit pub_date items) = pub_date).
Proof.
  intros date_limit. induction items as [|it items IH]; intros pub_date H.
  - split; [reflexivity|]. split; [congruence | reflexivity].
  - simpl in H. apply andb_true_iff in H as [Hit Hitems].
    simpl. destruct (published it) as [| | |t]; try discriminate.
    apply negb_true_iff in Hit. rewrite Hit.
    destruct (IH (Some t) Hitems) as (F & Sn & Se).
    destruct (scan date_limit (Some t) items) as [urls last]. simpl in *.
    split; [destruct (link it); now rewrite F|].
    split; [|discriminate]. intros _.
    destruct items as [|it' items'].
    + exists t. split; [now apply Se | now apply Z.ltb_ge].
    + apply Sn. discriminate.
Qed.

(** A page on which no date can be read leaves [pub_date] as it was
    and appends nothing. *)
Lemma scan_undated : forall date_limit items pub_date,
  (forall it t, In it items -> published it <> PublishedAt t) ->
  scan date_limit pub_date items = ([], pub_date).
Proof.
  intros date_limit. induction items as [|it items IH]; intros pub_date H.
  - reflexivity.
  - simpl. destruct (published it) as [| | |t] eqn:P;
      try (apply IH; intros it' t' Hin; apply H; now right).
    exfalso. apply (H it t); [now left | exact P].
Qed.

(** *** The loops over the pages *)

Section Pages.

Variable date_limit : Z.
Variable site : nat -> page_reply.

(** What the page [page] contributes, and whether the search goes on
    after it, for a page that lists items. *)
Lemma reset_listing : forall rem page items,
  site page = Listing items -> items <> [] ->
  pages_reset date_limit site (S rem) page
  = (emit (GetPage page) ;;
     let (urls, pub_date) := scan date_limit None items in
     match pub_date with
     | Some t =>
         if (t <? date_limit)%Z then ret urls
         else emit Rest ;;
              more <- pages_reset date_limit site rem (S page) ;;
              ret (urls ++ more)%list
     | None =>
         emit Rest ;;
         more <- pages_reset date_limit site rem (S page) ;;
         ret (urls ++ more)%list
     end)%trace.
Proof.
  intros rem page items Hs Hne. simpl. rewrite Hs.
  destruct items; [contradiction | reflexivity].
Qed.

Lemma carried_listing : forall rem page items pub_date,
  site page = Listing items -> items <> [] ->
  pages_carried date_limit site pub_date (S rem) page
  = (emit (GetPage page) ;;
     let (urls, pub_date') := scan date_limit pub_date items in
     match pub_date' with
     | None => ret urls
     | Some t =>
         if (t <? date_limit)%Z then ret urls
         else emit Rest ;;
              more <- pages_carried date_limit site (Some t) rem (S page) ;;
              ret (urls ++ more)%list
     end)%trace.
Proof.
  intros rem page items pub_date Hs Hne. simpl. rewrite Hs.
  destruct items; [contradiction | reflexivity].
Qed.

Lemma reset_no_listing : forall rem page,
  site page = NoPage \/ site page = Listing [] ->
  pages_reset date_limit site (S rem) page = ([GetPage page], []).
Proof. intros rem page [H | H]; simpl; now rewrite H. Qed.

Lemma carried_no_listing : forall rem page pub_date,
  site page = NoPage \/ site page = Listing [] ->
  pages_carried date_limit site pub_date (S rem) page = ([GetPage page], []).
Proof. intros rem page pub_date [H | H]; simpl; now rewrite H. Qed.

Lemma page_cases : forall page,
  (site page = NoPage \/ site page = Listing []) \/
  exists items, site page = Listing items /\ items <> [].
Proof.
  intro page. destruct (site page) as [|[|it items]].
  - left. now left.
  - left. now right.
  - right. exists (it :: items). split; [reflexivity | discriminate].
Qed.

End Pages.

Lemma origin_wider : forall date_limit site first last u,
  origin date_limit site (S first) last u -> origin date_limit site first last u.
Proof.
  intros date_limit site first last u (page & items & it & t & Hp & H).
  exists page, items, it, t. split; [lia | exact H].
Qed.

Lemma origin_here : forall date_limit site page rem items pub_date u,
  site page = Listing items ->
  In u (fst (scan date_limit pub_date items)) ->
  origin date_limit site page (page + S rem) u.
Proof.
  intros date_limit site page rem items pub_date u Hs Hu.
  destruct (scan_sound date_limit items pub_date u Hu) as (it & t & Hin & H).
  exists page, items, it, t. split; [lia|]. split; [exact Hs|]. split; [exact Hin | exact H].
Qed.

Lemma reset_sound : forall date_limit site rem page u,
  In u (result (pages_reset date_limit site rem page)) ->
  origin date_limit site page (page + rem) u.
Proof.
  intros date_limit site. induction rem as [|rem IH]; intros page u H.
  - contradiction.
  - destruct (page_cases site page) as [Hno | (items & Hs & Hne)].
    + rewrite (reset_no_listing date_limit site rem page Hno) in H. contradiction.
    + rewrite (reset_listing date_limit site rem page items Hs Hne),
        result_emit_then in H.
      pose proof (origin_here date_limit site page rem items None u Hs) as Here.
      assert (In u (result (pages_reset date_limit site rem (S page))) ->
              origin date_limit site page (page + S rem) u) as Hmore.
      { intro Hm. apply origin_wider.
        replace (page + S rem) with (S page + rem) by lia. now apply IH. }
      destruct (scan date_limit None items) as [urls pub_date]. simpl in Here.
      destruct pub_date as [t|]; [destruct (t <? date_limit)%Z|];
        try (now apply Here);
        rewrite result_emit_then, result_bind in H; simpl in H;
        apply in_app_or in H as [H | H]; [now apply Here | now apply Hmore
                                         | now apply Here | now apply Hmore].
Qed.

Lemma carried_sound : forall date_limit site rem page pub_date u,
  In u (result (pages_carried date_limit site pub_date rem page)) ->
  origin date_limit site page (page + rem) u.
Proof.
  intros date_limit site. induction rem as [|rem IH]; intros page pub_date u H.
  - contradiction.
  - destruct (page_cases site page) as [Hno | (items & Hs & Hne)].
    + rewrite (carried_no_listing date_limit site rem page pub_date Hno) in H.
      contradiction.
    + rewrite (carried_listing date_limit site rem page items pub_date Hs Hne),
        result_emit_then in H.
      pose proof (origin_here date_limit site page rem items pub_date u Hs) as Here.
      destruct (scan date_limit pub_date items) as [urls pub_date']. simpl in Here.
      destruct pub_date' as [t|]; [destruct (t <? date_limit)%Z|];
        try (now apply Here).
      rewrite result_emit_then, result_bind in H. simpl in H.
      apply in_app_or in H as [H | H]; [now apply Here|].
      apply origin_wider.
      replace (page + S rem) with (S page + rem) by lia. now apply (IH _ (Some t)).
Qed.

(** X19.  The paged searches never return an item older than the
    limit: every url that [_search_news_requests] of the optimized
    Valor scraper, or [search_news] of the Pipeline scraper, returns is
    the link of an item of one of the pages 1 to [max_pages] whose date
    was read and is not before the limit. *)
Theorem searches_return_recent_items : forall date_limit site max_pages u,
  In u (result (_search_news_requests date_limit site max_pages)) \/
  In u (result (search_news date_limit site max_pages)) ->
  exists page items it t,
    1 <= page <= max_pages /\ site page = Listing items /\ In it items /\
    published it = PublishedAt t /\ (date_limit <= t)%Z /\ link it = Some u.
Proof.
  intros date_limit site max_pages u H.
  assert (origin date_limit site 1 (1 + max_pages) u) as (page & items & it & t & Hp & Hr).
  { destruct H as [H | H];
      [now apply reset_sound | now apply (carried_sound _ _ _ _ None)]. }
  exists page, items, it, t. split; [lia | exact Hr].
Qed.

Lemma searches_return_recent_items_witness :
  let site := fun page =>
    match page with
    | 1 => Listing [ mkItem (PublishedAt 20) (Some "https://p/a");
                     mkItem NoDateElement (Some "https://p/b");
                     mkItem (PublishedAt 5) (Some "https://p/c");
                     mkItem (PublishedAt 30) (Some "https://p/d") ]
    | _ => NoPage
    end in
  result (search_news 10 site 3) = ["https://p/a"] /\
  exists page items it t,
    1 <= page <= 3 /\ site page = Listing items /\ In it items /\
    published it = PublishedAt t /\ (10 <= t)%Z /\ link it = Some "https://p/a".
Proof.
  intro site. split; [reflexivity|].
  apply (searches_return_recent_items 10 site 3 "https://p/a").
  right. now left.
Defined.

Lemma reset_pages : forall date_limit site rem page,
  exists k, k <= rem /\
    pages_asked (trace (pages_reset date_limit site rem page)) = seq page k.
Proof.
  intros date_limit site. induction rem as [|rem IH]; intro page.
  - exists 0. now split.
  - destruct (page_cases site page) as [Hno | (items & Hs & Hne)].
    + rewrite (reset_no_listing date_limit site rem page Hno).
      exists 1. split; [lia | reflexivity].
    + rewrite (reset_listing date_limit site rem page items Hs Hne), trace_emit_then.
      destruct (IH (S page)) as (k & Hk & E).
      destruct (scan date_limit None items) as [urls pub_date].
      destruct pub_date as [t|]; [destruct (t <? date_limit)%Z|];
        try (exists 1; split; [lia | reflexivity]);
        rewrite trace_emit_then, trace_bind; simpl;
        rewrite pages_asked_app, E; simpl; rewrite app_nil_r;
        exists (S k); (split; [lia | reflexivity]).
Qed.

Lemma carried_pages : forall date_limit site rem page pub_date,
  exists k, k <= rem /\
    pages_asked (trace (pages_carried date_limit site pub_date rem page)) = seq page k.
Proof.
  intros date_limit site. induction rem as [|rem IH]; intros page pub_date.
  - exists 0. now split.
  - destruct (page_cases site page) as [Hno | (items & Hs & Hne)].
    + rewrite (carried_no_listing date_limit site rem page pub_date Hno).
      exists 1. split; [lia | reflexivity].
    + rewrite (carried_listing date_limit site rem page items pub_date Hs Hne),
        trace_emit_then.
      destruct (scan date_limit pub_date items) as [urls pub_date'].
      destruct pub_date' as [t|]; [destruct (t <? date_limit)%Z|];
        try (exists 1; split; [lia | reflexivity]).
      destruct (IH (S page) (Some t)) as (k & Hk & E).
      rewrite trace_emit_then, trace_bind. simpl.
      rewrite pages_asked_app, E. simpl. rewrite app_nil_r.
      exists (S k). split; [lia | reflexivity].
Qed.

(** X20.  The paged searches ask for the pages 1, 2, 3, ... in turn,
    without gap or repeat, and for at most [max_pages] of them. *)
Theorem searches_ask_pages_in_turn : forall date_limit site max_pages,
  (exists k, k <= max_pages /\
     pages_asked (trace (_search_news_requests date_limit site max_pages)) = seq 1 k) /\
  (exists k, k <= max_pages /\
     pages_asked (trace (search_news date_limit site max_pages)) = seq 1 k).
Proof.
  intros. split; [apply reset_pages | apply carried_pages].
Qed.

(** *** The first old item ends the search *)

Lemma cut_not_empty : forall (front : list item) old back, (front ++ old :: back)%list <> [].
Proof. intros [|x front] old back; discriminate. Qed.

Lemma reset_cut : forall date_limit site site' p front old t back back' rem page,
  page <= p ->
  (forall q, page <= q < p -> site' q = site q) ->
  site p = Listing (front ++ old :: back) ->
  site' p = Listing (front ++ old :: back') ->
  published old = PublishedAt t -> (t < date_limit)%Z ->
  pages_reset date_limit site' rem page = pages_reset date_limit site rem page.
Proof.
  intros date_limit site site' p front old t back back' rem.
  induction rem as [|rem IH]; intros page Hle Hsame Hp Hp' Hold Ht; [reflexivity|].
  destruct (Nat.eq_dec page p) as [-> | Hne].
  - rewrite (reset_listing date_limit site rem p _ Hp (cut_not_empty _ _ _)),
      (reset_listing date_limit site' rem p _ Hp' (cut_not_empty _ _ _)).
    destruct (scan_cut date_limit front old t back None Hold Ht)
      as [Hcut (t' & Hlast & Hlt)].
    rewrite (Hcut back').
    destruct (scan date_limit None (front ++ old :: back)) as [urls pub_date].
    simpl in Hlast. subst pub_date.
    apply Z.ltb_lt in Hlt. now rewrite Hlt.
  - assert (site' page = site page) as Hq by (apply Hsame; lia).
    simpl. rewrite Hq, (IH (S page));
      try assumption; try lia; [reflexivity|]. intros q Hq'. apply Hsame. lia.
Qed.

Lemma carried_cut : forall date_limit site site' p front old t back back' rem page pub_date,
  page <= p ->
  (forall q, page <= q < p -> site' q = site q) ->
  site p = Listing (front ++ old :: back) ->
  site' p = Listing (front ++ old :: back') ->
  published old = PublishedAt t -> (t < date_limit)%Z ->
  pages_carried date_limit site' pub_date rem page
  = pages_carried date_limit site pub_date rem page.
Proof.
  intros date_limit site site' p front old t back back' rem.
  induction rem as [|rem IH]; intros page pub_date Hle Hsame Hp Hp' Hold Ht;
    [reflexivity|].
  destruct (Nat.eq_dec page p) as [-> | Hne].
  - rewrite (carried_listing date_limit site rem p _ pub_date Hp (cut_not_empty _ _ _)),
      (carried_listing date_limit site' rem p _ pub_date Hp' (cut_not_empty _ _ _)).
    destruct (scan_cut date_limit front old t back pub_date Hold Ht)
      as [Hcut (t' & Hlast & Hlt)].
    rewrite (Hcut back').
    destruct (scan date_limit pub_date (front ++ old :: back)) as [urls pub_date'].
    simpl in Hlast. subst pub_date'.
    apply Z.ltb_lt in Hlt. now rewrite Hlt.
  - assert (site' page = site page) as Hq by (apply Hsame; lia).
    simpl. rewrite Hq.
    destruct (site page) as [|[|it items]]; try reflexivity.
    destruct (scan date_limit pub_date (it :: items)) as [urls [t0|]]; [|reflexivity].
    destruct (t0 <? date_limit)%Z; [reflexivity|].
    rewrite (IH (S page) (Some t0));
      try assumption; try lia; [reflexivity|]. intros q Hq'. apply Hsame. lia.
Qed.

(** X21.  Nothing that comes after the first item older than the limit
    has any effect on a paged search: take a page that shows such an
    item; then neither the items after it on that page nor any later
    page change what the search asks for, how it pauses, or what it
    returns. *)
Theorem nothing_after_the_first_old_item :
  forall date_limit site site' max_pages p front old t back back',
  (forall q, 1 <= q < p -> site' q = site q) ->
  site p = Listing (front ++ old :: back) ->
  site' p = Listing (front ++ old :: back') ->
  published old = PublishedAt t -> (t < date_limit)%Z -> 1 <= p ->
  _search_news_requests date_limit site' max_pages
  = _search_news_requests date_limit site max_pages /\
  search_news date_limit site' max_pages = search_news date_limit site max_pages.
Proof.
  intros date_limit site site' max_pages p front old t back back'
         Hsame Hp Hp' Hold Ht H1.
  split.
  - now apply (reset_cut date_limit site site' p front old t back back').
  - now apply (carried_cut date_limit site site' p front old t back back').
Qed.

Lemma nothing_after_the_first_old_item_witness :
  let old := mkItem (PublishedAt 5) (Some "https://p/old") in
  let site := fun page =>
    match page with
    | 1 => Listing [mkItem (PublishedAt 20) (Some "https://p/a"); old]
    | _ => NoPage
    end in
  let site' := fun page =>
    match page with
    | 1 => Listing [mkItem (PublishedAt 20) (Some "https://p/a"); old;
                    mkItem (PublishedAt 30) (Some "https://p/late")]
    | _ => Listing [mkItem (PublishedAt 40) (Some "https://p/next")]
    end in
  published old = PublishedAt 5 /\ (5 < 10)%Z /\
  search_news 10 site' 3 = search_news 10 site 3 /\
  result (search_news 10 site' 3) = ["https://p/a"].
Proof.
  intros old site site'.
  split; [reflexivity|]. split; [reflexivity|]. split; [|reflexivity].
  apply (nothing_after_the_first_old_item 10 site site' 3 1
           [mkItem (PublishedAt 20) (Some "https://p/a")] old 5 []
           [mkItem (PublishedAt 30) (Some "https://p/late")]);
    try reflexivity; try lia.
Defined.

Lemma reset_first : forall date_limit site rem page,
  exists t, trace (pages_reset date_limit site (S rem) page) = GetPage page :: t.
Proof.
  intros date_limit site rem page.
  destruct (page_cases site page) as [Hno | (items & Hs & Hne)].
  - rewrite (reset_no_listing date_limit site rem page Hno). now exists [].
  - rewrite (reset_listing date_limit site rem page items Hs Hne), trace_emit_then.
    eexists. reflexivity.
Qed.

(** X22.  A first page on which no date can be read ends the search of
    the Pipeline scraper at once:
    [pub_date] has not been assigned when it is compared, and the
    [except] around the page breaks the loop, so one page is asked for
    and nothing is returned.  The search of the optimized Valor
    scraper, which resets [pub_date] on each page, goes on to page
    2. *)
Theorem undated_first_page : forall date_limit site max_pages items,
  site 1 = Listing items -> items <> [] ->
  (forall it t, In it items -> published it <> PublishedAt t) ->
  1 <= max_pages ->
  search_news date_limit site max_pages = ([GetPage 1], []) /\
  (2 <= max_pages ->
   exists rest,
     pages_asked (trace (_search_news_requests date_limit site max_pages))
     = 1 :: 2 :: rest).
Proof.
  intros date_limit site max_pages items Hs Hne Hund Hmax.
  destruct max_pages as [|rem]; [lia|]. split.
  - unfold search_news.
    rewrite (carried_listing date_limit site rem 1 items None Hs Hne).
    now rewrite (scan_undated date_limit items None Hund).
  - intro H2. destruct rem as [|rem]; [lia|].
    unfold _search_news_requests.
    rewrite (reset_listing date_limit site (S rem) 1 items Hs Hne).
    rewrite (scan_undated date_limit items None Hund).
    rewrite trace_emit_then, trace_emit_then, trace_bind.
    destruct (reset_first date_limit site rem 2) as [t E].
    cbn [pages_asked]. rewrite pages_asked_app, E.
    cbn [pages_asked app]. eexists. reflexivity.
Qed.

Lemma undated_first_page_witness :
  let site := fun page =>
    match page with
    | 1 => Listing [mkItem NoDateText (Some "https://p/a");
                    mkItem InvalidDate (Some "https://p/b")]
    | _ => Listing [mkItem (PublishedAt 20) (Some "https://p/c")]
    end in
  search_news 10 site 2 = ([GetPage 1], []) /\
  result (_search_news_requests 10 site 2) = ["https://p/c"].
Proof.
  intro site. split; [|reflexivity].
  apply (undated_first_page 10 site 2
           [mkItem NoDateText (Some "https://p/a");
            mkItem InvalidDate (Some "https://p/b")]);
    try reflexivity; try discriminate; try lia.
  intros it t [<- | [<- | []]]; discriminate.
Defined.

(** *** Pages without old items *)

Lemma reset_complete : forall date_limit site (listing : nat -> list item) n rem page,
  n <= rem ->
  (forall p, page <= p < page + n ->
     site p = Listing (listing p) /\ listing p <> [] /\
     all_recent date_limit (listing p) = true) ->
  rem = n \/ site (page + n) = NoPage \/ site (page + n) = Listing [] ->
  result (pages_reset date_limit site rem page)
  = flat_map (fun p => recent_links date_limit (listing p)) (seq page n).
Proof.
  intros date_limit site listing.
  induction n as [|n IH]; intros rem page Hle Hgood Hend.
  - destruct rem as [|rem]; [reflexivity|].
    destruct Hend as [Hend | Hend]; [discriminate|].
    rewrite Nat.add_0_r in Hend.
    now rewrite (reset_no_listing date_limit site rem page Hend).
  - destruct rem as [|rem]; [lia|].
    destruct (Hgood page) as (Hs & Hne & Hrec); [lia|].
    rewrite (reset_listing date_limit site rem page _ Hs Hne), result_emit_then.
    destruct (scan_all_recent date_limit (listing page) None Hrec) as (F & Sn & _).
    destruct (Sn Hne) as (t & Hlast & Ht).
    destruct (scan date_limit None (listing page)) as [urls pub_date].
    simpl in F, Hlast. subst urls pub_date.
    assert ((t <? date_limit)%Z = false) as -> by (apply Z.ltb_ge; lia).
    rewrite result_emit_then, result_bind. simpl.
    rewrite (IH rem (S page)); [reflexivity | lia | |].
    + intros p Hp. apply Hgood. lia.
    + replace (S page + n) with (page + S n) by lia.
      destruct Hend as [Hend | Hend]; [left; lia | now right].
Qed.

Lemma carried_complete : forall date_limit site (listing : nat -> list item)
                                n rem page pub_date,
  n <= rem ->
  (forall p, page <= p < page + n ->
     site p = Listing (listing p) /\ listing p <> [] /\
     all_recent date_limit (listing p) = true) ->
  rem = n \/ site (page + n) = NoPage \/ site (page + n) = Listing [] ->
  result (pages_carried date_limit site pub_date rem page)
  = flat_map (fun p => recent_links date_limit (listing p)) (seq page n).
Proof.
  intros date_limit site listing.
  induction n as [|n IH]; intros rem page pub_date Hle Hgood Hend.
  - destruct rem as [|rem]; [reflexivity|].
    destruct Hend as [Hend | Hend]; [discriminate|].
    rewrite Nat.add_0_r in Hend.
    now rewrite (carried_no_listing date_limit site rem page pub_date Hend).
  - destruct rem as [|rem]; [lia|].
    destruct (Hgood page) as (Hs & Hne & Hrec); [lia|].
    rewrite (carried_listing date_limit site rem page _ pub_date Hs Hne),
      result_emit_then.
    destruct (scan_all_recent date_limit (listing page) pub_date Hrec) as (F & Sn & _).
    destruct (Sn Hne) as (t & Hlast & Ht).
    destruct (scan date_limit pub_date (listing page)) as [urls pub_date'].
    simpl in F, Hlast. subst urls pub_date'.
    assert ((t <? date_limit)%Z = false) as -> by (apply Z.ltb_ge; lia).
    rewrite result_emit_then, result_bind. simpl.
    rewrite (IH rem (S page) (Some t)); [reflexivity | lia | |].
    + intros p Hp. apply Hgood. lia.
    + replace (S page + n) with (page + S n) by lia.
      destruct Hend as [Hend | Hend]; [left; lia | now right].
Qed.

(** X23.  When the pages 1 to [n] each list items that are all dated
    and none older than the limit, and the search ends there (the page
    budget is [n], or page [n + 1] is empty or cannot be fetched), both
    paged searches return the links of all the items of those pages,
    in page order and in the order of each page: nothing is lost. *)
Theorem searches_complete_on_recent_pages :
  forall date_limit site (listing : nat -> list item) max_pages n,
  n <= max_pages ->
  (forall p, 1 <= p <= n ->
     site p = Listing (listing p) /\ listing p <> [] /\
     all_recent date_limit (listing p) = true) ->
  n = max_pages \/ site (S n) = NoPage \/ site (S n) = Listing [] ->
  result (_search_news_requests date_limit site max_pages)
  = flat_map (fun p => recent_links date_limit (listing p)) (seq 1 n) /\
  result (search_news date_limit site max_pages)
  = flat_map (fun p => recent_links date_limit (listing p)) (seq 1 n).
Proof.
  intros date_limit site listing max_pages n Hle Hgood Hend.
  assert (forall p, 1 <= p < 1 + n ->
            site p = Listing (listing p) /\ listing p <> [] /\
            all_recent date_limit (listing p) = true) as Hgood'
    by (intros p Hp; apply Hgood; lia).
  assert (max_pages = n \/ site (1 + n) = NoPage \/ site (1 + n) = Listing []) as Hend'
    by (destruct Hend as [-> | H]; [now left | now right]).
  split.
  - now apply reset_complete.
  - now apply carried_complete.
Qed.

Lemma searches_complete_on_recent_pages_witness :
  let listing := fun p =>
    match p with
    | 1 => [mkItem (PublishedAt 30) (Some "https://p/a");
            mkItem (PublishedAt 25) None]
    | _ => [mkItem (PublishedAt 20) (Some "https://p/b")]
    end in
  let site := fun p => if (p <=? 2)%nat then Listing (listing p) else NoPage in
  site 3 = NoPage /\
  result (search_news 10 site 5) = ["https://p/a"; "https://p/b"].
Proof.
  intros listing site. split; [reflexivity|].
  destruct (searches_complete_on_recent_pages 10 site listing 5 2) as [_ H];
    [lia | | now right; left |].
  - intros p Hp.
    assert (p = 1 \/ p = 2) as [-> | ->] by lia;
      (split; [reflexivity | split; [discriminate | reflexivity]]).
  - rewrite H. reflexivity.
Defined.

(** *** The search of the Fusoes scraper *)

Lemma existsb_eqb_In : forall u (l : list string),
  existsb (String.eqb u) l = true <-> In u l.
Proof.
  intros u l. rewrite existsb_exists. split.
  - intros (x & Hx & E). apply String.eqb_eq in E. now subst.
  - intro H. exists u. split; [exact H | apply String.eqb_refl].
Qed.

(** The loop over the results of Google keeps the urls found so far,
    adds only urls of the site, and adds none twice. *)
Lemma google_urls_facts : forall results all,
  NoDup all ->
  let out := google_urls all results in
  NoDup out /\
  (forall u, In u out ->
     In u all \/ (In (Some u) results /\ contains site_name u = true)) /\
  (forall u, In u all -> In u out).
Proof.
  induction results as [|r results IH]; intros all Hnd; cbv zeta.
  - simpl. split; [exact Hnd|].
    split; [intros u Hu; now left | intros u Hu; exact Hu].
  - destruct r as [u|]; simpl.
    + destruct (contains site_name u) eqn:C; simpl.
      * destruct (existsb (String.eqb u) all) eqn:E; simpl.
        -- destruct (IH all Hnd) as (H1 & H2 & H3).
           split; [exact H1|]. split; [|exact H3].
           intros v Hv. destruct (H2 v Hv) as [H | [H Hc]]; [now left | right].
           split; [now right | exact Hc].
        -- assert (NoDup (all ++ [u])) as Hnd'.
           { apply NoDup_app; [exact Hnd | repeat constructor; intros [] |].
             intros v Hv [<- | []]. apply existsb_eqb_In in Hv. congruence. }
           destruct (IH (all ++ [u])%list Hnd') as (H1 & H2 & H3).
           split; [exact H1|]. split.
           ++ intros v Hv. destruct (H2 v Hv) as [H | [H Hc]].
              ** apply in_app_or in H as [H | [<- | []]]; [now left | right].
                 split; [now left | exact C].
              ** right. split; [now right | exact Hc].
           ++ intros v Hv. apply H3, in_or_app. now left.
      * destruct (IH all Hnd) as (H1 & H2 & H3).
        split; [exact H1|]. split; [|exact H3].
        intros v Hv. destruct (H2 v Hv) as [H | [H Hc]]; [now left | right].
        split; [now right | exact Hc].
    + destruct (IH all Hnd) as (H1 & H2 & H3).
      split; [exact H1|]. split; [|exact H3].
      intros v Hv. destruct (H2 v Hv) as [H | [H Hc]]; [now left | right].
      split; [now right | exact Hc].
Qed.

(** X24.  [search_news] of the Fusoes scraper asks Google only when
    the home page gave no url: with at least one url from the home page
    that list is the result and one request is made.  What comes from
    Google holds only urls that contain the name of the site, each of
    them once, each the link of a result. *)
Theorem google_is_the_last_resort : forall query date_limit home google,
  let m := fusoes_search_news query date_limit home google in
  let found := match home with
               | Some articles => home_urls query date_limit articles
               | None => []
               end in
  (found <> [] -> trace m = [HomePage] /\ result m = found) /\
  (found = [] ->
   trace m = [HomePage; GoogleSearch] /\
   NoDup (result m) /\
   (forall u, In u (result m) ->
      contains site_name u = true /\
      exists results, google = Some results /\ In (Some u) results)).
Proof.
  intros query date_limit home google m found. subst m.
  unfold fusoes_search_news. fold found. split.
  - intro Hne. destruct found; [contradiction | now split].
  - intros ->. split; [reflexivity|]. simpl result.
    destruct google as [results|]; simpl.
    + destruct (google_urls_facts results [] (NoDup_nil _)) as (H1 & H2 & _).
      split; [exact H1|]. intros u Hu.
      destruct (H2 u Hu) as [[] | [Hin Hc]]. split; [exact Hc|].
      now exists results.
    + split; [constructor | contradiction].
Qed.

Lemma google_is_the_last_resort_witness :
  let google := Some [ Some "https://fusoesaquisicoes.com/a"; None;
                       Some "https://other.example/b";
                       Some "https://fusoesaquisicoes.com/a" ] in
  let m := fusoes_search_news default_query 10 None google in
  trace m = [HomePage; GoogleSearch] /\
  result m = ["https://fusoesaquisicoes.com/a"] /\ NoDup (result m).
Proof.
  intros google m.
  destruct (google_is_the_last_resort default_query 10 None google) as [_ H].
  destruct (H eq_refl) as (Ht & Hnd & _).
  split; [exact Ht|]. split; [reflexivity | exact Hnd].
Defined.

Lemma home_urls_cons : forall query date_limit a rest u,
  In u (home_urls query date_limit (a :: rest)) <->
  (exists t text,
     posted a = PublishedAt t /\ (date_limit <= t)%Z /\
     title_link a = Some (u, text) /\
     (_check_keywords u query || _check_keywords text query = true)) \/
  In u (home_urls query date_limit rest).
Proof.
  intros query date_limit [p tl] rest u. cbn [home_urls posted title_link].
  assert (forall P : Prop, ~ P -> forall Q : Prop, Q <-> P \/ Q) as skip
    by (intros P HP Q; tauto).
  destruct p as [ | | |t];
    try (apply skip; intros (t' & text & H & _); discriminate H).
  destruct tl as [[news_url news_text]|];
    [|apply skip; intros (t' & text & _ & _ & H & _); discriminate H].
  destruct (Z.ltb_spec t date_limit) as [Hold | Hnew].
  { apply skip. intros (t' & text & H & Ht & _). injection H as <-. lia. }
  destruct (_check_keywords news_url query || _check_keywords news_text query) eqn:K.
  - simpl. split.
    + intros [<- | H]; [left | now right].
      exists t, news_text. now repeat split.
    + intros [(t' & text & _ & _ & H & _) | H]; [left | now right].
      now injection H.
  - apply skip. intros (t' & text & _ & _ & H & K').
    injection H as <- <-. congruence.
Qed.

(** X25.  The scan of the home page judges every article on its own: a
    url is returned exactly when some article of the page is dated, not
    older than the limit, links to that url from its title, and shows a
    keyword in the url or in the title.  Unlike in the paged searches
    of Valor, an older article before it does not hide it. *)
Theorem home_page_keeps_every_recent_match : forall query date_limit articles u,
  In u (home_urls query date_limit articles) <->
  exists a t text,
    In a articles /\ posted a = PublishedAt t /\ (date_limit <= t)%Z /\
    title_link a = Some (u, text) /\
    (_check_keywords u query || _check_keywords text query = true).
Proof.
  intros query date_limit articles u.
  induction articles as [|a rest IH].
  - simpl. split; [contradiction | intros (a & _ & _ & [] & _)].
  - rewrite home_urls_cons, IH. split.
    + intros [(t & text & H) | (a' & t & text & Hin & H)].
      * exists a, t, text. split; [now left | exact H].
      * exists a', t, text. split; [now right | exact H].
    + intros (a' & t & text & [<- | Hin] & H).
      * left. now exists t, text.
      * right. now exists a', t, text.
Qed.

(** *** [_check_keywords] *)

Lemma existsb_incl : forall (f : string -> bool) (sub l : list string),
  incl sub l -> existsb f sub = true -> existsb f l = true.
Proof.
  intros f sub l Hincl H. apply existsb_exists in H as (x & Hx & Hf).
  apply existsb_exists. exists x. split; [now apply Hincl | exact Hf].
Qed.

Lemma contains_empty_hay : forall k, k <> ""%string -> contains k "" = false.
Proof. intros [|c k] H; [contradiction | reflexivity]. Qed.

Lemma lower_empty : forall s, String.eqb (lower s) "" = String.eqb s "".
Proof. now intros [|c s]. Qed.

(** X26.  The words of the default query add nothing to the fixed list
    of M&A keywords: with the default query a text is accepted exactly
    when its lower-case form contains one of the eleven fixed keywords,
    and with any query every such text is accepted. *)
Theorem query_only_widens : forall text,
  let by_list := existsb (fun keyword => contains keyword (lower text)) ma_keywords in
  _check_keywords text default_query = by_list /\
  forall query, by_list = true -> _check_keywords text query = true.
Proof.
  intros text by_list. subst by_list. unfold _check_keywords.
  destruct text as [|c text].
  - split; [reflexivity | intros query H; discriminate H].
  - cbn [String.eqb]. split.
    + set (f := fun keyword => contains keyword (lower (String c text))).
      destruct (existsb f ma_keywords) eqn:E; [apply orb_true_r|].
      rewrite orb_false_r.
      destruct (existsb f (map lower (split default_query))) eqn:D; [|reflexivity].
      rewrite <- E. symmetry. revert D. apply existsb_incl.
      intros k Hk. vm_compute in Hk.
      destruct Hk as [Hk | [Hk | [Hk | []]]]; subst k; vm_compute; tauto.
    + intros query ->. apply orb_true_r.
Qed.

Lemma query_only_widens_witness :
  existsb (fun keyword => contains keyword (lower "Acme COMPROU a Beta"))
          ma_keywords = true /\
  _check_keywords "Acme COMPROU a Beta" "energia" = true.
Proof.
  split; [reflexivity|].
  apply (proj2 (query_only_widens "Acme COMPROU a Beta") "energia").
  reflexivity.
Defined.

(** [_check_keywords] does not see the case of the text: a text and
    its lower-case form get the same answer, for every query. *)
Lemma check_keywords_ignores_case : forall text query,
  _check_keywords (lower text) query = _check_keywords text query.
Proof.
  intros text query. unfold _check_keywords.
  now rewrite lower_empty, NormalizerExtras.lower_idem.
Qed.

End SearchExtras.
